(** * One-way project synchronisation (pkg/project/sync.go)

    A shallow embedding of the sync pass of the codewind installer:
    [ignoreFileOrDirectory], [syncFile], the walker closure of [syncFiles],
    [findNewFiles], [completeUpload], [handleMissingProjectDir] and
    [SyncProject].

    Conventions.
    - Paths and other Go strings are [string]s; a character stands for a
      byte (and for a rune: the model is exact on ASCII input).
    - Go's [int] and [int64] are [Z]; integer division is [Z.quot].
    - The host is POSIX: the path separator is "/" and [filepath.ToSlash]
      is the identity.
    - Everything outside the process (file system, clock, transport and the
      helpers of other packages) is a field of a [World]; every call that
      leaves the process is appended to a chronological trace.
    - A run-time panic of Go (slice out of range, nil dereference) is the
      outcome [Panic].

    The removal of a remote installation (pkg/remote/remove.go:
    [RemoveRemote], [deleteDeployment], [deletePod], [deleteService]) is
    embedded after the sync pass, with the same conventions. *)

From Stdlib Require Import String Ascii List ZArith Bool Lia PeanoNat.
Import ListNotations.

Local Open Scope list_scope.
Local Open Scope string_scope.

(* ===================================================================== *)
(** ** Go strings *)
(* ===================================================================== *)

Module GoString.

(** [s[n:]]: a slice expression panics when [n > len(s)]. *)
Definition sliceFrom (s : string) (n : nat) : option string :=
  if Nat.leb n (String.length s)
  then Some (substring n (String.length s - n) s)
  else None.

(** [strings.HasPrefix(s, "/")]. *)
Definition hasSlashPrefix (s : string) : bool :=
  match s with
  | String c _ => Ascii.eqb c "/"
  | EmptyString => false
  end.

(** [string([]rune(s)[1:])] for a non-empty [s]. *)
Definition dropFirstRune (s : string) : string :=
  match s with
  | String _ r => r
  | EmptyString => EmptyString
  end.

(** [strings.Contains(s, "/")]. *)
Fixpoint containsSlash (s : string) : bool :=
  match s with
  | EmptyString => false
  | String c r => Ascii.eqb c "/" || containsSlash r
  end.

Definition isEmpty (s : string) : bool :=
  match s with EmptyString => true | _ => false end.

Definition isSpace (c : ascii) : bool :=
  let n := nat_of_ascii c in
  Nat.eqb n 32 || Nat.eqb n 9 || Nat.eqb n 10 || Nat.eqb n 11
  || Nat.eqb n 12 || Nat.eqb n 13.

Fixpoint trimLeft (s : string) : string :=
  match s with
  | String c r => if isSpace c then trimLeft r else s
  | EmptyString => EmptyString
  end.

Fixpoint rev (acc s : string) : string :=
  match s with
  | EmptyString => acc
  | String c r => rev (String c acc) r
  end.

(** [strings.TrimSpace] on ASCII white space. *)
Definition TrimSpace (s : string) : string :=
  rev EmptyString (trimLeft (rev EmptyString (trimLeft s))).

(** [strings.Join(l, "/")]. *)
Fixpoint joinSlash (l : list string) : string :=
  match l with
  | [] => EmptyString
  | [x] => x
  | x :: r => x ++ "/" ++ joinSlash r
  end.

(** [strings.Split(s, "/")], with [cur] the element being read. *)
Fixpoint splitSlash (cur s : string) : list string :=
  match s with
  | EmptyString => [cur]
  | String c r =>
      if Ascii.eqb c "/" then cur :: splitSlash EmptyString r
      else splitSlash (cur ++ String c EmptyString) r
  end.

End GoString.

(* ===================================================================== *)
(** ** Go's path/filepath on a POSIX host *)
(* ===================================================================== *)

Module filepath.
Import GoString.

(** [filepath.ToSlash]: the separator already is a slash. *)
Definition ToSlash (p : string) : string := p.

Definition IsAbs (p : string) : bool := hasSlashPrefix p.

(** One element of the path being cleaned, [out] holding the elements
    kept so far, last one first. An empty element and "." are dropped;
    ".." removes the last real element, is dropped at the root, and is
    kept in a relative path that has nothing left to remove. *)
Definition cleanElem (rooted : bool) (out : list string) (e : string)
  : list string :=
  if String.eqb e EmptyString || String.eqb e "." then out
  else if String.eqb e ".." then
    match out with
    | top :: rest => if String.eqb top ".." then ".." :: out else rest
    | [] => if rooted then [] else [".."]
    end
  else e :: out.

(** [filepath.Clean]. *)
Definition Clean (p : string) : string :=
  if isEmpty p then "."
  else
    let rooted := hasSlashPrefix p in
    let out := fold_left (cleanElem rooted) (splitSlash EmptyString p) [] in
    let body := joinSlash (List.rev out) in
    if rooted then "/" ++ body
    else if isEmpty body then "." else body.

(** [filepath.Join] of two elements. *)
Definition Join (a b : string) : string :=
  if negb (isEmpty a) then Clean (a ++ "/" ++ b)
  else if negb (isEmpty b) then Clean b
  else EmptyString.

(** *** [filepath.Match] (Go 1.13, non-Windows) *)

(** [scanChunk] after the leading stars: the chunk runs up to the first
    star outside a character class. *)
Fixpoint scanBody (inrange : bool) (pattern : string) : string * string :=
  match pattern with
  | EmptyString => (EmptyString, EmptyString)
  | String c r =>
      if Ascii.eqb c "\" then
        match r with
        | String c1 r1 =>
            let '(chunk, rest) := scanBody inrange r1 in
            (String c (String c1 chunk), rest)
        | EmptyString => (String c EmptyString, EmptyString)
        end
      else if Ascii.eqb c "*" && negb inrange then (EmptyString, pattern)
      else
        let inrange' :=
          if Ascii.eqb c "[" then true
          else if Ascii.eqb c "]" then false
          else inrange in
        let '(chunk, rest) := scanBody inrange' r in
        (String c chunk, rest)
  end.

Fixpoint dropStars (pattern : string) : bool * string :=
  match pattern with
  | String c r =>
      if Ascii.eqb c "*" then (true, snd (dropStars r)) else (false, pattern)
  | EmptyString => (false, EmptyString)
  end.

Definition scanChunk (pattern : string) : bool * string * string :=
  let '(star, p) := dropStars pattern in
  let '(chunk, rest) := scanBody false p in
  (star, chunk, rest).

(** [getEsc]: [None] is [ErrBadPattern]. *)
Definition getEsc (chunk : string) : option (ascii * string) :=
  match chunk with
  | EmptyString => None
  | String c r =>
      if Ascii.eqb c "-" || Ascii.eqb c "]" then None
      else
        let chunk1 := if Ascii.eqb c "\" then r else chunk in
        match chunk1 with
        | EmptyString => None
        | String lo nchunk => if isEmpty nchunk then None else Some (lo, nchunk)
        end
  end.

Definition leAscii (a b : ascii) : bool :=
  Nat.leb (nat_of_ascii a) (nat_of_ascii b).

(** The range loop of a character class; every turn consumes at least
    one character of [chunk], so [String.length chunk] turns suffice. *)
Fixpoint classRanges (fuel : nat) (chunk : string) (r : ascii)
         (matched : bool) (nrange : nat) : option (bool * string) :=
  match fuel with
  | O => None
  | S fuel' =>
      match chunk with
      | String c rest =>
          if Ascii.eqb c "]" && Nat.ltb 0 nrange then Some (matched, rest)
          else
            match getEsc chunk with
            | None => None
            | Some (lo, chunk1) =>
                match chunk1 with
                | String d rest1 =>
                    if Ascii.eqb d "-" then
                      match getEsc rest1 with
                      | None => None
                      | Some (hi, chunk2) =>
                          classRanges fuel' chunk2 r
                            (matched || (leAscii lo r && leAscii r hi))
                            (S nrange)
                      end
                    else
                      classRanges fuel' chunk1 r
                        (matched || (leAscii lo r && leAscii r lo))
                        (S nrange)
                | EmptyString => None
                end
            end
      | EmptyString => None
      end
  end.

(** The three outcomes of [matchChunk]: [(rest, true, nil)],
    [(_, false, nil)] and [(_, false, ErrBadPattern)]. *)
Inductive chunkResult : Type :=
| ChunkOk (rest : string)
| ChunkFail
| ChunkBad.

Fixpoint matchChunkFuel (fuel : nat) (chunk s : string) : chunkResult :=
  match fuel with
  | O => ChunkBad
  | S fuel' =>
      match chunk with
      | EmptyString => ChunkOk s
      | String c ctl =>
          match s with
          | EmptyString => ChunkFail
          | String s0 stl =>
              if Ascii.eqb c "[" then
                match ctl with
                | EmptyString => ChunkBad
                | String n ctl' =>
                    let negated := Ascii.eqb n "^" in
                    let cls := if negated then ctl' else ctl in
                    match classRanges (S (String.length cls)) cls s0 false 0 with
                    | None => ChunkBad
                    | Some (matched, chunk') =>
                        if Bool.eqb matched negated then ChunkFail
                        else matchChunkFuel fuel' chunk' stl
                    end
                end
              else if Ascii.eqb c "?" then
                if Ascii.eqb s0 "/" then ChunkFail
                else matchChunkFuel fuel' ctl stl
              else if Ascii.eqb c "\" then
                match ctl with
                | EmptyString => ChunkBad
                | String c1 ctl' =>
                    if Ascii.eqb c1 s0 then matchChunkFuel fuel' ctl' stl
                    else ChunkFail
                end
              else if Ascii.eqb c s0 then matchChunkFuel fuel' ctl stl
              else ChunkFail
          end
      end
  end.

Definition matchChunk (chunk s : string) : chunkResult :=
  matchChunkFuel (S (String.length chunk)) chunk s.

Inductive starResult : Type :=
| StarFound (rest : string)
| StarNone
| StarBad.

(** The loop that lets a leading star swallow [name[0..i]]; a star
    never swallows a separator. *)
Fixpoint starLoop (chunk : string) (lastChunk : bool) (name : string)
  : starResult :=
  match name with
  | EmptyString => StarNone
  | String c tl =>
      if Ascii.eqb c "/" then StarNone
      else
        match matchChunk chunk tl with
        | ChunkOk t =>
            if lastChunk && negb (isEmpty t) then starLoop chunk lastChunk tl
            else StarFound t
        | ChunkBad => StarBad
        | ChunkFail => starLoop chunk lastChunk tl
        end
  end.

(** The [Pattern:] loop; [None] is [ErrBadPattern]. Every turn removes a
    non-empty chunk, or stars, from the pattern. *)
Fixpoint matchLoop (fuel : nat) (pattern name : string) : option bool :=
  match fuel with
  | O => Some false
  | S fuel' =>
      if isEmpty pattern then Some (isEmpty name)
      else
        let '(star, chunk, rest) := scanChunk pattern in
        if star && isEmpty chunk then Some (negb (containsSlash name))
        else
          let retry :=
            if star then
              match starLoop chunk (isEmpty rest) name with
              | StarFound t => matchLoop fuel' rest t
              | StarBad => None
              | StarNone => Some false
              end
            else Some false in
          match matchChunk chunk name with
          | ChunkOk t =>
              if isEmpty t || negb (isEmpty rest) then matchLoop fuel' rest t
              else retry
          | ChunkBad => None
          | ChunkFail => retry
          end
  end.

(** [filepath.Match pattern name]: [Some b] is [(b, nil)] and [None] is
    [(false, ErrBadPattern)]. *)
Definition Match (pattern name : string) : option bool :=
  matchLoop (S (String.length pattern)) pattern name.

End filepath.

(* ===================================================================== *)
(** ** PathMatcher: [ignoreFileOrDirectory] *)
(* ===================================================================== *)

(** The rule as it is matched: cleaned, and without the leading slash of
    older .cw-settings files. *)
Definition cleanRule (fileName : string) : string :=
  let fileName := filepath.Clean fileName in
  if GoString.hasSlashPrefix fileName then GoString.dropFirstRune fileName
  else fileName.

(** [ignoreFileOrDirectory]: the loop leaves with [false] at the first rule
    [filepath.Match] rejects as malformed, and with [true] at the first
    rule that matches. *)
Fixpoint ignoreFileOrDirectory (name : string) (isDir : bool)
         (cwSettingsIgnoredPathsList : list string) : bool :=
  match cwSettingsIgnoredPathsList with
  | [] => false
  | fileName :: rest =>
      match filepath.Match (cleanRule fileName) name with
      | None => false
      | Some true => true
      | Some false => ignoreFileOrDirectory name isDir rest
      end
  end.

(* ===================================================================== *)
(** ** Data model *)
(* ===================================================================== *)

(** Operation tags of [ProjectError] (declared in the package, outside
    sync.go); only their identity matters. *)
Inductive errOp : Type :=
| errOpConNotFound
| errBadPath
| errOpSync
| errOpSyncRef
| errOpRequest
| errOpNotFound
| errOpOther (tag : string).

(** An error of the operating system: its text, and whether
    [os.IsNotExist] holds of it. *)
Record osError : Type := {
  osMsg : string;
  osNotExist : bool
}.

(** Go [error] values. Texts built with [fmt] are kept symbolic. *)
Inductive goError : Type :=
| SkipDir                                   (* filepath.SkipDir *)
| ErrExternal (msg : string)                (* raised outside this file *)
| ErrOS (e : osError)
| ErrProjectPathDoesNotExist                (* textProjectPathDoesNotExist *)
| ErrWalking (projectPath : string) (cause : goError)
                                            (* "error walking the path %q: %v\n" *)
| ErrInvalidRefs (refs : list (string * option osError))
                                            (* "invalid file reference %q: %v\n", concatenated *)
| ErrPFEStatus (code : Z)                   (* "Error: PFE responded with status code %d" *)
| ErrWrapped (op : errOp) (cause : goError). (* a *ProjectError used as an error *)

(** A description is either a given text or the text of an error. *)
Inductive description : Type :=
| DescText (s : string)
| DescOf (e : goError).

Record ProjectError : Type := {
  Op : errOp;
  Err : goError;
  Desc : description
}.

Definition asError (pe : ProjectError) : goError := ErrWrapped (Op pe) (Err pe).

(** Errors of the connections and config packages: an error and its
    description. *)
Record ExternalError : Type := {
  extErr : goError;
  extDesc : string
}.

Record UploadedFile : Type := {
  FilePath : string;
  Status : string;
  StatusCode : Z
}.

Record CompleteRequest : Type := {
  FileList : list string;
  DirectoryList : list string;
  ModifiedList : list string;
  TimeStamp : Z
}.

(** The content of a file after [zlib] compression and base64 encoding. *)
Inductive encoded : Type :=
| Base64Zlib (content : string).

Record FileUploadMsg : Type := {
  IsDirectory : bool;
  Mode : Z;
  RelativePath : string;
  Message : encoded
}.

Record SyncResponse : Type := {
  respStatus : string;
  respStatusCode : Z;
  UploadedFiles : list UploadedFile
}.

(** [os.FileInfo], as far as the sync pass reads it. *)
Record FileInfo : Type := {
  IsDir : bool;
  ModTime : Z;     (* UnixNano *)
  Perm : Z         (* Mode().Perm() *)
}.

(** [walkerInfo]; the embedded [os.FileInfo] is nil when the walk reports
    an error for the entry. *)
Record walkerInfo : Type := {
  Path : string;
  fileInfo : option FileInfo;
  IgnoredPaths : list string;
  LastSync : Z
}.

Record SyncInfo : Type := {
  fileList : list string;
  directoryList : list string;
  modifiedList : list string;
  UploadedFileList : list UploadedFile
}.

Record refPath : Type := {
  From : string;
  To : string
}.

Record ProjectInfo : Type := {
  LocationOnDisk : string
}.

Definition Connection : Type := string.

(* ===================================================================== *)
(** ** The world outside the process *)
(* ===================================================================== *)

Inductive payload : Type :=
| NoBody
| UploadBody (msg : FileUploadMsg)
| CompleteBody (req : CompleteRequest).

Record request : Type := {
  method : string;
  url : string;
  body : payload
}.

(** What [http.NewRequest] followed by [sechttp.DispatchHTTPRequest]
    gives: the request could not be built, in which case
    [DispatchHTTPRequest] is not called; the transport failed; or the
    remote answered. *)
Inductive httpResult : Type :=
| RequestError (e : string)
| TransportError (desc : string)
| Response (status : string) (code : Z).

Inductive statResult : Type :=
| StatOk (fi : FileInfo)
| StatErr (e : osError).

(** [os.IsNotExist(err)] for the error of an [os.Stat]. *)
Definition isNotExist (r : statResult) : bool :=
  match r with
  | StatErr e => osNotExist e
  | StatOk _ => false
  end.

(** What [filepath.Walk] finds below a root: the result of [Lstat] on each
    entry and, for a directory, its entries in the order [readDirNames]
    sorts them, or the error of reading it. *)
#[local] Set Warnings "-register-all".
Inductive fsnode : Type :=
| FsFile (modTime perm : Z)
| FsDir (modTime perm : Z) (entries : list (string * fsnode))
| FsUnreadableDir (modTime perm : Z) (e : osError)
| FsLstatErr (e : osError).
#[local] Set Warnings "register-all".

(** Calls that leave the process, in the order they are made. [EvSend] is
    a request given to [sechttp.DispatchHTTPRequest], whatever the
    transport and the remote make of it; a request that [http.NewRequest]
    could not build is no event. *)
Inductive event : Type :=
| EvPathExists (path : string)
| EvStat (path : string)
| EvReadFile (path : string)
| EvWalk (root : string)
| EvGetProject (conURL projectID : string)
| EvGetFileList (conURL projectID : string)
| EvSend (req : request).

Definition trace : Type := list event.

Definition record (t : trace) (e : event) : trace := (t ++ [e])%list.

(** The file system is fixed during a pass; the clock, the remote and the
    transport may answer according to everything that happened before. *)
Record World : Type := {
  time_Now : trace -> Z;                                  (* UnixNano *)
  os_Stat : string -> statResult;
  ioutil_ReadFile : string -> option string;
  walkRoot : string -> fsnode;
  utils_PathExists : string -> bool;
  json_CWSettings : string -> option (list string);       (* ignoredPaths *)
  json_refPaths : string -> option (list refPath);        (* refPaths *)
  GetConnectionID : string -> ProjectError + string;
  connections_GetConnectionByID : string -> ExternalError + Connection;
  config_PFEOriginFromConnection : Connection -> ExternalError + string;
  GetProjectFromID :
    trace -> Connection -> string -> string -> ProjectError + ProjectInfo;
  GetProjectFileList :
    trace -> Connection -> string -> string -> goError + list string;
  sechttp_Dispatch : trace -> request -> Connection -> httpResult
}.

(* ===================================================================== *)
(** ** Computations: state passing with panics *)
(* ===================================================================== *)

Inductive panicReason : Type :=
| SliceBoundsOutOfRange
| NilDereference.

Inductive outcome (A : Type) : Type :=
| Ok (a : A)
| Panic (why : panicReason).

Arguments Ok {A} a.
Arguments Panic {A} why.

Definition M (S A : Type) : Type := S -> outcome A * S.

Definition ret {S A : Type} (a : A) : M S A := fun s => (Ok a, s).

Definition bind {S A B : Type} (m : M S A) (k : A -> M S B) : M S B :=
  fun s =>
    match m s with
    | (Ok a, s') => k a s'
    | (Panic why, s') => (Panic why, s')
    end.

Definition panic {S A : Type} (why : panicReason) : M S A :=
  fun s => (Panic why, s).

Declare Scope go_scope.
Delimit Scope go_scope with go.
Notation "x <- m ;; k" := (bind m (fun x => k))
  (at level 61, m at next level, right associativity) : go_scope.
Notation "' pat <- m ;; k" := (bind m (fun x => match x with pat => k end))
  (at level 61, pat pattern, m at next level, right associativity) : go_scope.
Notation "m ;;; k" := (bind m (fun _ => k))
  (at level 61, right associativity) : go_scope.
Local Open Scope go_scope.

(** The variables the walker closure of [syncFiles] captures, with the
    trace. *)
Record walkState : Type := {
  wsInfo : SyncInfo;
  refPathsChanged : bool;
  wsTrace : trace
}.

Definition emptyInfo : SyncInfo :=
  {| fileList := []; directoryList := []; modifiedList := [];
     UploadedFileList := [] |}.

Definition liftT {A : Type} (m : M trace A) : M walkState A :=
  fun s =>
    let '(r, t) := m (wsTrace s) in
    (r, {| wsInfo := wsInfo s; refPathsChanged := refPathsChanged s;
           wsTrace := t |}).

Definition updInfo (f : SyncInfo -> SyncInfo) : M walkState unit :=
  fun s => (Ok tt, {| wsInfo := f (wsInfo s);
                      refPathsChanged := refPathsChanged s;
                      wsTrace := wsTrace s |}).

Definition setRefPathsChanged : M walkState unit :=
  fun s => (Ok tt, {| wsInfo := wsInfo s; refPathsChanged := true;
                      wsTrace := wsTrace s |}).

Definition getRefPathsChanged : M walkState bool :=
  fun s => (Ok (refPathsChanged s), s).

Definition appendFile (p : string) (i : SyncInfo) : SyncInfo :=
  {| fileList := (fileList i ++ [p])%list; directoryList := directoryList i;
     modifiedList := modifiedList i; UploadedFileList := UploadedFileList i |}.

Definition appendDirectory (p : string) (i : SyncInfo) : SyncInfo :=
  {| fileList := fileList i; directoryList := (directoryList i ++ [p])%list;
     modifiedList := modifiedList i; UploadedFileList := UploadedFileList i |}.

Definition appendModified (p : string) (i : SyncInfo) : SyncInfo :=
  {| fileList := fileList i; directoryList := directoryList i;
     modifiedList := (modifiedList i ++ [p])%list;
     UploadedFileList := UploadedFileList i |}.

Definition appendUploaded (u : UploadedFile) (i : SyncInfo) : SyncInfo :=
  {| fileList := fileList i; directoryList := directoryList i;
     modifiedList := modifiedList i;
     UploadedFileList := (UploadedFileList i ++ [u])%list |}.

(** [s[n:]] inside a computation. *)
Definition slice {S : Type} (s : string) (n : nat) : M S string :=
  match GoString.sliceFrom s n with
  | Some r => ret r
  | None => panic SliceBoundsOutOfRange
  end.

Section Sync.

Variable w : World.

(** *** Calls leaving the process *)

Definition stat (path : string) : M trace statResult :=
  fun t => (Ok (os_Stat w path), record t (EvStat path)).

Definition readFile (path : string) : M trace (option string) :=
  fun t => (Ok (ioutil_ReadFile w path), record t (EvReadFile path)).

Definition pathExists (path : string) : M trace bool :=
  fun t => (Ok (utils_PathExists w path), record t (EvPathExists path)).

(** [http.NewRequest] and, when it gave a request, the call of
    [sechttp.DispatchHTTPRequest]. The three callers examine the error of
    [http.NewRequest] (or, in [syncFile], use its nil request) before they
    dispatch. *)
Definition send (req : request) (conInfo : Connection) : M trace httpResult :=
  fun t =>
    match sechttp_Dispatch w t req conInfo with
    | RequestError e => (Ok (RequestError e), t)
    | r => (Ok r, record t (EvSend req))
    end.

Definition getProjectFromID (connection : Connection) (conURL projectID : string)
  : M trace (ProjectError + ProjectInfo) :=
  fun t => (Ok (GetProjectFromID w t connection conURL projectID),
            record t (EvGetProject conURL projectID)).

Definition getProjectFileList (connection : Connection) (conURL projectID : string)
  : M trace (goError + list string) :=
  fun t => (Ok (GetProjectFileList w t connection conURL projectID),
            record t (EvGetFileList conURL projectID)).

Definition now : M trace Z := fun t => (Ok (time_Now w t), t).

(** *** UploadCoordinator: [syncFile] *)

Definition failedUpload (relativePath : string) : UploadedFile :=
  {| FilePath := relativePath; Status := "Failed"; StatusCode := 0 |}.

Definition syncFile (projectID projectPath path : string)
           (connection : Connection) (conURL : string) : M trace UploadedFile :=
  rel <- slice path (String.length projectPath + 1) ;;
  let relativePath := filepath.ToSlash rel in
  let uploadResponse := failedUpload relativePath in
  st <- stat path ;;
  match st with
  | StatErr _ => ret uploadResponse
  | StatOk fileStat =>
      rd <- readFile path ;;
      match rd with
      | None => ret uploadResponse
      | Some fileContent =>
          let fileUploadBody :=
            {| IsDirectory := IsDir fileStat;
               Mode := Perm fileStat;
               RelativePath := relativePath;
               Message := Base64Zlib fileContent |} in
          let projectUploadURL :=
            conURL ++ "/api/v1/projects/" ++ projectID ++ "/upload" in
          r <- send {| method := "PUT"; url := projectUploadURL;
                       body := UploadBody fileUploadBody |} connection ;;
          match r with
          | RequestError _ => panic NilDereference  (* request.Header on nil *)
          | TransportError _ => ret uploadResponse
          | Response status code =>
              ret {| FilePath := relativePath; Status := status;
                     StatusCode := code |}
          end
      end
  end.

(** *** [completeUpload] and [handleMissingProjectDir] *)

Definition completeUpload (projectID : string) (completeRequest : CompleteRequest)
           (conInfo : Connection) (conURL : string) : M trace (string * Z) :=
  let uploadEndURL := conURL ++ "/api/v1/projects/" ++ projectID ++ "/upload/end" in
  r <- send {| method := "POST"; url := uploadEndURL;
               body := CompleteBody completeRequest |} conInfo ;;
  match r with
  | RequestError e => ret (e, 0%Z)
  | TransportError desc => ret (desc, 0%Z)
  | Response status code => ret (status, code)
  end.

Definition StatusOK : Z := 200.

Definition handleMissingProjectDir (connection : Connection)
           (url projectID : string) : M trace (option ProjectError) :=
  r <- send {| method := "POST";
               url := url ++ "/api/v1/projects/" ++ projectID ++ "/missingLocalDir";
               body := NoBody |} connection ;;
  match r with
  | RequestError e =>
      ret (Some {| Op := errOpRequest; Err := ErrExternal e; Desc := DescText e |})
  | TransportError desc =>
      ret (Some {| Op := errOpRequest; Err := ErrExternal desc;
                   Desc := DescText desc |})
  | Response _ code =>
      if negb (Z.eqb code StatusOK) then
        ret (Some {| Op := errOpNotFound; Err := ErrPFEStatus code;
                     Desc := DescOf (ErrPFEStatus code) |})
      else ret None
  end.

End Sync.

(* ===================================================================== *)
(** ** [filepath.Walk] *)
(* ===================================================================== *)

Section Walk.

Variable S : Type.

(** The walk function: path, [Lstat] result (nil on error), error. *)
Variable walkFn : string -> option FileInfo -> option goError -> M S (option goError).

Definition lstatInfo (n : fsnode) : option FileInfo :=
  match n with
  | FsFile mt perm => Some {| IsDir := false; ModTime := mt; Perm := perm |}
  | FsDir mt perm _ => Some {| IsDir := true; ModTime := mt; Perm := perm |}
  | FsUnreadableDir mt perm _ => Some {| IsDir := true; ModTime := mt; Perm := perm |}
  | FsLstatErr _ => None
  end.

Definition isDirNode (n : fsnode) : bool :=
  match n with
  | FsDir _ _ _ | FsUnreadableDir _ _ _ => true
  | _ => false
  end.

Definition isSkipDir (e : goError) : bool :=
  match e with SkipDir => true | _ => false end.

(** [walk]: a file is passed to [walkFn]; a directory is read, passed to
    [walkFn] with the error of reading it, and, when both went well, its
    entries are walked in order. An entry whose [Lstat] fails is passed to
    [walkFn] with that error. [SkipDir] returned for a directory skips it;
    any other error (and [SkipDir] returned for a file) ends the walk of
    the directory with that error. *)
Fixpoint walk (path : string) (n : fsnode) {struct n} : M S (option goError) :=
  match n with
  | FsFile _ _ => walkFn path (lstatInfo n) None
  | FsLstatErr e => walkFn path None (Some (ErrOS e))
  | FsUnreadableDir _ _ e => walkFn path (lstatInfo n) (Some (ErrOS e))
  | FsDir _ _ entries =>
      err1 <- walkFn path (lstatInfo n) None ;;
      match err1 with
      | Some e => ret (Some e)
      | None =>
          (fix walkEntries (names : list (string * fsnode)) : M S (option goError) :=
             match names with
             | [] => ret None
             | (name, child) :: rest =>
                 let filename := filepath.Join path name in
                 err <- walk filename child ;;
                 match err with
                 | None => walkEntries rest
                 | Some e =>
                     match child with
                     | FsLstatErr _ =>
                         if isSkipDir e then walkEntries rest else ret (Some e)
                     | _ =>
                         if negb (isDirNode child) || negb (isSkipDir e)
                         then ret (Some e)
                         else walkEntries rest
                     end
                 end
             end) entries
      end
  end.

(** [filepath.Walk root walkFn] *)
Definition Walk (root : string) (tree : fsnode) : M S (option goError) :=
  err <- walk root tree ;;
  match err with
  | Some SkipDir => ret None
  | _ => ret err
  end.

End Walk.

Arguments walk {S} walkFn path n.
Arguments Walk {S} walkFn root tree.

(* ===================================================================== *)
(** ** TreeWalker and SyncOrchestrator *)
(* ===================================================================== *)

Section Pass.

Variable w : World.

(** The constants of one call of [syncFiles]. *)
Variables (projectPath projectID conURL : string) (synctime : Z)
          (connection : Connection).

(** [info.ModTime().UnixNano() / 1000000] *)
Definition millis (nanos : Z) : Z := Z.quot nanos 1000000.

(** The name of the reference-path rule file. *)
Definition refPathsFile : string := ".cw-refpaths.json".

(** The closure [walker] of [syncFiles]. *)
Definition walker (path : string) (info : walkerInfo) (err : option goError)
  : M walkState (option goError) :=
  match err with
  | Some e => ret (Some e)
  | None =>
      if String.eqb path projectPath then ret None
      else
        rel <- slice path (String.length projectPath + 1) ;;
        let relativePath := filepath.ToSlash rel in
        match fileInfo info with
        | None => panic NilDereference
        | Some fi =>
            if negb (IsDir fi) then
              if ignoreFileOrDirectory relativePath false (IgnoredPaths info)
              then ret None
              else
                updInfo (appendFile relativePath) ;;;
                let modifiedmillis := millis (ModTime fi) in
                if Z.gtb modifiedmillis (LastSync info) then
                  uploadResponse <-
                    liftT (syncFile w projectID projectPath (Path info)
                                    connection conURL) ;;
                  updInfo (appendUploaded uploadResponse) ;;;
                  updInfo (appendModified relativePath) ;;;
                  if String.eqb relativePath refPathsFile
                  then setRefPathsChanged ;;; ret None
                  else ret None
                else ret None
            else
              if ignoreFileOrDirectory relativePath true (IgnoredPaths info)
              then ret (Some SkipDir)
              else updInfo (appendDirectory relativePath) ;;; ret None
        end
  end.

(** [retrieveIgnoredPathsList]: the list of .cw-settings, empty when the
    file is absent, unreadable or not the expected JSON. *)
Definition retrieveIgnoredPathsList : M trace (list string) :=
  let cwSettingsPath := filepath.Join projectPath ".cw-settings" in
  st <- stat w cwSettingsPath ;;
  if negb (isNotExist st) then
    plan <- readFile w cwSettingsPath ;;
    match plan with
    | None => ret []                 (* json.Unmarshal of no input fails *)
    | Some text =>
        match json_CWSettings w text with
        | Some l => ret l
        | None => ret []
        end
    end
  else ret [].

(** [retrieveRefPathsList] *)
Definition retrieveRefPathsList : M trace (list refPath) :=
  let cwRefPathsPath := filepath.Join projectPath ".cw-refpaths.json" in
  st <- stat w cwRefPathsPath ;;
  if negb (isNotExist st) then
    plan <- readFile w cwRefPathsPath ;;
    match plan with
    | None => ret []
    | Some text =>
        match json_refPaths w text with
        | Some l => ret l
        | None => ret []
        end
    end
  else ret [].

(** The first phase of [syncFiles]: the walk of the files that are
    physically in the project, with the combined ignore list. *)
Definition walkLocal (cwCombinedIgnoredPathsList : list string)
  : M walkState (option goError) :=
  liftT (fun t => (Ok tt, record t (EvWalk projectPath))) ;;;
  Walk (fun path info err =>
          walker path {| Path := path; fileInfo := info;
                         IgnoredPaths := cwCombinedIgnoredPathsList;
                         LastSync := synctime |} err)
       projectPath (walkRoot w projectPath).

(** [from], resolved against the project when it is relative. *)
Definition resolveFrom (r : refPath) : string :=
  if negb (filepath.IsAbs (From r)) then filepath.Join projectPath (From r)
  else From r.

(** The second phase: one call of the walker per valid reference.
    [errText] collects the invalid ones. *)
Fixpoint walkRefs (cwSettingsIgnoredPathsList : list string)
         (cwRefPathsList : list refPath)
         (errText : list (string * option osError))
  : M walkState (list (string * option osError)) :=
  match cwRefPathsList with
  | [] => ret errText
  | refPath :: rest =>
      let from := resolveFrom refPath in
      st <- liftT (stat w from) ;;
      match st with
      | StatErr e =>
          walkRefs cwSettingsIgnoredPathsList rest
                   (errText ++ [(from, Some e)])%list
      | StatOk info =>
          if IsDir info then
            walkRefs cwSettingsIgnoredPathsList rest
                     (errText ++ [(from, None)])%list
          else
            changed <- getRefPathsChanged ;;
            let lastSync := if changed then 0%Z else synctime in
            walker (filepath.Join projectPath (To refPath))
                   {| Path := from; fileInfo := Some info;
                      IgnoredPaths := cwSettingsIgnoredPathsList;
                      LastSync := lastSync |} None ;;;
            walkRefs cwSettingsIgnoredPathsList rest errText
      end
  end.

Definition initState (t : trace) : walkState :=
  {| wsInfo := emptyInfo; refPathsChanged := false; wsTrace := t |}.

(** Run the closure phases on fresh captured variables. *)
Definition withClosure {A : Type} (m : M walkState A) : M trace (A * SyncInfo) :=
  fun t =>
    match m (initState t) with
    | (Ok a, s) => (Ok (a, wsInfo s), wsTrace s)
    | (Panic why, s) => (Panic why, wsTrace s)
    end.

(** The two phases of [syncFiles] on the captured variables: [inl] is the
    error of the walk, [inr] the invalid references. *)
Definition syncPhases (cwSettingsIgnoredPathsList : list string)
           (cwRefPathsList : list refPath)
  : M walkState (goError + list (string * option osError)) :=
  let cwCombinedIgnoredPathsList :=
    (cwSettingsIgnoredPathsList ++ map To cwRefPathsList)%list in
  err <- walkLocal cwCombinedIgnoredPathsList ;;
  match err with
  | Some e => ret (inl e)
  | None =>
      errText <- walkRefs cwSettingsIgnoredPathsList cwRefPathsList [] ;;
      ret (inr errText)
  end.

(** [syncFiles] *)
Definition syncFiles : M trace (option SyncInfo * option ProjectError) :=
  cwSettingsIgnoredPathsList <- retrieveIgnoredPathsList ;;
  cwRefPathsList <- retrieveRefPathsList ;;
  '(r, info) <- withClosure (syncPhases cwSettingsIgnoredPathsList cwRefPathsList) ;;
  match r with
  | inl e =>
      let text := ErrWalking projectPath e in
      ret (None, Some {| Op := errOpSync; Err := text; Desc := DescOf text |})
  | inr [] => ret (Some info, None)
  | inr errText =>
      let text := ErrInvalidRefs errText in
      ret (Some info,
           Some {| Op := errOpSyncRef; Err := text; Desc := DescOf text |})
  end.

(** [existsIn] *)
Fixpoint existsIn (value : string) (slice : list string) : bool :=
  match slice with
  | [] => false
  | item :: rest => if String.eqb item value then true else existsIn value rest
  end.

(** [findNewFiles]: every file the remote does not know is handed to
    [syncFile], whose result is dropped, and reported as new. *)
Fixpoint findNewFiles (beforefiles afterfiles : list string)
  : M trace (list string) :=
  match afterfiles with
  | [] => ret []
  | filename :: rest =>
      if negb (existsIn filename beforefiles) then
        let fullPath := filepath.Join projectPath filename in
        syncFile w projectID projectPath fullPath connection conURL ;;;
        newfiles <- findNewFiles beforefiles rest ;;
        ret (filename :: newfiles)
      else findNewFiles beforefiles rest
  end.

(** A field of [*syncInfo]: a nil pointer panics. *)
Definition deref {A : Type} (syncInfo : option SyncInfo) (field : SyncInfo -> A)
  : M trace A :=
  match syncInfo with
  | Some i => ret (field i)
  | None => panic NilDereference
  end.

(** [SyncProject] from "Sync all the necessary project files" on. *)
Definition syncAndComplete (currentSyncTime : Z)
  : M trace (option SyncResponse * option ProjectError) :=
  '(syncInfo, syncErr) <- syncFiles ;;
  BeforeFileList <- getProjectFileList w connection conURL projectID ;;
  syncInfo <-
    match BeforeFileList with
    | inr before =>
        after <- deref syncInfo fileList ;;
        added <- findNewFiles before after ;;
        ret (option_map
               (fun i => fold_left (fun i file => appendModified file i) added i)
               syncInfo)
    | inl _ => ret syncInfo
    end ;;
  fl <- deref syncInfo fileList ;;
  dl <- deref syncInfo directoryList ;;
  ml <- deref syncInfo modifiedList ;;
  let completeRequest :=
    {| FileList := fl; DirectoryList := dl; ModifiedList := ml;
       TimeStamp := currentSyncTime |} in
  '(completeStatus, completeStatusCode) <-
    completeUpload w projectID completeRequest connection conURL ;;
  uploaded <- deref syncInfo UploadedFileList ;;
  ret (Some {| UploadedFiles := uploaded; respStatus := completeStatus;
               respStatusCode := completeStatusCode |},
       syncErr).

End Pass.

(** The flags of the command line ([cli.Context]). *)
Record cliContext : Type := {
  flagPath : string;
  flagID : string;
  flagTime : Z
}.

Section Orchestrator.

Variable w : World.

(** [SyncProject] *)
Definition SyncProject (c : cliContext)
  : M trace (option SyncResponse * option ProjectError) :=
  nanos <- now w ;;
  let currentSyncTime := Z.quot nanos 1000000 in
  let projectPath := GoString.TrimSpace (flagPath c) in
  let projectID := GoString.TrimSpace (flagID c) in
  let synctime := flagTime c in
  match GetConnectionID w projectID with
  | inl projErr => ret (None, Some projErr)
  | inr conID =>
      match connections_GetConnectionByID w conID with
      | inl conInfoErr =>
          ret (None, Some {| Op := errOpConNotFound; Err := extErr conInfoErr;
                             Desc := DescText (extDesc conInfoErr) |})
      | inr connection =>
          match config_PFEOriginFromConnection w connection with
          | inl conURLErr =>
              ret (None, Some {| Op := errOpConNotFound; Err := extErr conURLErr;
                                 Desc := DescText (extDesc conURLErr) |})
          | inr conURL =>
              exists_ <- pathExists w projectPath ;;
              if negb exists_ then
                pi <- getProjectFromID w connection conURL projectID ;;
                match pi with
                | inl err => ret (None, Some err)
                | inr projectInfo =>
                    let newErr := ErrProjectPathDoesNotExist in
                    if negb (String.eqb projectPath (LocationOnDisk projectInfo))
                    then ret (None, Some {| Op := errBadPath; Err := newErr;
                                            Desc := DescOf newErr |})
                    else
                      err <- handleMissingProjectDir w connection conURL projectID ;;
                      match err with
                      | Some e =>
                          ret (None, Some {| Op := errBadPath; Err := asError e;
                                             Desc := DescOf (asError e) |})
                      | None =>
                          ret (None, Some {| Op := errBadPath; Err := newErr;
                                             Desc := DescOf newErr |})
                      end
                end
              else
                syncAndComplete w projectPath projectID conURL synctime
                                connection currentSyncTime
          end
      end
  end.

End Orchestrator.

(* ===================================================================== *)
(** * Removal of a remote installation (pkg/remote/remove.go) *)
(* ===================================================================== *)

(** [RemoveRemote] and the three functions that remove one kind of
    resource. The Kubernetes client is outside the process: every call to
    it is appended to a chronological list of calls, and its answers may
    depend on the calls made before. Errors are kept as their texts. The
    lines written to the log are not part of the model. *)

(** [filepath.Join] of any number of elements: the elements from the first
    non-empty one on, joined with the separator and cleaned. *)
Fixpoint JoinElems (elem : list string) : string :=
  match elem with
  | [] => EmptyString
  | e :: rest =>
      if GoString.isEmpty e then JoinElems rest
      else filepath.Clean (GoString.joinSlash elem)
  end.

Module remote.

Record RemoveDeploymentOptions : Type := {
  Namespace : string;
  WorkspaceID : string
}.

Definition ResourceNotProcessed : Z := 0.

Definition ResourceFound : Z := 1.

Definition ResourceNotFound : Z := 2.

Definition ResourceRemoved : Z := 3.

Definition ResourceSkipped : Z := 4.

Definition ResourceRemoveFailed : Z := 5.

Record RemovalResult : Type := {
  StatusPODGatekeeper : Z;
  StatusPODPFE : Z;
  StatusPODPerformance : Z;
  StatusPODKeycloak : Z;
  StatusServiceGatekeeper : Z;
  StatusServicePFE : Z;
  StatusServicePerformance : Z;
  StatusServiceKeycloak : Z;
  StatusDeploymentGatekeeper : Z;
  StatusDeploymentPFE : Z;
  StatusDeploymentPerformance : Z;
  StatusDeploymentKeycloak : Z;
  StatusSecretsCodewindClient : Z;
  StatusSecretsCodewindSession : Z;
  StatusSecretsCodewindTLS : Z;
  StatusSecretsKeycloakTLS : Z;
  StatusSecretsKeycloakUser : Z;
  StatusServiceAccount : Z;
  ClusterRoleBindings : Z;
  StatusPVCKeycloak : Z
}.

(** [RemInstError] (declared in the package, outside remove.go): the
    operation tag, the error and its text. *)
Record RemInstError : Type := {
  Op : string;
  Err : string;
  Desc : string
}.

(** The kinds of resources remove.go lists and deletes. *)
Inductive resource : Type :=
| Deployments       (* clientset.AppsV1().Deployments(namespace) *)
| Pods              (* clientset.CoreV1().Pods(namespace) *)
| Services.         (* clientset.CoreV1().Services(namespace) *)

(** Calls to the Kubernetes client, in the order they are made. *)
Inductive call : Type :=
| CallBuildConfigFromFlags (masterUrl kubeconfigPath : string)
| CallNewForConfig
| CallGetNamespace (name : string)
| CallList (r : resource) (namespace labelSelector : string)
| CallDelete (r : resource) (namespace name : string).

Definition calls : Type := list call.

Definition Config : Type := string.

Definition Clientset : Type := string.

(** The environment and the cluster. [resources_List] answers with an error
    or with the list (a pointer, possibly nil) of the names of the items
    found. *)
Record Kube : Type := {
  os_Getenv : string -> string;
  clientcmd_BuildConfigFromFlags : string -> string -> string + Config;
  kubernetes_NewForConfig : Config -> string + Clientset;
  Namespaces_Get : Clientset -> calls -> string -> option string;
  resources_List :
    Clientset -> calls -> resource -> string -> string
    -> string + option (list string);
  resources_Delete :
    Clientset -> calls -> resource -> string -> string -> option string
}.

Section Removal.

Variable K : Kube.

(** Constants of the package that are declared outside remove.go. *)
Variables (PFEPrefix PerformancePrefix GatekeeperPrefix : string)
          (errOpNotFound errOpCreateNamespace : string).

Definition buildConfigFromFlags (masterUrl kubeconfigPath : string)
  : M calls (string + Config) :=
  fun t => (Ok (clientcmd_BuildConfigFromFlags K masterUrl kubeconfigPath),
            (t ++ [CallBuildConfigFromFlags masterUrl kubeconfigPath])%list).

Definition newForConfig (config : Config) : M calls (string + Clientset) :=
  fun t => (Ok (kubernetes_NewForConfig K config), (t ++ [CallNewForConfig])%list).

Definition getNamespace (clientset : Clientset) (name : string)
  : M calls (option string) :=
  fun t => (Ok (Namespaces_Get K clientset t name),
            (t ++ [CallGetNamespace name])%list).

Definition listResources (clientset : Clientset) (r : resource)
           (namespace labelSelector : string)
  : M calls (string + option (list string)) :=
  fun t => (Ok (resources_List K clientset t r namespace labelSelector),
            (t ++ [CallList r namespace labelSelector])%list).

Definition deleteNamed (clientset : Clientset) (r : resource)
           (namespace name : string) : M calls (option string) :=
  fun t => (Ok (resources_Delete K clientset t r namespace name),
            (t ++ [CallDelete r namespace name])%list).

(** A field of [*remoteRemovalOptions]: a nil pointer panics. *)
Definition field {A : Type} (remoteRemovalOptions : option RemoveDeploymentOptions)
           (f : RemoveDeploymentOptions -> A) : M calls A :=
  match remoteRemovalOptions with
  | Some o => ret (f o)
  | None => panic NilDereference
  end.

(** [deleteDeployment]; [len(Items) == 1] is a list of one name. The
    title only appears in the log. *)
Definition deleteDeployment (remoteRemovalOptions : option RemoveDeploymentOptions)
           (clientset : Clientset) (labelSelector title : string)
  : M calls (Z * option string) :=
  let phase := ResourceNotProcessed in
  namespace <- field remoteRemovalOptions Namespace ;;
  deploymentList <- listResources clientset Deployments namespace labelSelector ;;
  match deploymentList with
  | inl err => ret (ResourceNotFound, Some err)
  | inr (Some [deploymentName]) =>
      namespace <- field remoteRemovalOptions Namespace ;;
      err <- deleteNamed clientset Deployments namespace deploymentName ;;
      match err with
      | Some e => ret (ResourceRemoveFailed, Some e)
      | None => ret (ResourceRemoved, None)
      end
  | inr _ => ret (phase, None)
  end.

(** [deletePod] *)
Definition deletePod (remoteRemovalOptions : option RemoveDeploymentOptions)
           (clientset : Clientset) (labelSelector title : string)
  : M calls (Z * option string) :=
  let phase := ResourceNotProcessed in
  namespace <- field remoteRemovalOptions Namespace ;;
  podList <- listResources clientset Pods namespace labelSelector ;;
  match podList with
  | inl err => ret (ResourceNotFound, Some err)
  | inr (Some [podName]) =>
      namespace <- field remoteRemovalOptions Namespace ;;
      err <- deleteNamed clientset Pods namespace podName ;;
      match err with
      | Some e => ret (ResourceRemoveFailed, Some e)
      | None => ret (ResourceRemoved, None)
      end
  | inr _ => ret (phase, None)
  end.

(** [deleteService] *)
Definition deleteService (remoteRemovalOptions : option RemoveDeploymentOptions)
           (clientset : Clientset) (labelSelector title : string)
  : M calls (Z * option string) :=
  let phase := ResourceNotProcessed in
  namespace <- field remoteRemovalOptions Namespace ;;
  serviceList <- listResources clientset Services namespace labelSelector ;;
  match serviceList with
  | inl err => ret (ResourceNotFound, Some err)
  | inr (Some [serviceName]) =>
      namespace <- field remoteRemovalOptions Namespace ;;
      err <- deleteNamed clientset Services namespace serviceName ;;
      match err with
      | Some e => ret (ResourceRemoveFailed, Some e)
      | None => ret (ResourceRemoved, None)
      end
  | inr _ => ret (phase, None)
  end.

(** ["app=" + prefix + ",codewindWorkspace=" + remoteRemovalOptions.WorkspaceID] *)
Definition labelSelectorOf (prefix : string)
           (remoteRemovalOptions : option RemoveDeploymentOptions) : M calls string :=
  workspaceID <- field remoteRemovalOptions WorkspaceID ;;
  ret ("app=" ++ prefix ++ ",codewindWorkspace=" ++ workspaceID).

(** [RemoveRemote]. The error each removal returns is assigned and never
    read. The six assignments to fields of [removalStatus] are gathered in
    the record returned at the end. *)
Definition RemoveRemote (remoteRemovalOptions : option RemoveDeploymentOptions)
  : M calls (option RemovalResult * option RemInstError) :=
  namespace <- field remoteRemovalOptions Namespace ;;
  let kubeConfig := JoinElems [os_Getenv K "HOME"; ".kube"; "config"] in
  config <- buildConfigFromFlags EmptyString kubeConfig ;;
  match config with
  | inl err =>
      ret (None, Some {| Op := errOpNotFound; Err := err; Desc := err |})
  | inr config =>
      clientset <- newForConfig config ;;
      match clientset with
      | inl err =>
          ret (None, Some {| Op := errOpNotFound; Err := err; Desc := err |})
      | inr clientset =>
          err <- getNamespace clientset namespace ;;
          match err with
          | Some e =>
              ret (None,
                   Some {| Op := errOpCreateNamespace; Err := e; Desc := e |})
          | None =>
              selector <- labelSelectorOf PFEPrefix remoteRemovalOptions ;;
              '(statusDeploymentPFE, _) <-
                deleteDeployment remoteRemovalOptions clientset selector
                                 "Codewind PFE" ;;
              selector <- labelSelectorOf PerformancePrefix remoteRemovalOptions ;;
              '(statusDeploymentPerformance, _) <-
                deleteDeployment remoteRemovalOptions clientset selector
                                 "Codewind Performance" ;;
              selector <- labelSelectorOf GatekeeperPrefix remoteRemovalOptions ;;
              '(statusDeploymentGatekeeper, _) <-
                deleteDeployment remoteRemovalOptions clientset selector
                                 "Codewind Gatekeeper" ;;
              selector <- labelSelectorOf PFEPrefix remoteRemovalOptions ;;
              '(statusServicePFE, _) <-
                deleteService remoteRemovalOptions clientset selector
                              "Codewind PFE" ;;
              selector <- labelSelectorOf PerformancePrefix remoteRemovalOptions ;;
              '(statusServicePerformance, _) <-
                deleteService remoteRemovalOptions clientset selector
                              "Codewind Performance" ;;
              selector <- labelSelectorOf GatekeeperPrefix remoteRemovalOptions ;;
              '(statusServiceGatekeeper, _) <-
                deleteService remoteRemovalOptions clientset selector
                              "Codewind Gatekeeper" ;;
              ret (Some
                     {| StatusPODGatekeeper := ResourceNotProcessed;
                        StatusPODPFE := ResourceNotProcessed;
                        StatusPODPerformance := ResourceNotProcessed;
                        StatusPODKeycloak := ResourceNotProcessed;
                        StatusServiceGatekeeper := statusServiceGatekeeper;
                        StatusServicePFE := statusServicePFE;
                        StatusServicePerformance := statusServicePerformance;
                        StatusServiceKeycloak := ResourceNotProcessed;
                        StatusDeploymentGatekeeper := statusDeploymentGatekeeper;
                        StatusDeploymentPFE := statusDeploymentPFE;
                        StatusDeploymentPerformance := statusDeploymentPerformance;
                        StatusDeploymentKeycloak := ResourceNotProcessed;
                        StatusSecretsCodewindClient := ResourceNotProcessed;
                        StatusSecretsCodewindSession := ResourceNotProcessed;
                        StatusSecretsCodewindTLS := ResourceNotProcessed;
                        StatusSecretsKeycloakTLS := ResourceNotProcessed;
                        StatusSecretsKeycloakUser := ResourceNotProcessed;
                        StatusServiceAccount := ResourceNotProcessed;
                        ClusterRoleBindings := ResourceNotProcessed;
                        StatusPVCKeycloak := ResourceNotProcessed |},
                   None)
          end
      end
  end.

End Removal.

End remote.

(* ===================================================================== *)
(** * Vocabulary of the properties *)
(* ===================================================================== *)

(* ===================================================================== *)
(** ** Errors of a walk *)
(* ===================================================================== *)
(** The error [walk] reports for an entry before its walk function sees
    it. *)
Definition walkErr (n : fsnode) : option goError :=
  match n with
  | FsUnreadableDir _ _ e | FsLstatErr e => Some (ErrOS e)
  | _ => None
  end.

(* ===================================================================== *)
(** ** What a pass leaves in the trace *)
(* ===================================================================== *)

(** The calls of the walk phases and of [findNewFiles]: the file system
    and the upload of one file. *)
Definition isUploadEvent (e : event) : bool :=
  match e with
  | EvStat _ | EvReadFile _ | EvWalk _ => true
  | EvSend r => match body r with UploadBody _ => true | _ => false end
  | _ => false
  end.

(** A completion manifest given to [sechttp.DispatchHTTPRequest]. *)
Definition isCompletion (e : event) : bool :=
  match e with
  | EvSend r => match body r with CompleteBody _ => true | _ => false end
  | _ => false
  end.

Definition completions (t : trace) : nat := List.length (filter isCompletion t).

(** The trace after [send] was called on [req] at [t]: the request is in it
    when [http.NewRequest] could build it. *)
Definition afterRequest (w : World) (connection : Connection) (t : trace)
           (req : request) : trace :=
  match sechttp_Dispatch w t req connection with
  | RequestError _ => t
  | _ => record t (EvSend req)
  end.

(** [t'] continues [t] with calls of the walk and upload kind only. *)
Definition continues (t t' : trace) : Prop :=
  exists evs, t' = (t ++ evs)%list /\ Forall (fun e => isUploadEvent e = true) evs.

(* ===================================================================== *)
(** ** Uploads in closed form *)
(* ===================================================================== *)
Section UploadTerms.

Variable w : World.

Variables (projectPath projectID conURL : string) (connection : Connection).

(** The request [syncFile] builds for a file. *)
Definition uploadRequest (relativePath : string) (fileStat : FileInfo)
           (fileContent : string) : request :=
  {| method := "PUT";
     url := conURL ++ "/api/v1/projects/" ++ projectID ++ "/upload";
     body := UploadBody {| IsDirectory := IsDir fileStat; Mode := Perm fileStat;
                           RelativePath := filepath.ToSlash relativePath;
                           Message := Base64Zlib fileContent |} |}.

(** [syncFile] in closed form: its outcome and trace, case by case. *)
Definition syncFileCases (path : string) (t : trace) : outcome UploadedFile * trace :=
  match GoString.sliceFrom path (String.length projectPath + 1) with
  | None => (Panic SliceBoundsOutOfRange, t)
  | Some rel =>
      let failed := failedUpload (filepath.ToSlash rel) in
      let t1 := record t (EvStat path) in
      match os_Stat w path with
      | StatErr _ => (Ok failed, t1)
      | StatOk fi =>
          let t2 := record t1 (EvReadFile path) in
          match ioutil_ReadFile w path with
          | None => (Ok failed, t2)
          | Some content =>
              let req := uploadRequest rel fi content in
              let t3 := record t2 (EvSend req) in
              match sechttp_Dispatch w t2 req connection with
              | RequestError _ => (Panic NilDereference, t2)
              | TransportError _ => (Ok failed, t3)
              | Response status code =>
                  (Ok {| FilePath := filepath.ToSlash rel; Status := status;
                         StatusCode := code |}, t3)
              end
          end
      end
  end.

(** What an upload that returns leaves in the trace: the file system was
    asked for the file and, when the file could be read, the request that
    carries it was dispatched. *)
Definition uploadAttempt (path : string) (evs : trace) : Prop :=
  In (EvStat path) evs /\
  forall fi content rel,
    os_Stat w path = StatOk fi -> ioutil_ReadFile w path = Some content ->
    GoString.sliceFrom path (String.length projectPath + 1) = Some rel ->
    In (EvSend (uploadRequest rel fi content)) evs.


End UploadTerms.

(* ===================================================================== *)
(** ** The walker in closed form and its invariants *)
(* ===================================================================== *)
Section WalkerTerms.

Variable w : World.

Variables (projectPath projectID conURL : string) (connection : Connection).

Definition setInfo (s : walkState) (i : SyncInfo) : walkState :=
  {| wsInfo := i; refPathsChanged := refPathsChanged s; wsTrace := wsTrace s |}.

(** The state after the walker recorded a modified file and its upload. *)
Definition afterUpload (s : walkState) (rel : string) (u : UploadedFile)
           (t : trace) : walkState :=
  {| wsInfo := appendModified rel (appendUploaded u (appendFile rel (wsInfo s)));
     refPathsChanged :=
       if String.eqb rel refPathsFile then true else refPathsChanged s;
     wsTrace := t |}.

(** The walker in closed form, for an entry reported without error. *)
Definition walkerCases (path : string) (info : walkerInfo) (s : walkState)
  : outcome (option goError) * walkState :=
  if String.eqb path projectPath then (Ok None, s)
  else
    match GoString.sliceFrom path (String.length projectPath + 1) with
    | None => (Panic SliceBoundsOutOfRange, s)
    | Some rel =>
        match fileInfo info with
        | None => (Panic NilDereference, s)
        | Some fi =>
            if IsDir fi then
              if ignoreFileOrDirectory rel true (IgnoredPaths info)
              then (Ok (Some SkipDir), s)
              else (Ok None, setInfo s (appendDirectory rel (wsInfo s)))
            else if ignoreFileOrDirectory rel false (IgnoredPaths info)
            then (Ok None, s)
            else
              let s1 := setInfo s (appendFile rel (wsInfo s)) in
              if Z.gtb (millis (ModTime fi)) (LastSync info) then
                match syncFile w projectID projectPath (Path info)
                               connection conURL (wsTrace s) with
                | (Ok u, t) => (Ok None, afterUpload s rel u t)
                | (Panic why, t) =>
                    (Panic why, {| wsInfo := wsInfo s1;
                                   refPathsChanged := refPathsChanged s;
                                   wsTrace := t |})
                end
              else (Ok None, s1)
        end
    end.

(** *** The captured variables only grow *)
Definition prefixOf {A : Type} (l l' : list A) : Prop :=
  exists r, l' = (l ++ r)%list.

Record grows (s s' : walkState) : Prop := {
  grows_files : prefixOf (fileList (wsInfo s)) (fileList (wsInfo s'));
  grows_dirs : prefixOf (directoryList (wsInfo s)) (directoryList (wsInfo s'));
  grows_modified : prefixOf (modifiedList (wsInfo s)) (modifiedList (wsInfo s'));
  grows_uploaded :
    prefixOf (UploadedFileList (wsInfo s)) (UploadedFileList (wsInfo s'));
  grows_flag : refPathsChanged s = true -> refPathsChanged s' = true;
  grows_trace : continues (wsTrace s) (wsTrace s')
}.

(** *** The flag tells whether the rule file is in the modified list *)
Definition flagTracksRuleFile (s : walkState) : Prop :=
  refPathsChanged s = true <-> In refPathsFile (modifiedList (wsInfo s)).

(** *** Nothing ignored is recorded *)
Definition noneIgnored (ignored : list string) (s : walkState) : Prop :=
  Forall (fun p => ignoreFileOrDirectory p false ignored = false)
         (fileList (wsInfo s)) /\
  Forall (fun p => ignoreFileOrDirectory p true ignored = false)
         (directoryList (wsInfo s)).

(** *** Files that are not newer than the cutoff leave no mark *)
Definition quiet (s : walkState) : Prop :=
  modifiedList (wsInfo s) = [] /\ UploadedFileList (wsInfo s) = [] /\
  refPathsChanged s = false.

End WalkerTerms.

(* ===================================================================== *)
(** ** The two walk phases in closed form *)
(* ===================================================================== *)
Section PhaseTerms.

Variable w : World.

Variables (projectPath projectID conURL : string) (synctime : Z)
          (connection : Connection).

(** The walk function [syncFiles] hands to [filepath.Walk]. *)
Definition localWalkFn (ignored : list string) (path : string)
           (info : option FileInfo) (err : option goError)
  : M walkState (option goError) :=
  walker w projectPath projectID conURL connection path
         {| Path := path; fileInfo := info; IgnoredPaths := ignored;
            LastSync := synctime |} err.

Definition logWalk (s : walkState) : walkState :=
  {| wsInfo := wsInfo s; refPathsChanged := refPathsChanged s;
     wsTrace := record (wsTrace s) (EvWalk projectPath) |}.

(** No file of the tree is newer than the cutoff. *)
Fixpoint noneNewer (cutoff : Z) (n : fsnode) : Prop :=
  match n with
  | FsFile mt _ => (millis mt <= cutoff)%Z
  | FsDir _ _ entries =>
      (fix all (l : list (string * fsnode)) : Prop :=
         match l with
         | [] => True
         | p :: r => noneNewer cutoff (snd p) /\ all r
         end) entries
  | _ => True
  end.

(** *** The reference walks *)
Definition logStat (s : walkState) (path : string) : walkState :=
  {| wsInfo := wsInfo s; refPathsChanged := refPathsChanged s;
     wsTrace := record (wsTrace s) (EvStat path) |}.

(** The cutoff of a reference walk. *)
Definition refCutoff (s : walkState) : Z :=
  if refPathsChanged s then 0%Z else synctime.

Definition refInfo (base : list string) (r : refPath) (fi : FileInfo)
           (lastSync : Z) : walkerInfo :=
  {| Path := resolveFrom projectPath r; fileInfo := Some fi;
     IgnoredPaths := base; LastSync := lastSync |}.

(** No valid reference points to a file newer than the cutoff. *)
Definition refsNotNewer (refs : list refPath) : Prop :=
  forall r fi, In r refs -> os_Stat w (resolveFrom projectPath r) = StatOk fi ->
               (millis (ModTime fi) <= synctime)%Z.

End PhaseTerms.

(* ===================================================================== *)
(** ** The pass in closed form *)
(* ===================================================================== *)
Section OrchestratorTerms.

Variable w : World.

Variables (projectPath projectID conURL : string) (synctime : Z)
          (connection : Connection).

(** What a rule file holds, as the two [retrieve] functions read it. *)
Definition rulesOnDisk {A : Type} (path : string)
           (decode : string -> option (list A)) : list A :=
  if negb (isNotExist (os_Stat w path)) then
    match ioutil_ReadFile w path with
    | Some text => match decode text with Some l => l | None => [] end
    | None => []
    end
  else [].

Definition ignoredPathsOnDisk : list string :=
  rulesOnDisk (filepath.Join projectPath ".cw-settings") (json_CWSettings w).

Definition refPathsOnDisk : list refPath :=
  rulesOnDisk (filepath.Join projectPath ".cw-refpaths.json") (json_refPaths w).

(** The walk error a pass meets, the invalid references it skips, or
    neither. *)
Definition resultOfPhases (r : goError + list (string * option osError))
           (info : SyncInfo) : option SyncInfo * option ProjectError :=
  match r with
  | inl e =>
      (None, Some {| Op := errOpSync; Err := ErrWalking projectPath e;
                     Desc := DescOf (ErrWalking projectPath e) |})
  | inr [] => (Some info, None)
  | inr errText =>
      (Some info, Some {| Op := errOpSyncRef; Err := ErrInvalidRefs errText;
                          Desc := DescOf (ErrInvalidRefs errText) |})
  end.

(** The files the remote does not know. *)
Definition unknownTo (beforefiles afterfiles : list string) : list string :=
  filter (fun f => negb (existsIn f beforefiles)) afterfiles.

(** The request [completeUpload] builds. *)
Definition completionRequest (completeRequest : CompleteRequest) : request :=
  {| method := "POST";
     url := conURL ++ "/api/v1/projects/" ++ projectID ++ "/upload/end";
     body := CompleteBody completeRequest |}.


Definition statusOf (r : httpResult) : string * Z :=
  match r with
  | RequestError e => (e, 0%Z)
  | TransportError desc => (desc, 0%Z)
  | Response status code => (status, code)
  end.

(** The reconciliation step of [SyncProject]: the remote's list is asked
    for; when it arrives, the unknown files are handed to [findNewFiles]. *)
Definition reconcile (after : list string) (t : trace)
  : outcome (list string) * trace :=
  let t1 := record t (EvGetFileList conURL projectID) in
  match GetProjectFileList w t connection conURL projectID with
  | inr before =>
      findNewFiles w projectPath projectID conURL connection before after t1
  | inl _ => (Ok [], t1)
  end.

Definition manifest (info : SyncInfo) (added : list string) (stamp : Z)
  : CompleteRequest :=
  {| FileList := fileList info; DirectoryList := directoryList info;
     ModifiedList := (modifiedList info ++ added)%list; TimeStamp := stamp |}.

End OrchestratorTerms.

(* ===================================================================== *)
(** ** Scenarios *)
(* ===================================================================== *)
Module Scenario.

Definition lookup {A : Type} (k : string) (l : list (string * A)) : option A :=
  match find (fun p => String.eqb (fst p) k) l with
  | Some p => Some (snd p)
  | None => None
  end.

Definition noEntry : osError :=
  {| osMsg := "no such file or directory"; osNotExist := true |}.

Definition denied : osError :=
  {| osMsg := "permission denied"; osNotExist := false |}.

(** Milliseconds as the nanoseconds [ModTime] reports. *)
Definition ms (z : Z) : Z := (z * 1000000)%Z.

(** A readable regular file last modified at [mt] milliseconds. *)
Definition fileAt (mt : Z) (content : string) : FileInfo * option string :=
  ({| IsDir := false; ModTime := ms mt; Perm := 420 |}, Some content).

(** A project at "/proj" of connection "local", served at "http://pfe".
    [files] is what [os.Stat] and [ioutil.ReadFile] find, [tree] what the
    walk of "/proj" finds; the rule files, when present, hold [ignored]
    and [refs]. *)
Record setup : Type := {
  tree : fsnode;
  files : list (string * (FileInfo * option string));
  ignored : list string;
  refs : list refPath;
  projectDirExists : bool;
  recordedLocation : string;
  remoteFiles : trace -> goError + list string;
  transport : trace -> request -> httpResult
}.

Definition world (u : setup) : World :=
  {| time_Now := fun _ => ms 5000;
     os_Stat := fun p =>
       match lookup p (files u) with
       | Some (fi, _) => StatOk fi
       | None => StatErr noEntry
       end;
     ioutil_ReadFile := fun p =>
       match lookup p (files u) with
       | Some (_, c) => c
       | None => None
       end;
     walkRoot := fun p => if String.eqb p "/proj" then tree u else FsLstatErr noEntry;
     utils_PathExists := fun _ => projectDirExists u;
     json_CWSettings := fun text =>
       if String.eqb text "settings" then Some (ignored u) else None;
     json_refPaths := fun text =>
       if String.eqb text "refpaths" then Some (refs u) else None;
     GetConnectionID := fun _ => inr "local";
     connections_GetConnectionByID := fun _ => inr "local";
     config_PFEOriginFromConnection := fun _ => inr "http://pfe";
     GetProjectFromID := fun _ _ _ _ =>
       inr {| LocationOnDisk := recordedLocation u |};
     GetProjectFileList := fun t _ _ _ => remoteFiles u t;
     sechttp_Dispatch := fun t r _ => transport u t r |}.

Definition allOK (t : trace) (r : request) : httpResult := Response "200 OK" 200.

(** The command line: project "/proj", id "p1", cutoff 50 ms. *)
Definition cli : cliContext :=
  {| flagPath := "/proj"; flagID := "p1"; flagTime := 50 |}.

Definition dir (entries : list (string * fsnode)) : fsnode := FsDir 0 493 entries.

Definition file (mt : Z) : fsnode := FsFile (ms mt) 420.

(** The manifests dispatched during a trace. *)
Fixpoint manifests (t : trace) : list CompleteRequest :=
  match t with
  | [] => []
  | EvSend {| body := CompleteBody req |} :: rest => req :: manifests rest
  | _ :: rest => manifests rest
  end.

(** Scenario A of the specification: an old and a new file. *)
Definition twoFiles : setup :=
  {| tree := dir [("a.txt", file 10); ("b.txt", file 100)];
     files := [("/proj/a.txt", fileAt 10 "a"); ("/proj/b.txt", fileAt 100 "b")];
     ignored := []; refs := [];
     projectDirExists := true; recordedLocation := "/proj";
     remoteFiles := fun _ => inr ["a.txt"; "b.txt"];
     transport := allOK |}.

(** A directory that cannot be read. *)
Definition unreadable : setup :=
  {| tree := dir [("a.txt", file 10); ("secret", FsUnreadableDir 0 0 denied)];
     files := [("/proj/a.txt", fileAt 10 "a")];
     ignored := []; refs := [];
     projectDirExists := true; recordedLocation := "/proj";
     remoteFiles := fun _ => inr ["a.txt"];
     transport := allOK |}.

(** An old file the remote has never seen. *)
Definition imported : setup :=
  {| tree := dir [("a.txt", file 10); ("old.txt", file 20)];
     files := [("/proj/a.txt", fileAt 10 "a"); ("/proj/old.txt", fileAt 20 "o")];
     ignored := []; refs := [];
     projectDirExists := true; recordedLocation := "/proj";
     remoteFiles := fun _ => inr ["a.txt"];
     transport := allOK |}.


(** Scenario E: the upload of "c.txt" fails in the transport. *)
Definition failingUpload : setup :=
  {| tree := dir [("c.txt", file 100); ("d.txt", file 100)];
     files := [("/proj/c.txt", fileAt 100 "c"); ("/proj/d.txt", fileAt 100 "d")];
     ignored := []; refs := [];
     projectDirExists := true; recordedLocation := "/proj";
     remoteFiles := fun _ => inr ["c.txt"; "d.txt"];
     transport := fun _ r =>
       match body r with
       | UploadBody m =>
           if String.eqb (RelativePath m) "c.txt"
           then TransportError "connection reset" else Response "200 OK" 200
       | _ => Response "200 OK" 200
       end |}.

Definition ruleFiles : list (string * (FileInfo * option string)) :=
  [("/proj/.cw-settings", fileAt 10 "settings");
   ("/proj/.cw-refpaths.json", fileAt 10 "refpaths")].

(** Scenario C with a physical file at the target of the reference. *)
Definition shadowed : setup :=
  {| tree := dir [(".cw-refpaths.json", file 10); (".cw-settings", file 10);
                  ("lib", dir [("lib.js", file 10)])];
     files := (ruleFiles ++ [("/proj/lib/lib.js", fileAt 10 "p");
                             ("/tmp/shared/lib.js", fileAt 100 "s")])%list;
     ignored := [];
     refs := [{| From := "/tmp/shared/lib.js"; To := "lib/lib.js" |}];
     projectDirExists := true; recordedLocation := "/proj";
     remoteFiles := fun _ => inr [];
     transport := allOK |}.

(** The rule file was touched; the referenced file dates from [mt]. *)
Definition touchedRules (mt : Z) : setup :=
  {| tree := dir [(".cw-refpaths.json", file 100)];
     files := [("/proj/.cw-refpaths.json", fileAt 100 "refpaths");
               ("/tmp/shared/lib.js", fileAt mt "s")];
     ignored := [];
     refs := [{| From := "/tmp/shared/lib.js"; To := "lib/lib.js" |}];
     projectDirExists := true; recordedLocation := "/proj";
     remoteFiles := fun _ => inr [".cw-refpaths.json"; "lib/lib.js"];
     transport := allOK |}.

(** Scenario B: an ignored build directory. *)
Definition ignoredBuild : setup :=
  {| tree := dir [(".cw-settings", file 10); ("a.txt", file 10);
                  ("build", dir [("out.bin", file 100);
                                 ("obj", dir [("x.o", file 100)])]);
                  ("z.txt", file 100)];
     files := [("/proj/.cw-settings", fileAt 10 "settings");
               ("/proj/a.txt", fileAt 10 "a"); ("/proj/z.txt", fileAt 100 "z");
               ("/proj/build/out.bin", fileAt 100 "o");
               ("/proj/build/obj/x.o", fileAt 100 "x")];
     ignored := ["build"]; refs := [];
     projectDirExists := true; recordedLocation := "/proj";
     remoteFiles := fun _ => inr [".cw-settings"; "a.txt"; "z.txt"];
     transport := allOK |}.

(** Scenario D: the project directory is gone. *)
Definition missingDir (recorded : string) : setup :=
  {| tree := FsLstatErr noEntry; files := [];
     ignored := []; refs := [];
     projectDirExists := false; recordedLocation := recorded;
     remoteFiles := fun _ => inr [];
     transport := allOK |}.

End Scenario.

(* ===================================================================== *)
(** ** Uploads that fail *)
(* ===================================================================== *)
Section FailureTerms.

Variable w : World.

Variables (projectPath projectID conURL : string) (synctime : Z)
          (connection : Connection).


End FailureTerms.

(* ===================================================================== *)
(** ** Resolved connections and time stamps *)
(* ===================================================================== *)

(** The connection of the project resolves to [connection] at [conURL]. *)
Definition resolved (w : World) (c : cliContext) (connection : Connection)
           (conURL : string) : Prop :=
  (exists conID,
      GetConnectionID w (GoString.TrimSpace (flagID c)) = inr conID /\
      connections_GetConnectionByID w conID = inr connection) /\
  config_PFEOriginFromConnection w connection = inr conURL.

(** The time stamp of a pass that starts after [t]. *)
Definition stampAt (w : World) (t : trace) : Z := Z.quot (time_Now w t) 1000000.


(* ===================================================================== *)
(** ** Walking the entries of a directory *)
(* ===================================================================== *)

(** The entries of a directory, walked in order. *)
Fixpoint walkEntries {S : Type}
         (walkFn : string -> option FileInfo -> option goError -> M S (option goError))
         (path : string) (names : list (string * fsnode)) : M S (option goError) :=
  match names with
  | [] => ret None
  | (name, child) :: rest =>
      let filename := filepath.Join path name in
      err <- walk walkFn filename child ;;
      match err with
      | None => walkEntries walkFn path rest
      | Some e =>
          match child with
          | FsLstatErr _ =>
              if isSkipDir e then walkEntries walkFn path rest else ret (Some e)
          | _ =>
              if negb (isDirNode child) || negb (isSkipDir e)
              then ret (Some e)
              else walkEntries walkFn path rest
          end
      end
  end.

(* ===================================================================== *)
(** ** Pruned trees *)
(* ===================================================================== *)
Section PruneTerms.

Variable w : World.

Variables (projectPath projectID conURL : string) (synctime : Z)
          (connection : Connection).

Variable ignored : list string.



End PruneTerms.

(* ===================================================================== *)
(** ** Recorded references *)
(* ===================================================================== *)
Section ReferenceTerms.

Variable w : World.

Variables (projectPath projectID conURL : string) (synctime : Z)
          (connection : Connection).

(** A reference the second phase records: its [from] is a file, its [to]
    lies below the project as [rel], and no base rule ignores [rel]. *)
Definition recordedRef (base : list string) (r : refPath) (fi : FileInfo)
           (rel : string) : Prop :=
  os_Stat w (resolveFrom projectPath r) = StatOk fi /\
  IsDir fi = false /\
  String.eqb (filepath.Join projectPath (To r)) projectPath = false /\
  GoString.sliceFrom (filepath.Join projectPath (To r))
                     (String.length projectPath + 1) = Some rel /\
  ignoreFileOrDirectory rel false base = false.

(** [u] is the outcome of an upload of the file at [path]. *)
Definition outcomeOfUpload (path : string) (u : UploadedFile) : Prop :=
  exists t0 t1,
    syncFile w projectID projectPath path connection conURL t0 = (Ok u, t1).

End ReferenceTerms.

(** The second pass of scenario A, with the time stamp of the first pass
    (5000 ms) as its cutoff. *)
Definition cliAfterFirstPass : cliContext :=
  {| flagPath := "/proj"; flagID := "p1"; flagTime := 5000 |}.

(* ===================================================================== *)
(** ** Removals in closed form *)
(* ===================================================================== *)
Section RemovalTerms.

Import remote.

Variable K : Kube.

Variables (PFEPrefix PerformancePrefix GatekeeperPrefix : string).

(** The function that removes the resources of a kind. *)
Definition deleteOf (r : resource)
  : option RemoveDeploymentOptions -> Clientset -> string -> string
    -> M calls (Z * option string) :=
  match r with
  | Deployments => deleteDeployment K
  | Pods => deletePod K
  | Services => deleteService K
  end.

(** What one removal answers and the calls it has made when it returns. *)
Definition removal (r : resource) (o : RemoveDeploymentOptions)
           (clientset : Clientset) (labelSelector : string) (t : calls)
  : (Z * option string) * calls :=
  let t1 := (t ++ [CallList r (Namespace o) labelSelector])%list in
  match resources_List K clientset t r (Namespace o) labelSelector with
  | inl err => ((ResourceNotFound, Some err), t1)
  | inr (Some [name]) =>
      let t2 := (t1 ++ [CallDelete r (Namespace o) name])%list in
      match resources_Delete K clientset t1 r (Namespace o) name with
      | Some e => ((ResourceRemoveFailed, Some e), t2)
      | None => ((ResourceRemoved, None), t2)
      end
  | inr _ => ((ResourceNotProcessed, None), t1)
  end.

(** Removals one after the other: their statuses and the calls made. *)
Fixpoint removals (plan : list (resource * string)) (o : RemoveDeploymentOptions)
         (clientset : Clientset) (t : calls) : list Z * calls :=
  match plan with
  | [] => ([], t)
  | (r, labelSelector) :: rest =>
      let '((status, _), t1) := removal r o clientset labelSelector t in
      let '(statuses, t2) := removals rest o clientset t1 in
      (status :: statuses, t2)
  end.

Definition selectorOf (prefix workspaceID : string) : string :=
  "app=" ++ prefix ++ ",codewindWorkspace=" ++ workspaceID.

(** What [RemoveRemote] removes, in order. *)
Definition removalPlan (workspaceID : string) : list (resource * string) :=
  [(Deployments, selectorOf PFEPrefix workspaceID);
   (Deployments, selectorOf PerformancePrefix workspaceID);
   (Deployments, selectorOf GatekeeperPrefix workspaceID);
   (Services, selectorOf PFEPrefix workspaceID);
   (Services, selectorOf PerformancePrefix workspaceID);
   (Services, selectorOf GatekeeperPrefix workspaceID)].

(** The calls that look at the resources of the cluster or delete them. *)
Definition isResourceCall (c : call) : bool :=
  match c with
  | CallList _ _ _ | CallDelete _ _ _ => true
  | _ => false
  end.

Definition isListCall (c : call) : bool :=
  match c with
  | CallList _ _ _ => true
  | _ => false
  end.

(** The calls [RemoveRemote] makes before it removes anything. *)
Definition preamble (o : RemoveDeploymentOptions) : calls :=
  [CallBuildConfigFromFlags EmptyString
     (JoinElems [os_Getenv K "HOME"; ".kube"; "config"]);
   CallNewForConfig;
   CallGetNamespace (Namespace o)].

(** The cluster can be reached with the configuration of the user and
    holds the namespace of the options, when asked after [t]. *)
Definition namespaceFound (o : RemoveDeploymentOptions) (clientset : Clientset)
           (t : calls) : Prop :=
  exists config,
    clientcmd_BuildConfigFromFlags K EmptyString
      (JoinElems [os_Getenv K "HOME"; ".kube"; "config"]) = inr config /\
    kubernetes_NewForConfig K config = inr clientset /\
    Namespaces_Get K clientset
      (t ++ [CallBuildConfigFromFlags EmptyString
               (JoinElems [os_Getenv K "HOME"; ".kube"; "config"]);
             CallNewForConfig])%list (Namespace o) = None.

(** The fields of a result that [RemoveRemote] never assigns. *)
Definition unassigned (r : RemovalResult) : list Z :=
  [StatusPODGatekeeper r; StatusPODPFE r; StatusPODPerformance r;
   StatusPODKeycloak r; StatusServiceKeycloak r; StatusDeploymentKeycloak r;
   StatusSecretsCodewindClient r; StatusSecretsCodewindSession r;
   StatusSecretsCodewindTLS r; StatusSecretsKeycloakTLS r;
   StatusSecretsKeycloakUser r; StatusServiceAccount r; ClusterRoleBindings r;
   StatusPVCKeycloak r].

(** The result with the statuses of the plan, in its order. *)
Definition resultOf (statuses : list Z) : RemovalResult :=
  {| StatusPODGatekeeper := ResourceNotProcessed;
     StatusPODPFE := ResourceNotProcessed;
     StatusPODPerformance := ResourceNotProcessed;
     StatusPODKeycloak := ResourceNotProcessed;
     StatusServiceGatekeeper := nth 5 statuses ResourceNotProcessed;
     StatusServicePFE := nth 3 statuses ResourceNotProcessed;
     StatusServicePerformance := nth 4 statuses ResourceNotProcessed;
     StatusServiceKeycloak := ResourceNotProcessed;
     StatusDeploymentGatekeeper := nth 2 statuses ResourceNotProcessed;
     StatusDeploymentPFE := nth 0 statuses ResourceNotProcessed;
     StatusDeploymentPerformance := nth 1 statuses ResourceNotProcessed;
     StatusDeploymentKeycloak := ResourceNotProcessed;
     StatusSecretsCodewindClient := ResourceNotProcessed;
     StatusSecretsCodewindSession := ResourceNotProcessed;
     StatusSecretsCodewindTLS := ResourceNotProcessed;
     StatusSecretsKeycloakTLS := ResourceNotProcessed;
     StatusSecretsKeycloakUser := ResourceNotProcessed;
     StatusServiceAccount := ResourceNotProcessed;
     ClusterRoleBindings := ResourceNotProcessed;
     StatusPVCKeycloak := ResourceNotProcessed |}.

(** The fields it assigns, in the order of the plan. *)
Definition assigned (r : RemovalResult) : list Z :=
  [StatusDeploymentPFE r; StatusDeploymentPerformance r;
   StatusDeploymentGatekeeper r; StatusServicePFE r;
   StatusServicePerformance r; StatusServiceGatekeeper r].

End RemovalTerms.

(** A cluster for the examples: the user's home is "/home/dev"; the
    namespace "codewind" exists; every selector finds what [found] gives
    for it, and every deletion answers with [deletion]. *)
Definition exampleKube (found : string -> string + option (list string))
           (deletion : string -> option string) : remote.Kube :=
  {| remote.os_Getenv := fun name =>
       if String.eqb name "HOME" then "/home/dev" else EmptyString;
     remote.clientcmd_BuildConfigFromFlags := fun _ path =>
       if String.eqb path "/home/dev/.kube/config" then inr "config"
       else inl "no configuration";
     remote.kubernetes_NewForConfig := fun _ => inr "clientset";
     remote.Namespaces_Get := fun _ _ name =>
       if String.eqb name "codewind" then None else Some "namespace not found";
     remote.resources_List := fun _ _ _ _ selector => found selector;
     remote.resources_Delete := fun _ _ _ _ name => deletion name |}.

Definition exampleOptions : remote.RemoveDeploymentOptions :=
  {| remote.Namespace := "codewind"; remote.WorkspaceID := "k1" |}.

(** One deployment and one service of PFE, two deployments of the
    performance dashboard, nothing of the gatekeeper. *)
Definition exampleFound (selector : string) : string + option (list string) :=
  if String.eqb selector "app=pfe,codewindWorkspace=k1" then inr (Some ["pfe-k1"])
  else if String.eqb selector "app=perf,codewindWorkspace=k1"
       then inr (Some ["perf-a"; "perf-b"])
       else inr (Some []).

(* ===================================================================== *)
(** ** The steps of the walker and what they keep *)
(* ===================================================================== *)

(** What one call of the walker does to the captured variables: nothing;
    a directory recorded; a file recorded; a file recorded, uploaded and
    marked as modified; or a file recorded and a panic during its upload.
    [C] relates the trace before an upload to the trace after it. *)
Inductive walkerStep (C : trace -> trace -> Prop) (s : walkState)
  : walkState -> Prop :=
| StepNothing : walkerStep C s s
| StepDirectory (rel : string) :
    walkerStep C s (setInfo s (appendDirectory rel (wsInfo s)))
| StepFile (rel : string) :
    walkerStep C s (setInfo s (appendFile rel (wsInfo s)))
| StepUpload (rel : string) (u : UploadedFile) (t : trace) :
    C (wsTrace s) t -> walkerStep C s (afterUpload s rel u t)
| StepPanic (rel : string) (t : trace) :
    C (wsTrace s) t ->
    walkerStep C s {| wsInfo := appendFile rel (wsInfo s);
                      refPathsChanged := refPathsChanged s; wsTrace := t |}.

(** Every modified file is a file of the file list, and there is one
    upload outcome for each. *)
Definition tidy (i : SyncInfo) : Prop :=
  incl (modifiedList i) (fileList i) /\
  List.length (UploadedFileList i) = List.length (modifiedList i).

(** The references [syncFiles] reports as invalid: those whose [from]
    cannot be examined, with the error, and those whose [from] is a
    directory. *)
Fixpoint invalidRefs (w : World) (projectPath : string) (refs : list refPath)
  : list (string * option osError) :=
  match refs with
  | [] => []
  | r :: rest =>
      match os_Stat w (resolveFrom projectPath r) with
      | StatErr e =>
          (resolveFrom projectPath r, Some e) :: invalidRefs w projectPath rest
      | StatOk fi =>
          if IsDir fi
          then (resolveFrom projectPath r, None) :: invalidRefs w projectPath rest
          else invalidRefs w projectPath rest
      end
  end.

(* ===================================================================== *)
(** ** Plain rules *)
(* ===================================================================== *)

(** A character that means itself in a pattern and is no separator. *)
Definition plainChar (c : ascii) : bool :=
  negb (Ascii.eqb c "*" || Ascii.eqb c "?" || Ascii.eqb c "[" || Ascii.eqb c "\"
        || Ascii.eqb c "/").

Fixpoint plainChars (s : string) : bool :=
  match s with
  | EmptyString => true
  | String c r => plainChar c && plainChars r
  end.

(** A rule that is the name of one path element: not empty, not "." or
    "..", and made of plain characters. *)
Definition plainName (s : string) : bool :=
  plainChars s && negb (GoString.isEmpty s) && negb (String.eqb s ".")
  && negb (String.eqb s "..").

(* ===================================================================== *)
(** ** The calls of a pass *)
(* ===================================================================== *)

(** The requests a pass makes for a project: the upload of a file, the
    completion of the pass, and the notification of a missing directory. *)
Definition projectRequest (conURL projectID : string) (r : request) : Prop :=
  (method r = "PUT" /\
   url r = conURL ++ "/api/v1/projects/" ++ projectID ++ "/upload" /\
   exists msg, body r = UploadBody msg) \/
  (method r = "POST" /\
   url r = conURL ++ "/api/v1/projects/" ++ projectID ++ "/upload/end" /\
   exists creq, body r = CompleteBody creq) \/
  (method r = "POST" /\
   url r = conURL ++ "/api/v1/projects/" ++ projectID ++ "/missingLocalDir" /\
   body r = NoBody).

(** A call that, when it goes to the remote, is about the project. *)
Definition projectCall (conURL projectID : string) (e : event) : Prop :=
  match e with
  | EvSend r => projectRequest conURL projectID r
  | EvGetProject u i | EvGetFileList u i => u = conURL /\ i = projectID
  | _ => True
  end.

Definition onlyProjectCalls (conURL projectID : string) (t t' : trace) : Prop :=
  exists evs, t' = (t ++ evs)%list /\ Forall (projectCall conURL projectID) evs.

(* ===================================================================== *)
(** ** Prefixes of strings *)
(* ===================================================================== *)

(** What is left of [s] after the prefix [p], when [s] starts with [p]. *)
Fixpoint afterPrefix (p s : string) : option string :=
  match p with
  | EmptyString => Some s
  | String c p' =>
      match s with
      | String d s' => if Ascii.eqb c d then afterPrefix p' s' else None
      | EmptyString => None
      end
  end.

(* ===================================================================== *)
(** ** More worlds for the examples *)
(* ===================================================================== *)

Definition unknownProject : ProjectError :=
  {| Op := errOpOther "proj_not_found"; Err := ErrExternal "unknown project";
     Desc := DescText "unknown project" |}.

(** The world [w] when the project has no connection. *)
Definition withoutConnection (w : World) : World :=
  {| time_Now := time_Now w; os_Stat := os_Stat w;
     ioutil_ReadFile := ioutil_ReadFile w; walkRoot := walkRoot w;
     utils_PathExists := utils_PathExists w;
     json_CWSettings := json_CWSettings w; json_refPaths := json_refPaths w;
     GetConnectionID := fun _ => inl unknownProject;
     connections_GetConnectionByID := connections_GetConnectionByID w;
     config_PFEOriginFromConnection := config_PFEOriginFromConnection w;
     GetProjectFromID := GetProjectFromID w;
     GetProjectFileList := GetProjectFileList w;
     sechttp_Dispatch := sechttp_Dispatch w |}.

(** The world [w] when the remote does not know the project. *)
Definition withoutProjectRecord (w : World) : World :=
  {| time_Now := time_Now w; os_Stat := os_Stat w;
     ioutil_ReadFile := ioutil_ReadFile w; walkRoot := walkRoot w;
     utils_PathExists := utils_PathExists w;
     json_CWSettings := json_CWSettings w; json_refPaths := json_refPaths w;
     GetConnectionID := GetConnectionID w;
     connections_GetConnectionByID := connections_GetConnectionByID w;
     config_PFEOriginFromConnection := config_PFEOriginFromConnection w;
     GetProjectFromID := fun _ _ _ _ => inl unknownProject;
     GetProjectFileList := GetProjectFileList w;
     sechttp_Dispatch := sechttp_Dispatch w |}.

Section MoreScenarios.

Import Scenario.

(** A project with two references: the file of the first is gone, the
    second points to a directory. *)
Definition brokenReferences : setup :=
  {| tree := dir [(".cw-refpaths.json", file 10); ("a.txt", file 10)];
     files := [("/proj/.cw-refpaths.json", fileAt 10 "refpaths");
               ("/proj/a.txt", fileAt 10 "a");
               ("/tmp/shared",
                ({| IsDir := true; ModTime := ms 10; Perm := 493 |}, None))];
     ignored := [];
     refs := [{| From := "/tmp/gone.js"; To := "lib/gone.js" |};
              {| From := "/tmp/shared"; To := "lib/shared" |}];
     projectDirExists := true; recordedLocation := "/proj";
     remoteFiles := fun _ => inr [".cw-refpaths.json"; "a.txt"];
     transport := allOK |}.

(** Scenario A when the completion request cannot be made. *)
Definition completionRefused : setup :=
  {| tree := tree twoFiles; files := files twoFiles;
     ignored := []; refs := [];
     projectDirExists := true; recordedLocation := "/proj";
     remoteFiles := remoteFiles twoFiles;
     transport := fun _ r =>
       match body r with
       | CompleteBody _ => TransportError "connection refused"
       | _ => Response "200 OK" 200
       end |}.


(** A reference whose target name holds a character class, with a new
    file at the target inside the project. *)
Definition classTarget : setup :=
  {| tree := dir [(".cw-refpaths.json", file 10); ("notes[1].txt", file 100)];
     files := [("/proj/.cw-refpaths.json", fileAt 10 "refpaths");
               ("/proj/notes[1].txt", fileAt 100 "physical");
               ("/tmp/notes.txt", fileAt 100 "referenced")];
     ignored := [];
     refs := [{| From := "/tmp/notes.txt"; To := "notes[1].txt" |}];
     projectDirExists := true; recordedLocation := "/proj";
     remoteFiles := fun _ => inr [".cw-refpaths.json"; "notes[1].txt"];
     transport := allOK |}.


(** [http.NewRequest] builds no request, as for a malformed address of the
    remote. *)
Definition noRequest (t : trace) (r : request) : httpResult :=
  RequestError "invalid port after host".

(** Scenario A when no request can be built: the remote's list cannot be
    fetched either. *)
Definition unbuildable : setup :=
  {| tree := tree twoFiles; files := files twoFiles;
     ignored := []; refs := [];
     projectDirExists := true; recordedLocation := "/proj";
     remoteFiles := fun _ => inl (ErrExternal "invalid port after host");
     transport := noRequest |}.


End MoreScenarios.

(* ===================================================================== *)
(** ** Runs that agree *)
(* ===================================================================== *)

(** Two runs agree when, unless one of them panics, they return the same
    value and leave related states. *)
Definition agree {S1 S2 A : Type} (Rel : S1 -> S2 -> Prop)
           (r1 : outcome A * S1) (r2 : outcome A * S2) : Prop :=
  match r1, r2 with
  | (Ok a1, s1), (Ok a2, s2) => a1 = a2 /\ Rel s1 s2
  | _, _ => True
  end.

(** The two walks have listed the same files and the same directories. *)
Definition sameLists (s1 s2 : walkState) : Prop :=
  fileList (wsInfo s1) = fileList (wsInfo s2) /\
  directoryList (wsInfo s1) = directoryList (wsInfo s2).

(* ===================================================================== *)
(** * Properties *)
(* ===================================================================== *)

(* ===================================================================== *)
(** ** PathMatcher *)
(* ===================================================================== *)
Lemma ignoreFileOrDirectory_isDir name isDir isDir' rules :
  ignoreFileOrDirectory name isDir rules = ignoreFileOrDirectory name isDir' rules.
Proof.
  induction rules as [|r rules IH]; cbn [ignoreFileOrDirectory]; [reflexivity|].
  destruct (filepath.Match (cleanRule r) name) as [[|]|]; auto.
Qed.

Lemma ignoreFileOrDirectory_app name isDir pre post :
  Forall (fun q => filepath.Match (cleanRule q) name = Some false) pre ->
  ignoreFileOrDirectory name isDir (pre ++ post)%list
  = ignoreFileOrDirectory name isDir post.
Proof.
  induction 1 as [|q pre Hq _ IH]; [reflexivity|].
  cbn [app ignoreFileOrDirectory]. now rewrite Hq.
Qed.

(** C2, as the loop is written: the path is ignored exactly when some rule
    matches it and every rule before that one was tried and did not match;
    a malformed rule met before any match ends the loop with "not
    ignored". The function is total, so no rule is fatal. *)
Theorem ignoreFileOrDirectory_first_match name isDir rules :
  ignoreFileOrDirectory name isDir rules = true <->
  exists pre rule post,
    rules = (pre ++ rule :: post)%list /\
    filepath.Match (cleanRule rule) name = Some true /\
    Forall (fun q => filepath.Match (cleanRule q) name = Some false) pre.
Proof.
  split.
  - induction rules as [|r rules IH]; cbn [ignoreFileOrDirectory].
    + discriminate.
    + destruct (filepath.Match (cleanRule r) name) as [[|]|] eqn:Hr.
      * intros _. exists [], r, rules. auto.
      * intros H. destruct (IH H) as (pre & rule & post & -> & Hm & Hpre).
        exists (r :: pre), rule, post. repeat split; auto.
      * discriminate.
  - intros (pre & rule & post & -> & Hm & Hpre).
    rewrite ignoreFileOrDirectory_app by assumption.
    cbn [ignoreFileOrDirectory]. now rewrite Hm.
Qed.

(** C2 as stated fails: the rule "a.txt" matches the path "a.txt", yet the
    malformed rule "[" before it makes the answer "not ignored". *)
Lemma ignoreFileOrDirectory_malformed_rule_hides_match :
  ~ (ignoreFileOrDirectory "a.txt" false ["["; "a.txt"] = true <->
     exists rule, In rule ["["; "a.txt"] /\
                  filepath.Match (cleanRule rule) "a.txt" = Some true).
Proof.
  intros [_ H].
  assert (Hm : exists rule, In rule ["["; "a.txt"] /\
                 filepath.Match (cleanRule rule) "a.txt" = Some true).
  { exists "a.txt". split; [right; left; reflexivity | reflexivity]. }
  specialize (H Hm). vm_compute in H. discriminate.
Qed.

(* ===================================================================== *)
(** ** Reasoning about computations *)
(* ===================================================================== *)
Lemma bind_Ok {S A B : Type} (m : M S A) (k : A -> M S B) s a s' :
  m s = (Ok a, s') -> bind m k s = k a s'.
Proof. intros H. unfold bind. now rewrite H. Qed.

Lemma bind_Panic {S A B : Type} (m : M S A) (k : A -> M S B) s why s' :
  m s = (Panic why, s') -> bind m k s = (Panic why, s').
Proof. intros H. unfold bind. now rewrite H. Qed.

Lemma bind_inv_Ok {S A B : Type} (m : M S A) (k : A -> M S B) s b s2 :
  bind m k s = (Ok b, s2) ->
  exists a s1, m s = (Ok a, s1) /\ k a s1 = (Ok b, s2).
Proof.
  unfold bind. destruct (m s) as [[a|why] s1]; [eauto | discriminate].
Qed.

(** A relation between the state before and after that every step of a
    computation respects is respected by the computation. *)
Lemma bind_rel {S A B : Type} (R : S -> S -> Prop) (m : M S A) (k : A -> M S B) s :
  (forall a b c, R a b -> R b c -> R a c) ->
  R s (snd (m s)) ->
  (forall a s1, m s = (Ok a, s1) -> R s1 (snd (k a s1))) ->
  R s (snd (bind m k s)).
Proof.
  intros Htrans Hm Hk. unfold bind.
  destruct (m s) as [[a|why] s1] eqn:E; cbn [snd] in *.
  - eapply Htrans; [exact Hm | now apply Hk].
  - exact Hm.
Qed.

(* ===================================================================== *)
(** ** Induction on file trees *)
(* ===================================================================== *)
Section FsnodeInd.

Variable P : fsnode -> Prop.

Hypothesis P_file : forall mt perm, P (FsFile mt perm).

Hypothesis P_dir : forall mt perm entries,
    Forall (fun p => P (snd p)) entries -> P (FsDir mt perm entries).

Hypothesis P_unreadable : forall mt perm e, P (FsUnreadableDir mt perm e).

Hypothesis P_lstat : forall e, P (FsLstatErr e).

Lemma fsnode_tree_ind (n : fsnode) : P n.
Proof.
  revert n. fix IH 1. intros [mt perm|mt perm entries|mt perm e|e].
  - apply P_file.
  - apply P_dir. induction entries as [|p r IHr]; constructor; [apply IH | exact IHr].
  - apply P_unreadable.
  - apply P_lstat.
Qed.

End FsnodeInd.

(* ===================================================================== *)
(** ** Invariants carried through a walk *)
(* ===================================================================== *)
Section WalkRel.

Context {S : Type}.

Variable walkFn : string -> option FileInfo -> option goError -> M S (option goError).

Variable R : S -> S -> Prop.

Variable Q : fsnode -> Prop.

Hypothesis R_refl : forall s, R s s.

Hypothesis R_trans : forall a b c, R a b -> R b c -> R a c.

Hypothesis Q_entries : forall mt perm entries,
    Q (FsDir mt perm entries) -> Forall (fun p => Q (snd p)) entries.

Hypothesis walkFn_R : forall n path s,
    Q n -> R s (snd (walkFn path (lstatInfo n) (walkErr n) s)).

(** Whatever the walk function maintains on the entries of a tree, the
    walk of the tree maintains. *)
Lemma walk_rel n : forall path s, Q n -> R s (snd (walk walkFn path n s)).
Proof.
  induction n as [mt perm|mt perm entries IH|mt perm e|e] using fsnode_tree_ind;
    intros path s HQ.
  - exact (walkFn_R (FsFile mt perm) path s HQ).
  - cbn [walk]. apply bind_rel; [exact R_trans | exact (walkFn_R _ path s HQ) |].
    intros [e|] s1 _; [apply R_refl|].
    pose proof (Q_entries _ _ _ HQ) as HQs. clear HQ.
    revert s1. induction entries as [|[name child] rest IHrest]; intros s1.
    + apply R_refl.
    + inversion IH as [|? ? IHc IHr]; subst.
      inversion HQs as [|? ? Qc Qr]; subst. cbn [snd] in *.
      apply bind_rel; [exact R_trans | now apply IHc |].
      intros [e|] s2 _; [|now apply IHrest].
      destruct child; cbn [isDirNode negb orb];
        try (apply R_refl);
        destruct (isSkipDir e); cbn [negb]; try apply R_refl; now apply IHrest.
  - exact (walkFn_R (FsUnreadableDir mt perm e) path s HQ).
  - exact (walkFn_R (FsLstatErr e) path s HQ).
Qed.

Lemma Walk_rel root tree s : Q tree -> R s (snd (Walk walkFn root tree s)).
Proof.
  intros HQ. unfold Walk. apply bind_rel; [exact R_trans | now apply walk_rel |].
  intros [[]|] s1 _; apply R_refl.
Qed.

End WalkRel.

(* ===================================================================== *)
(** ** What a pass leaves in the trace *)
(* ===================================================================== *)
Lemma continues_refl t : continues t t.
Proof. exists []. split; [now rewrite app_nil_r | constructor]. Qed.

Lemma continues_trans a b c : continues a b -> continues b c -> continues a c.
Proof.
  intros (e1 & -> & H1) (e2 & -> & H2). exists (e1 ++ e2)%list. split.
  - now rewrite app_assoc.
  - apply Forall_app. now split.
Qed.

Lemma continues_record t e : isUploadEvent e = true -> continues t (record t e).
Proof. intros H. exists [e]. split; [reflexivity | now repeat constructor]. Qed.

Lemma isUploadEvent_not_completion e :
  isUploadEvent e = true -> isCompletion e = false.
Proof. destruct e as [| | | | | |r]; try reflexivity. cbn. now destruct (body r). Qed.

Lemma completions_app t evs :
  completions (t ++ evs)%list = completions t + completions evs.
Proof. unfold completions. now rewrite filter_app, length_app. Qed.

Lemma continues_completions t t' : continues t t' -> completions t' = completions t.
Proof.
  intros (evs & -> & H). rewrite completions_app.
  assert (E : completions evs = 0); [|lia].
  unfold completions. induction H as [|e evs He _ IH]; [reflexivity|].
  cbn [filter]. now rewrite (isUploadEvent_not_completion e He).
Qed.

(** *** Requests *)
Lemma send_eq w req connection t :
  send w req connection t
  = (Ok (sechttp_Dispatch w t req connection), afterRequest w connection t req).
Proof.
  unfold send, afterRequest.
  destruct (sechttp_Dispatch w t req connection); reflexivity.
Qed.

Lemma afterRequest_built w connection t req :
  (forall e, sechttp_Dispatch w t req connection <> RequestError e) ->
  afterRequest w connection t req = record t (EvSend req).
Proof.
  unfold afterRequest. intros H.
  destruct (sechttp_Dispatch w t req connection) as [e| |];
    [now destruct (H e) | reflexivity | reflexivity].
Qed.

Lemma afterRequest_failed w connection t req e :
  sechttp_Dispatch w t req connection = RequestError e ->
  afterRequest w connection t req = t.
Proof. unfold afterRequest. now intros ->. Qed.

(* ===================================================================== *)
(** ** Uploads, case by case *)
(* ===================================================================== *)
Section PassFacts.

Variable w : World.

Variables (projectPath projectID conURL : string) (connection : Connection).

Lemma syncFile_cases path t :
  syncFile w projectID projectPath path connection conURL t
  = syncFileCases w projectPath projectID conURL connection path t.
Proof.
  unfold syncFile, syncFileCases, slice.
  destruct (GoString.sliceFrom path (String.length projectPath + 1)) as [rel|];
    [|reflexivity].
  unfold bind, ret, panic, stat, readFile, send, uploadRequest. cbn.
  destruct (os_Stat w path) as [fi|e]; [|reflexivity]. cbn.
  destruct (ioutil_ReadFile w path) as [content|]; [|reflexivity]. cbn.
  destruct (sechttp_Dispatch w _ _ connection); reflexivity.
Qed.

Lemma syncFile_continues path t :
  continues t (snd (syncFile w projectID projectPath path connection conURL t)).
Proof.
  rewrite syncFile_cases. unfold syncFileCases.
  repeat match goal with
         | |- context [match ?x with _ => _ end] => destruct x
         end; cbn [snd];
    repeat (eapply continues_trans; [|apply continues_record; reflexivity]);
    apply continues_refl.
Qed.

Lemma uploadAttempt_app path a evs b :
  uploadAttempt w projectPath projectID conURL path evs ->
  uploadAttempt w projectPath projectID conURL path (a ++ evs ++ b)%list.
Proof.
  intros [H1 H2]. split.
  - apply in_or_app. right. apply in_or_app. now left.
  - intros. apply in_or_app. right. apply in_or_app. left. now apply H2.
Qed.

Lemma syncFile_attempt path t u t' :
  syncFile w projectID projectPath path connection conURL t = (Ok u, t') ->
  exists evs, t' = (t ++ evs)%list /\
              uploadAttempt w projectPath projectID conURL path evs.
Proof.
  rewrite syncFile_cases. unfold syncFileCases, uploadAttempt.
  destruct (GoString.sliceFrom path (String.length projectPath + 1)) as [rel|];
    [|discriminate].
  cbn zeta. destruct (os_Stat w path) as [fi|e].
  - destruct (ioutil_ReadFile w path) as [content|].
    + intros H.
      exists [EvStat path; EvReadFile path;
              EvSend (uploadRequest projectID conURL rel fi content)].
      split.
      * destruct (sechttp_Dispatch w _ _ connection); inversion H; subst;
          unfold record; now rewrite <- !app_assoc.
      * split; [now left|]. intros fi' c' rel' E1 E2 E3.
        inversion E1; inversion E2; inversion E3; subst. cbn. auto.
    + intros H. inversion H; subst. exists [EvStat path; EvReadFile path].
      split; [unfold record; now rewrite <- !app_assoc|].
      split; [now left | discriminate].
  - intros H. inversion H; subst. exists [EvStat path].
    split; [reflexivity|]. split; [now left | discriminate].
Qed.


End PassFacts.

(* ===================================================================== *)
(** ** The walker, case by case *)
(* ===================================================================== *)
Section WalkerFacts.

Variable w : World.

Variables (projectPath projectID conURL : string) (connection : Connection).

Lemma walker_cases path info s :
  walker w projectPath projectID conURL connection path info None s
  = walkerCases w projectPath projectID conURL connection path info s.
Proof.
  unfold walker, walkerCases.
  destruct (String.eqb path projectPath); [reflexivity|].
  unfold slice, filepath.ToSlash.
  destruct (GoString.sliceFrom path (String.length projectPath + 1)) as [rel|];
    [|reflexivity].
  unfold bind at 1. unfold ret at 1.
  destruct (fileInfo info) as [fi|]; [|reflexivity].
  destruct (IsDir fi); cbn [negb].
  - destruct (ignoreFileOrDirectory rel true (IgnoredPaths info)); reflexivity.
  - destruct (ignoreFileOrDirectory rel false (IgnoredPaths info)); [reflexivity|].
    unfold bind at 1. cbn [updInfo].
    destruct (Z.gtb (millis (ModTime fi)) (LastSync info)); [|reflexivity].
    unfold bind at 1, liftT. cbn [wsTrace wsInfo refPathsChanged].
    destruct (syncFile w projectID projectPath (Path info) connection conURL
                       (wsTrace s)) as [[u|why] t]; [|reflexivity].
    unfold afterUpload.
    destruct (String.eqb rel refPathsFile); reflexivity.
Qed.

Lemma walker_error path info e s :
  walker w projectPath projectID conURL connection path info (Some e) s
  = (Ok (Some e), s).
Proof. reflexivity. Qed.

Lemma prefixOf_refl {A : Type} (l : list A) : prefixOf l l.
Proof. exists []. now rewrite app_nil_r. Qed.

Lemma prefixOf_trans {A : Type} (a b c : list A) :
  prefixOf a b -> prefixOf b c -> prefixOf a c.
Proof. intros [x ->] [y ->]. exists (x ++ y)%list. now rewrite app_assoc. Qed.

Lemma prefixOf_snoc {A : Type} (l : list A) x : prefixOf l (l ++ [x])%list.
Proof. now exists [x]. Qed.

Lemma prefixOf_In {A : Type} (l l' : list A) x : prefixOf l l' -> In x l -> In x l'.
Proof. intros [r ->] H. apply in_or_app. now left. Qed.

Lemma grows_refl s : grows s s.
Proof.
  constructor; auto using prefixOf_refl, continues_refl.
Qed.

Lemma grows_trans a b c : grows a b -> grows b c -> grows a c.
Proof.
  intros [] []. constructor; eauto using prefixOf_trans, continues_trans.
Qed.

Ltac walker_split path info s :=
  rewrite walker_cases; unfold walkerCases;
  destruct (String.eqb path projectPath) eqn:Eroot;
  [| destruct (GoString.sliceFrom path (String.length projectPath + 1))
       as [rel|] eqn:Erel;
     [ destruct (fileInfo info) as [fi|] eqn:Efi;
       [ destruct (IsDir fi) eqn:Edir;
         [ destruct (ignoreFileOrDirectory rel true (IgnoredPaths info)) eqn:Eign
         | destruct (ignoreFileOrDirectory rel false (IgnoredPaths info)) eqn:Eign;
           [| destruct (Z.gtb (millis (ModTime fi)) (LastSync info)) eqn:Emod;
              [ pose proof (syncFile_continues w projectPath projectID conURL
                              connection (Path info) (wsTrace s)) as Hcont;
                destruct (syncFile w projectID projectPath (Path info)
                                   connection conURL (wsTrace s))
                  as [[u|why] t] eqn:Esync
              |] ] ]
       |]
     |] ];
  cbn [fst snd wsInfo wsTrace refPathsChanged setInfo afterUpload appendFile
       appendDirectory appendModified appendUploaded fileList directoryList
       modifiedList UploadedFileList] in *.

Lemma walker_grows path info err s :
  grows s (snd (walker w projectPath projectID conURL connection path info err s)).
Proof.
  destruct err as [e|]; [apply grows_refl|].
  walker_split path info s; try apply grows_refl;
    constructor; cbn; auto using prefixOf_refl, prefixOf_snoc, continues_refl.
  destruct (String.eqb rel refPathsFile); auto.
Qed.

Lemma walker_flag path info err s :
  flagTracksRuleFile s ->
  flagTracksRuleFile
    (snd (walker w projectPath projectID conURL connection path info err s)).
Proof.
  unfold flagTracksRuleFile. intros H.
  destruct err as [e|]; [exact H|].
  walker_split path info s; try exact H.
  rewrite in_app_iff. cbn [In].
  destruct (String.eqb_spec rel refPathsFile) as [->|Hne].
  - split; auto.
  - rewrite H. split; [auto|]. intros [?|[?|[]]]; [assumption|congruence].
Qed.

Lemma walker_noneIgnored path info err s :
  noneIgnored (IgnoredPaths info) s ->
  noneIgnored (IgnoredPaths info)
    (snd (walker w projectPath projectID conURL connection path info err s)).
Proof.
  unfold noneIgnored. intros [Hf Hd].
  destruct err as [e|]; [now split|].
  walker_split path info s; split; auto;
    apply Forall_app; split; auto.
Qed.

Lemma walker_quiet path info err s :
  (forall fi, fileInfo info = Some fi -> IsDir fi = false ->
              (millis (ModTime fi) <= LastSync info)%Z) ->
  quiet s ->
  quiet (snd (walker w projectPath projectID conURL connection path info err s)).
Proof.
  unfold quiet. intros Hold H.
  destruct err as [e|]; [exact H|].
  walker_split path info s; try exact H;
    specialize (Hold fi eq_refl Edir); apply Z.gtb_lt in Emod; lia.
Qed.

End WalkerFacts.

(* ===================================================================== *)
(** ** The two walk phases *)
(* ===================================================================== *)
Section PhaseFacts.

Variable w : World.

Variables (projectPath projectID conURL : string) (synctime : Z)
          (connection : Connection).

Lemma walkLocal_eq ignored s :
  walkLocal w projectPath projectID conURL synctime connection ignored s
  = Walk (localWalkFn w projectPath projectID conURL synctime connection ignored)
         projectPath (walkRoot w projectPath) (logWalk projectPath s).
Proof. reflexivity. Qed.

Lemma logWalk_grows s : grows s (logWalk projectPath s).
Proof.
  constructor; cbn; auto using prefixOf_refl.
  now apply continues_record.
Qed.

Lemma walkLocal_grows ignored s :
  grows s (snd (walkLocal w projectPath projectID conURL synctime connection
                          ignored s)).
Proof.
  rewrite walkLocal_eq. eapply grows_trans; [apply logWalk_grows|].
  apply (Walk_rel (localWalkFn w projectPath projectID conURL synctime connection
                               ignored) grows (fun _ => True));
    auto using grows_refl.
  - exact grows_trans.
  - intros. clear. induction entries; constructor; auto.
  - intros. apply walker_grows.
Qed.

Lemma walkLocal_flag ignored s :
  flagTracksRuleFile s ->
  flagTracksRuleFile
    (snd (walkLocal w projectPath projectID conURL synctime connection ignored s)).
Proof.
  intros H. rewrite walkLocal_eq.
  apply (Walk_rel (localWalkFn w projectPath projectID conURL synctime connection ignored)
           (fun a b => flagTracksRuleFile a -> flagTracksRuleFile b)
           (fun _ => True)); auto.
  - intros. clear. induction entries; constructor; auto.
  - intros. now apply walker_flag.
Qed.

Lemma walkLocal_noneIgnored ignored s :
  noneIgnored ignored s ->
  noneIgnored ignored
    (snd (walkLocal w projectPath projectID conURL synctime connection ignored s)).
Proof.
  intros H. rewrite walkLocal_eq.
  apply (Walk_rel (localWalkFn w projectPath projectID conURL synctime connection ignored)
           (fun a b => noneIgnored ignored a -> noneIgnored ignored b)
           (fun _ => True)); auto.
  - intros. clear. induction entries; constructor; auto.
  - intros n path s0 _ H0.
    exact (walker_noneIgnored w projectPath projectID conURL connection path
             {| Path := path; fileInfo := lstatInfo n; IgnoredPaths := ignored;
                LastSync := synctime |} (walkErr n) s0 H0).
Qed.

Lemma noneNewer_entries cutoff mt perm entries :
  noneNewer cutoff (FsDir mt perm entries) ->
  Forall (fun p => noneNewer cutoff (snd p)) entries.
Proof.
  cbn. induction entries as [|p r IH]; intros H; constructor; [apply H|].
  apply IH, H.
Qed.

Lemma walkLocal_quiet ignored s :
  noneNewer synctime (walkRoot w projectPath) ->
  quiet s ->
  quiet (snd (walkLocal w projectPath projectID conURL synctime connection
                        ignored s)).
Proof.
  intros Hold H. rewrite walkLocal_eq.
  apply (Walk_rel (localWalkFn w projectPath projectID conURL synctime connection
                               ignored) (fun a b => quiet a -> quiet b)
           (noneNewer synctime)); auto.
  - exact (noneNewer_entries synctime).
  - intros n path s0 Hn H0. apply walker_quiet; [|exact H0].
    cbn. intros fi Hfi Hdir. destruct n; cbn in Hfi; inversion Hfi; subst;
      cbn in *; try discriminate. exact Hn.
Qed.

(** One turn of the loop over the references. *)
Lemma walkRefs_cons base r rest errText s :
  walkRefs w projectPath projectID conURL synctime connection base (r :: rest)
           errText s
  = let from := resolveFrom projectPath r in
    let s1 := logStat s from in
    match os_Stat w from with
    | StatErr e =>
        walkRefs w projectPath projectID conURL synctime connection base rest
                 (errText ++ [(from, Some e)])%list s1
    | StatOk fi =>
        if IsDir fi then
          walkRefs w projectPath projectID conURL synctime connection base rest
                   (errText ++ [(from, None)])%list s1
        else
          match walker w projectPath projectID conURL connection
                       (filepath.Join projectPath (To r))
                       (refInfo projectPath base r fi (refCutoff synctime s)) None s1 with
          | (Ok _, s2) =>
              walkRefs w projectPath projectID conURL synctime connection base
                       rest errText s2
          | (Panic why, s2) => (Panic why, s2)
          end
    end.
Proof.
  cbn [walkRefs]. unfold bind at 1. unfold liftT, stat. cbn [wsTrace].
  fold (logStat s (resolveFrom projectPath r)).
  destruct (os_Stat w (resolveFrom projectPath r)) as [fi|e]; [|reflexivity].
  destruct (IsDir fi); [reflexivity|].
  unfold bind at 1. unfold getRefPathsChanged.
  cbn [logStat refPathsChanged]. unfold bind at 1. reflexivity.
Qed.

Lemma logStat_grows s path : grows s (logStat s path).
Proof.
  constructor; cbn; auto using prefixOf_refl.
  now apply continues_record.
Qed.

Lemma walkRefs_grows base refs : forall errText s,
  grows s (snd (walkRefs w projectPath projectID conURL synctime connection
                         base refs errText s)).
Proof.
  induction refs as [|r rest IH]; intros errText s; [apply grows_refl|].
  rewrite walkRefs_cons. cbn zeta.
  pose proof (logStat_grows s (resolveFrom projectPath r)) as H1.
  destruct (os_Stat w (resolveFrom projectPath r)) as [fi|e];
    [|eapply grows_trans; [exact H1 | apply IH]].
  destruct (IsDir fi); [eapply grows_trans; [exact H1 | apply IH]|].
  pose proof (walker_grows w projectPath projectID conURL connection
                (filepath.Join projectPath (To r))
                (refInfo projectPath base r fi (refCutoff synctime s)) None
                (logStat s (resolveFrom projectPath r))) as H2.
  destruct (walker w projectPath projectID conURL connection
                   (filepath.Join projectPath (To r))
                   (refInfo projectPath base r fi (refCutoff synctime s)) None
                   (logStat s (resolveFrom projectPath r))) as [[x|why] s2];
    cbn [snd] in *.
  - eapply grows_trans; [exact H1|]. eapply grows_trans; [exact H2 | apply IH].
  - eapply grows_trans; [exact H1 | exact H2].
Qed.

Lemma walkRefs_flag base refs : forall errText s,
  flagTracksRuleFile s ->
  flagTracksRuleFile
    (snd (walkRefs w projectPath projectID conURL synctime connection
                   base refs errText s)).
Proof.
  induction refs as [|r rest IH]; intros errText s H; [exact H|].
  rewrite walkRefs_cons. cbn zeta.
  assert (H1 : flagTracksRuleFile (logStat s (resolveFrom projectPath r)))
    by exact H.
  destruct (os_Stat w (resolveFrom projectPath r)) as [fi|e]; [|now apply IH].
  destruct (IsDir fi); [now apply IH|].
  pose proof (walker_flag w projectPath projectID conURL connection
                (filepath.Join projectPath (To r))
                (refInfo projectPath base r fi (refCutoff synctime s)) None _ H1) as H2.
  destruct (walker w projectPath projectID conURL connection
                   (filepath.Join projectPath (To r))
                   (refInfo projectPath base r fi (refCutoff synctime s)) None
                   (logStat s (resolveFrom projectPath r))) as [[x|why] s2];
    cbn [snd] in *; [now apply IH | exact H2].
Qed.

Lemma walkRefs_quiet base refs : forall errText s,
  refsNotNewer w projectPath synctime refs ->
  quiet s ->
  quiet (snd (walkRefs w projectPath projectID conURL synctime connection
                       base refs errText s)).
Proof.
  induction refs as [|r rest IH]; intros errText s Hold H; [exact H|].
  assert (Hrest : refsNotNewer w projectPath synctime rest).
  { intros r' fi' Hin. apply Hold. now right. }
  rewrite walkRefs_cons. cbn zeta.
  assert (H1 : quiet (logStat s (resolveFrom projectPath r))) by exact H.
  destruct (os_Stat w (resolveFrom projectPath r)) as [fi|e] eqn:Estat;
    [|now apply IH].
  destruct (IsDir fi); [now apply IH|].
  assert (Hcut : refCutoff synctime s = synctime).
  { unfold refCutoff. destruct H as (_ & _ & ->). reflexivity. }
  pose proof (walker_quiet w projectPath projectID conURL connection
                (filepath.Join projectPath (To r))
                (refInfo projectPath base r fi (refCutoff synctime s)) None
                (logStat s (resolveFrom projectPath r))) as H2.
  assert (H3 : quiet (snd (walker w projectPath projectID conURL connection
                (filepath.Join projectPath (To r))
                (refInfo projectPath base r fi (refCutoff synctime s)) None
                (logStat s (resolveFrom projectPath r))))).
  { apply H2; [|exact H1]. cbn. intros fi0 Hfi _. inversion Hfi; subst fi0.
    rewrite Hcut. apply (Hold r fi); [now left | exact Estat]. }
  destruct (walker w projectPath projectID conURL connection
                   (filepath.Join projectPath (To r))
                   (refInfo projectPath base r fi (refCutoff synctime s)) None
                   (logStat s (resolveFrom projectPath r))) as [[x|why] s2];
    cbn [snd] in *; [now apply IH | exact H3].
Qed.

End PhaseFacts.

(* ===================================================================== *)
(** ** [syncFiles], [findNewFiles] and the completion *)
(* ===================================================================== *)
Section OrchestratorFacts.

Variable w : World.

Variables (projectPath projectID conURL : string) (synctime : Z)
          (connection : Connection).

Lemma retrieveIgnoredPathsList_eq t :
  exists t', retrieveIgnoredPathsList w projectPath t
             = (Ok (ignoredPathsOnDisk w projectPath), t')
             /\ continues t t'.
Proof.
  unfold retrieveIgnoredPathsList, ignoredPathsOnDisk, rulesOnDisk, bind, stat,
    readFile, ret.
  destruct (negb (isNotExist (os_Stat w _))).
  - destruct (ioutil_ReadFile w _) as [text|];
      [destruct (json_CWSettings w text)|];
      eexists; (split; [reflexivity|]);
      repeat (eapply continues_trans; [|apply continues_record; reflexivity]);
      apply continues_refl.
  - eexists; split; [reflexivity|]. now apply continues_record.
Qed.

Lemma retrieveRefPathsList_eq t :
  exists t', retrieveRefPathsList w projectPath t
             = (Ok (refPathsOnDisk w projectPath), t')
             /\ continues t t'.
Proof.
  unfold retrieveRefPathsList, refPathsOnDisk, rulesOnDisk, bind, stat,
    readFile, ret.
  destruct (negb (isNotExist (os_Stat w _))).
  - destruct (ioutil_ReadFile w _) as [text|];
      [destruct (json_refPaths w text)|];
      eexists; (split; [reflexivity|]);
      repeat (eapply continues_trans; [|apply continues_record; reflexivity]);
      apply continues_refl.
  - eexists; split; [reflexivity|]. now apply continues_record.
Qed.

Lemma syncPhases_grows base refs s :
  grows s (snd (syncPhases w projectPath projectID conURL synctime connection
                           base refs s)).
Proof.
  unfold syncPhases.
  apply bind_rel; [exact grows_trans | apply walkLocal_grows |].
  intros [e|] s1 _; [apply grows_refl|].
  apply bind_rel; [exact grows_trans | apply walkRefs_grows |].
  intros; apply grows_refl.
Qed.

(** [syncFiles] is the two phases run on the rules found on disk. *)
Lemma syncFiles_phases t :
  exists t0, continues t t0 /\
    syncFiles w projectPath projectID conURL synctime connection t
    = match syncPhases w projectPath projectID conURL synctime connection
                       (ignoredPathsOnDisk w projectPath)
                       (refPathsOnDisk w projectPath) (initState t0) with
      | (Ok r, s) => (Ok (resultOfPhases projectPath r (wsInfo s)), wsTrace s)
      | (Panic why, s) => (Panic why, wsTrace s)
      end.
Proof.
  destruct (retrieveIgnoredPathsList_eq t) as (t1 & E1 & C1).
  destruct (retrieveRefPathsList_eq t1) as (t2 & E2 & C2).
  exists t2. split; [eapply continues_trans; eassumption|].
  unfold syncFiles. rewrite (bind_Ok _ _ _ _ _ E1), (bind_Ok _ _ _ _ _ E2).
  unfold bind, withClosure.
  destruct (syncPhases w projectPath projectID conURL synctime connection
                       (ignoredPathsOnDisk w projectPath)
                       (refPathsOnDisk w projectPath) (initState t2))
    as [[[e|[|x errText]]|why] s]; reflexivity.
Qed.

Lemma syncFiles_continues t :
  continues t (snd (syncFiles w projectPath projectID conURL synctime
                              connection t)).
Proof.
  destruct (syncFiles_phases t) as (t0 & C0 & ->).
  pose proof (syncPhases_grows (ignoredPathsOnDisk w projectPath)
                               (refPathsOnDisk w projectPath) (initState t0))
    as G. apply grows_trace in G. cbn [initState wsTrace] in G.
  destruct (syncPhases w projectPath projectID conURL synctime connection
                       (ignoredPathsOnDisk w projectPath)
                       (refPathsOnDisk w projectPath) (initState t0))
    as [[r|why] s]; cbn [snd] in *; eapply continues_trans; eassumption.
Qed.

(** *** [findNewFiles] *)
Lemma existsIn_In value slice : existsIn value slice = true <-> In value slice.
Proof.
  induction slice as [|item rest IH]; cbn; [split; [discriminate|tauto]|].
  destruct (String.eqb_spec item value) as [->|Hne]; [tauto|].
  rewrite IH. split; [auto|]. intros [?|?]; [congruence|assumption].
Qed.

Lemma unknownTo_In before after f :
  In f (unknownTo before after) <-> In f after /\ ~ In f before.
Proof.
  unfold unknownTo. rewrite filter_In.
  split; intros [H1 H2]; (split; [exact H1|]).
  - intros Hin. apply existsIn_In in Hin. rewrite Hin in H2. discriminate.
  - destruct (existsIn f before) eqn:E; [|reflexivity].
    apply existsIn_In in E. contradiction.
Qed.

Lemma findNewFiles_continues before after : forall t,
  continues t (snd (findNewFiles w projectPath projectID conURL connection
                                 before after t)).
Proof.
  induction after as [|f rest IH]; intros t; [apply continues_refl|].
  cbn [findNewFiles]. destruct (negb (existsIn f before)); [|apply IH].
  apply bind_rel; [exact continues_trans | apply syncFile_continues |].
  intros _ t1 _. apply bind_rel; [exact continues_trans | apply IH |].
  intros; apply continues_refl.
Qed.

(** When [findNewFiles] returns, it reports exactly the unknown files and
    has handed each of them to [syncFile]. *)
Lemma findNewFiles_Ok before after : forall t added t',
  findNewFiles w projectPath projectID conURL connection before after t
  = (Ok added, t') ->
  added = unknownTo before after /\
  exists evs, t' = (t ++ evs)%list /\
    forall f, In f added ->
      uploadAttempt w projectPath projectID conURL
                    (filepath.Join projectPath f) evs.
Proof.
  induction after as [|f rest IH]; intros t added t' H.
  - inversion H; subst. split; [reflexivity|]. exists []. split.
    + now rewrite app_nil_r.
    + intros ? [].
  - cbn [findNewFiles unknownTo filter] in *.
    destruct (negb (existsIn f before)).
    + apply bind_inv_Ok in H. destruct H as (u & t1 & Hsync & H).
      apply bind_inv_Ok in H. destruct H as (news & t2 & Hrest & H).
      inversion H; subst. clear H.
      destruct (IH _ _ _ Hrest) as (-> & evs2 & -> & Hevs2).
      destruct (syncFile_attempt _ _ _ _ _ _ _ _ _ Hsync) as (evs1 & -> & Ha).
      split; [reflexivity|].
      exists (evs1 ++ evs2)%list.
      split; [now rewrite <- !app_assoc|].
      intros g [<-|Hg].
      * apply (uploadAttempt_app _ _ _ _ _ [] evs1 evs2 Ha).
      * specialize (Hevs2 g Hg).
        pose proof (uploadAttempt_app _ _ _ _ _ evs1 evs2 [] Hevs2) as Hx.
        now rewrite app_nil_r in Hx.
    + apply (IH _ _ _ H).
Qed.


(** *** Reconciliation and completion *)
Lemma fold_appendModified added : forall i,
  fold_left (fun i file => appendModified file i) added i
  = {| fileList := fileList i; directoryList := directoryList i;
       modifiedList := (modifiedList i ++ added)%list;
       UploadedFileList := UploadedFileList i |}.
Proof.
  induction added as [|f rest IH]; intros i.
  - cbn. rewrite app_nil_r. now destruct i.
  - cbn [fold_left]. rewrite IH. cbn. now rewrite <- app_assoc.
Qed.

Lemma completeUpload_eq creq t :
  completeUpload w projectID creq connection conURL t
  = (Ok (statusOf (sechttp_Dispatch w t (completionRequest projectID conURL creq)
                                    connection)),
     afterRequest w connection t (completionRequest projectID conURL creq)).
Proof.
  unfold completeUpload, bind. fold (completionRequest projectID conURL creq).
  rewrite send_eq.
  destruct (sechttp_Dispatch w t (completionRequest projectID conURL creq) connection);
    reflexivity.
Qed.

(** A pass that returns: [syncFiles] gave a change set, the reconciliation
    returned, and [completeUpload] was called on the manifest as the last
    step. *)
Lemma syncAndComplete_Ok stamp t resp err t' :
  syncAndComplete w projectPath projectID conURL synctime connection stamp t
  = (Ok (resp, err), t') ->
  exists info t1 added t2,
    syncFiles w projectPath projectID conURL synctime connection t
    = (Ok (Some info, err), t1) /\
    reconcile w projectPath projectID conURL connection (fileList info) t1
    = (Ok added, t2) /\
    t' = afterRequest w connection t2
                      (completionRequest projectID conURL
                                         (manifest info added stamp)) /\
    resp = Some
      {| respStatus :=
           fst (statusOf (sechttp_Dispatch w t2
                  (completionRequest projectID conURL (manifest info added stamp))
                  connection));
         respStatusCode :=
           snd (statusOf (sechttp_Dispatch w t2
                  (completionRequest projectID conURL (manifest info added stamp))
                  connection));
         UploadedFiles := UploadedFileList info |}.
Proof.
  unfold syncAndComplete. intros H.
  apply bind_inv_Ok in H. destruct H as ([syncInfo syncErr] & t1 & Hsync & H).
  apply bind_inv_Ok in H. destruct H as (before & tq & Hq & H).
  unfold getProjectFileList in Hq. inversion Hq; subst before tq. clear Hq.
  apply bind_inv_Ok in H. destruct H as (syncInfo' & t2 & Hrec & H).
  destruct syncInfo as [info|].
  - exists info, t1.
    assert (Hr : exists added,
                  reconcile w projectPath projectID conURL connection
                            (fileList info) t1 = (Ok added, t2) /\
                  syncInfo' = Some (fold_left (fun i file => appendModified file i)
                                              added info)).
    { unfold reconcile.
      destruct (GetProjectFileList w t1 connection conURL projectID)
        as [e|before].
      - inversion Hrec; subst. exists []. split; reflexivity.
      - cbn [deref] in Hrec. unfold bind at 1 in Hrec. cbn [ret] in Hrec.
        apply bind_inv_Ok in Hrec. destruct Hrec as (added & t3 & Hf & Hrec).
        inversion Hrec; subst. exists added. split; [exact Hf | reflexivity]. }
    destruct Hr as (added & Hr & ->). exists added, t2.
    rewrite fold_appendModified in H. cbn [deref] in H.
    unfold bind at 1 2 3 in H. cbn [ret fileList directoryList modifiedList] in H.
    fold (manifest info added stamp) in H.
    unfold bind at 1 in H. rewrite completeUpload_eq in H.
    destruct (statusOf _) as [st code] eqn:Est in H.
    unfold bind at 1 in H. cbn [ret UploadedFileList] in H.
    inversion H; subst. rewrite Est. cbn [fst snd]. auto.
  - exfalso.
    destruct (GetProjectFileList w t1 connection conURL projectID) as [e|before].
    + inversion Hrec; subst. cbn in H. discriminate.
    + cbn in Hrec. discriminate.
Qed.

End OrchestratorFacts.

(* ===================================================================== *)
(** ** The orchestrator *)
(* ===================================================================== *)
Section OrchestratorClaims.

Variable w : World.

Variables (projectPath projectID conURL : string) (synctime : Z)
          (connection : Connection).



(** When [syncFiles] gives no change set, the pass dereferences nil. *)
Lemma syncAndComplete_nil stamp t serr t1 :
  syncFiles w projectPath projectID conURL synctime connection t
  = (Ok (None, serr), t1) ->
  syncAndComplete w projectPath projectID conURL synctime connection stamp t
  = (Panic NilDereference, record t1 (EvGetFileList conURL projectID)).
Proof.
  intros Hsync. unfold syncAndComplete.
  rewrite (bind_Ok _ _ _ _ _ Hsync).
  unfold bind at 1. unfold getProjectFileList.
  destruct (GetProjectFileList w t1 connection conURL projectID); reflexivity.
Qed.

Lemma reconcile_shape after t added t2 :
  reconcile w projectPath projectID conURL connection after t = (Ok added, t2) ->
  exists recon,
    t2 = (t ++ EvGetFileList conURL projectID :: recon)%list /\
    Forall (fun e => isUploadEvent e = true) recon /\
    match GetProjectFileList w t connection conURL projectID with
    | inr before =>
        added = unknownTo before after /\
        forall f, In f added ->
          uploadAttempt w projectPath projectID conURL
                        (filepath.Join projectPath f) recon
    | inl _ => added = [] /\ recon = []
    end.
Proof.
  unfold reconcile. intros H.
  destruct (GetProjectFileList w t connection conURL projectID) as [e|before].
  - inversion H; subst. exists []. repeat split; auto.
  - pose proof (findNewFiles_continues w projectPath projectID conURL connection
                  before after (record t (EvGetFileList conURL projectID))) as C.
    rewrite H in C. cbn [snd] in C. destruct C as (evs & -> & Hevs).
    destruct (findNewFiles_Ok _ _ _ _ _ _ _ _ _ _ H) as (-> & evs' & E & Hstat).
    apply app_inv_head in E. subst evs'.
    exists evs. unfold record. rewrite <- app_assoc. cbn [app]. auto.
Qed.


(** A manifest is counted when its request was built. *)
Lemma completions_afterRequest t creq :
  completions (afterRequest w connection t
                            (completionRequest projectID conURL creq))
  = match sechttp_Dispatch w t (completionRequest projectID conURL creq)
                           connection with
    | RequestError _ => completions t
    | _ => S (completions t)
    end.
Proof.
  unfold afterRequest.
  destruct (sechttp_Dispatch w t _ connection); [reflexivity| |];
    unfold record; rewrite completions_app; cbn; lia.
Qed.

(** The walk phases and the reconciliation of a pass dispatch no manifest. *)
Lemma phases_completions t info serr t1 added t2 :
  syncFiles w projectPath projectID conURL synctime connection t
  = (Ok (Some info, serr), t1) ->
  reconcile w projectPath projectID conURL connection (fileList info) t1
  = (Ok added, t2) ->
  completions t2 = completions t.
Proof.
  intros Hsync Hrec.
  pose proof (syncFiles_continues w projectPath projectID conURL synctime
                connection t) as C1.
  rewrite Hsync in C1. cbn [snd] in C1. apply continues_completions in C1.
  apply reconcile_shape in Hrec. destruct Hrec as (recon & -> & Hrecon & _).
  rewrite completions_app, C1.
  assert (E : completions (EvGetFileList conURL projectID :: recon) = 0);
    [|lia].
  change (completions ([] ++ recon)%list = 0).
  apply (continues_completions [] ([] ++ recon)%list).
  exists recon. auto.
Qed.

End OrchestratorClaims.

(* ===================================================================== *)
(** ** Claims about [SyncProject] *)
(* ===================================================================== *)
Section SyncProjectClaims.

Variable w : World.

Variable c : cliContext.

Variables (connection : Connection) (conURL : string).

Let projectPath : string := GoString.TrimSpace (flagPath c).

Let projectID : string := GoString.TrimSpace (flagID c).

Hypothesis Hresolved : resolved w c connection conURL.

(** With the directory in place, [SyncProject] is the pass proper. *)
Lemma SyncProject_present t :
  utils_PathExists w projectPath = true ->
  SyncProject w c t
  = syncAndComplete w projectPath projectID conURL (flagTime c) connection
                    (stampAt w t) (record t (EvPathExists projectPath)).
Proof.
  intros Hex. destruct Hresolved as [(conID & Hid & Hcon) Hurl].
  unfold SyncProject. unfold bind at 1. unfold now.
  rewrite Hid, Hcon, Hurl. unfold bind at 1. unfold pathExists.
  fold projectPath. rewrite Hex. reflexivity.
Qed.


Hypothesis Hpresent : utils_PathExists w projectPath = true.


(** C10: the uploads of the reconciliation leave no entry in the result:
    the uploaded files a pass returns are those [syncFiles] collected. *)
Theorem reconciliation_outcomes_discarded t resp err t' :
  SyncProject w c t = (Ok (resp, err), t') ->
  exists fileInfos t1 r,
    syncFiles w projectPath projectID conURL (flagTime c) connection
              (record t (EvPathExists projectPath))
    = (Ok (Some fileInfos, err), t1) /\
    resp = Some r /\
    UploadedFiles r = UploadedFileList fileInfos.
Proof.
  intros Hrun. rewrite (SyncProject_present t Hpresent) in Hrun.
  apply syncAndComplete_Ok in Hrun.
  destruct Hrun as (info & t1 & added & t2 & Hsync & _ & _ & ->).
  exists info, t1. eexists. split; [exact Hsync|]. split; reflexivity.
Qed.


End SyncProjectClaims.

(* ===================================================================== *)
(** ** Claims about the walk *)
(* ===================================================================== *)
Lemma walk_dir {S : Type} (walkFn : string -> option FileInfo -> option goError
                                    -> M S (option goError))
      path mt perm entries s :
  walk walkFn path (FsDir mt perm entries) s
  = match walkFn path (lstatInfo (FsDir mt perm entries)) None s with
    | (Ok None, s1) => walkEntries walkFn path entries s1
    | (Ok (Some e), s1) => (Ok (Some e), s1)
    | (Panic why, s1) => (Panic why, s1)
    end.
Proof.
  cbn [walk]. unfold bind at 1.
  destruct (walkFn path _ None s) as [[[e|]|why] s1]; try reflexivity.
  revert s1. induction entries as [|[name child] rest IH]; intros s1;
    [reflexivity|].
  cbn [walkEntries]. lazy beta iota zeta. unfold bind.
  destruct (walk walkFn (filepath.Join path name) child s1) as [[[e|]|why] s2];
    try reflexivity; [|apply IH].
  destruct child; try reflexivity;
    cbn [isDirNode negb orb]; destruct (isSkipDir e); cbn [negb];
    try reflexivity; apply IH.
Qed.

Section WalkClaims.

Variable w : World.

Variables (projectPath projectID conURL : string) (synctime : Z)
          (connection : Connection).

Variable ignored : list string.





End WalkClaims.

(* ===================================================================== *)
(** ** Claims about the rule files *)
(* ===================================================================== *)
Section RuleClaims.

Variable w : World.

Variables (projectPath projectID conURL : string) (synctime : Z)
          (connection : Connection).

(** With the flag set, the loop over the references does not read the
    cutoff of the pass. *)
Lemma walkRefs_forced base refs : forall errText s,
  refPathsChanged s = true ->
  walkRefs w projectPath projectID conURL synctime connection base refs errText s
  = walkRefs w projectPath projectID conURL 0 connection base refs errText s.
Proof.
  induction refs as [|r rest IH]; intros errText s Hflag; [reflexivity|].
  rewrite !walkRefs_cons. cbn zeta.
  assert (H1 : refPathsChanged (logStat s (resolveFrom projectPath r)) = true)
    by exact Hflag.
  destruct (os_Stat w (resolveFrom projectPath r)) as [fi|e]; [|now apply IH].
  destruct (IsDir fi); [now apply IH|].
  unfold refCutoff. rewrite Hflag.
  pose proof (walker_grows w projectPath projectID conURL connection
                (filepath.Join projectPath (To r)) (refInfo projectPath base r fi 0)
                None (logStat s (resolveFrom projectPath r))) as G.
  destruct (walker w projectPath projectID conURL connection
                   (filepath.Join projectPath (To r))
                   (refInfo projectPath base r fi 0) None
                   (logStat s (resolveFrom projectPath r))) as [[x|why] s2];
    [|reflexivity].
  apply IH. apply (grows_flag _ _ G). exact H1.
Qed.

Lemma walkRefs_forced_modified base refs : forall errText s errText' s',
  refPathsChanged s = true ->
  walkRefs w projectPath projectID conURL synctime connection base refs errText s
  = (Ok errText', s') ->
  forall r fi rel,
    In r refs -> recordedRef w projectPath base r fi rel -> (0 < millis (ModTime fi))%Z ->
    In rel (modifiedList (wsInfo s')) /\
    exists u, In u (UploadedFileList (wsInfo s')) /\
              outcomeOfUpload w projectPath projectID conURL connection
                              (resolveFrom projectPath r) u.
Proof.
  induction refs as [|r0 rest IH]; intros errText s errText' s' Hflag Hrun
    r fi rel Hin Hrec Hnew; [destruct Hin|].
  rewrite walkRefs_cons in Hrun. cbn zeta in Hrun.
  assert (H1 : refPathsChanged (logStat s (resolveFrom projectPath r0)) = true)
    by exact Hflag.
  destruct Hin as [<-|Hin].
  - destruct Hrec as (Hstat & Hdir & Hroot & Hrel & Hign).
    rewrite Hstat, Hdir in Hrun. unfold refCutoff in Hrun. rewrite Hflag in Hrun.
    rewrite walker_cases in Hrun. unfold walkerCases in Hrun.
    cbn [refInfo fileInfo IgnoredPaths LastSync Path] in Hrun.
    rewrite Hroot, Hrel, Hdir, Hign in Hrun.
    apply Z.gtb_lt in Hnew. rewrite Hnew in Hrun.
    destruct (syncFile w projectID projectPath (resolveFrom projectPath r0)
                       connection conURL
                       (wsTrace (logStat s (resolveFrom projectPath r0))))
      as [[u|why] t1] eqn:Esync; [|discriminate].
    pose proof (walkRefs_grows w projectPath projectID conURL synctime connection
                  base rest errText
                  (afterUpload (logStat s (resolveFrom projectPath r0)) rel u t1))
      as G.
    rewrite Hrun in G. cbn [snd] in G.
    split.
    + apply (prefixOf_In _ _ _ (grows_modified _ _ G)). cbn.
      apply in_or_app. right. now left.
    + exists u. split.
      * apply (prefixOf_In _ _ _ (grows_uploaded _ _ G)). cbn.
        apply in_or_app. right. now left.
      * eexists _, _. exact Esync.
  - destruct (os_Stat w (resolveFrom projectPath r0)) as [fi0|e];
      [|eapply IH; eauto].
    destruct (IsDir fi0); [eapply IH; eauto|].
    pose proof (walker_grows w projectPath projectID conURL connection
                  (filepath.Join projectPath (To r0))
                  (refInfo projectPath base r0 fi0 (refCutoff synctime s)) None
                  (logStat s (resolveFrom projectPath r0))) as G.
    destruct (walker w projectPath projectID conURL connection
                     (filepath.Join projectPath (To r0))
                     (refInfo projectPath base r0 fi0 (refCutoff synctime s)) None
                     (logStat s (resolveFrom projectPath r0))) as [[x|why] s2];
      [|discriminate].
    eapply IH; [|exact Hrun|exact Hin|exact Hrec|exact Hnew].
    apply (grows_flag _ _ G). exact H1.
Qed.

(** When no file of the tree and no referenced file is newer than the
    cutoff, [syncFiles] reports no modified file and uploads nothing. *)
Lemma syncFiles_quiet t fileInfos warnings t1 :
  noneNewer synctime (walkRoot w projectPath) ->
  refsNotNewer w projectPath synctime (refPathsOnDisk w projectPath) ->
  syncFiles w projectPath projectID conURL synctime connection t
  = (Ok (Some fileInfos, warnings), t1) ->
  modifiedList fileInfos = [] /\ UploadedFileList fileInfos = [].
Proof.
  intros Htree Hrefs Hrun.
  destruct (syncFiles_phases w projectPath projectID conURL synctime connection t)
    as (t0 & _ & E). rewrite E in Hrun. clear E.
  assert (Hq : quiet (snd (syncPhases w projectPath projectID conURL synctime
                             connection (ignoredPathsOnDisk w projectPath)
                             (refPathsOnDisk w projectPath) (initState t0)))).
  { unfold syncPhases.
    apply (bind_rel (fun a b => quiet a -> quiet b)); auto.
    - now apply walkLocal_quiet.
    - intros [e|] s1 _ Hs1; [exact Hs1|].
      apply (bind_rel (fun a b => quiet a -> quiet b)); auto.
      now apply walkRefs_quiet.
    - repeat split. }
  destruct (syncPhases w projectPath projectID conURL synctime connection
              (ignoredPathsOnDisk w projectPath) (refPathsOnDisk w projectPath)
              (initState t0)) as [[[e|[|x errText]]|why] s];
    cbn [snd resultOfPhases] in *; inversion Hrun; subst;
    destruct Hq as (? & ? & _); auto.
Qed.

End RuleClaims.

(* ===================================================================== *)
(** ** Claims about a whole pass *)
(* ===================================================================== *)
Section PassClaims.

Variable w : World.

Variable c : cliContext.

Variables (connection : Connection) (conURL : string).

Let projectPath : string := GoString.TrimSpace (flagPath c).

Let projectID : string := GoString.TrimSpace (flagID c).

Hypothesis Hresolved : resolved w c connection conURL.

Hypothesis Hpresent : utils_PathExists w projectPath = true.

(** C9, as the comparison with the cutoff works: in a pass whose cutoff no
    file of the tree and no referenced file exceeds (as when the cutoff is
    the time stamp of the pass before and nothing changed since), the walk
    phases mark nothing as modified, and the modified list of the manifest
    holds exactly the files of the file list that the remote's list, as
    the pass fetched it after the walk phases, lacks: none when the remote
    knows every file or its list could not be fetched. The manifest is the
    last request of the pass, after the calls of the reconciliation. *)
Theorem pass_without_newer_files_modifies_nothing t resp err t' :
  noneNewer (flagTime c) (walkRoot w projectPath) ->
  refsNotNewer w projectPath (flagTime c) (refPathsOnDisk w projectPath) ->
  SyncProject w c t = (Ok (resp, err), t') ->
  exists info t1 recon creq,
    syncFiles w projectPath projectID conURL (flagTime c) connection
              (record t (EvPathExists projectPath))
    = (Ok (Some info, err), t1) /\
    modifiedList info = [] /\
    Forall (fun e => isUploadEvent e = true) recon /\
    t' = afterRequest w connection
           (t1 ++ EvGetFileList conURL projectID :: recon)%list
           (completionRequest projectID conURL creq) /\
    FileList creq = fileList info /\
    forall f,
      In f (ModifiedList creq) <->
      exists before,
        GetProjectFileList w t1 connection conURL projectID = inr before /\
        In f (fileList info) /\ ~ In f before.
Proof.
  intros Htree Hrefs Hrun.
  rewrite (SyncProject_present w c connection conURL Hresolved t Hpresent) in Hrun.
  apply syncAndComplete_Ok in Hrun.
  destruct Hrun as (info & t1 & added & t2 & Hsync & Hrec & -> & _).
  destruct (syncFiles_quiet w _ _ _ _ _ _ _ _ _ Htree Hrefs Hsync) as [Hm _].
  apply reconcile_shape in Hrec. destruct Hrec as (recon & -> & Hup & Hshape).
  exists info, t1, recon, (manifest info added (stampAt w t)).
  split; [exact Hsync|]. split; [exact Hm|]. split; [exact Hup|].
  split; [reflexivity|]. split; [reflexivity|].
  cbn [manifest ModifiedList FileList]. rewrite Hm. cbn [app].
  intros f. unfold projectID.
  destruct (GetProjectFileList w t1 connection conURL
              (GoString.TrimSpace (flagID c))) as [e|before] eqn:Eb.
  - destruct Hshape as [-> _]. split; [intros []|].
    intros (before & Hb & _). discriminate.
  - destruct Hshape as [-> _]. rewrite unknownTo_In. split.
    + intros [Hin Hnot]. exists before. auto.
    + intros (before' & Hb & Hin & Hnot). inversion Hb; subst. auto.
Qed.

(** When the walk of the project tree reports an error, [syncFiles]
    returns its fatal error without a change set, and [SyncProject], which
    reads the change set without a look at the error, panics. *)
Lemma SyncProject_walk_error t :
  exists t0,
    continues (record t (EvPathExists projectPath)) t0 /\
    forall e s,
      syncPhases w projectPath projectID conURL (flagTime c) connection
                 (ignoredPathsOnDisk w projectPath) (refPathsOnDisk w projectPath)
                 (initState t0) = (Ok (inl e), s) ->
      syncFiles w projectPath projectID conURL (flagTime c) connection
                (record t (EvPathExists projectPath))
      = (Ok (None, Some {| Op := errOpSync; Err := ErrWalking projectPath e;
                           Desc := DescOf (ErrWalking projectPath e) |}),
         wsTrace s) /\
      SyncProject w c t
      = (Panic NilDereference,
         record (wsTrace s) (EvGetFileList conURL projectID)).
Proof.
  destruct (syncFiles_phases w projectPath projectID conURL (flagTime c)
              connection (record t (EvPathExists projectPath)))
    as (t0 & C0 & E).
  exists t0. split; [exact C0|]. intros e s Hphases.
  rewrite Hphases in E. cbn [resultOfPhases] in E. split; [exact E|].
  rewrite (SyncProject_present w c connection conURL Hresolved t Hpresent).
  now apply syncAndComplete_nil with (serr := Some
    {| Op := errOpSync; Err := ErrWalking projectPath e;
       Desc := DescOf (ErrWalking projectPath e) |}).
Qed.

End PassClaims.

(* ===================================================================== *)
(** ** The claims on the scenarios *)
(* ===================================================================== *)
Import Scenario.

Lemma scenario_resolved u : resolved (world u) cli "local" "http://pfe".
Proof. split; [exists "local"; split; reflexivity | reflexivity]. Qed.

(** C1: a project with a directory that cannot be read. [syncFiles]
    returns the fatal error of the walk and no change set; [SyncProject]
    then panics on the nil change set instead of returning that error. The
    remote's file list has been asked for by then; nothing is reconciled
    and no manifest is handed over. *)
Theorem walk_error_panics_instead_of_failing :
  (exists fatal t1,
      syncFiles (world unreadable) "/proj" "p1" "http://pfe" 50 "local"
                [EvPathExists "/proj"] = (Ok (None, Some fatal), t1) /\
      Op fatal = errOpSync) /\
  SyncProject (world unreadable) cli []
  = (Panic NilDereference,
     [EvPathExists "/proj"; EvStat "/proj/.cw-settings";
      EvStat "/proj/.cw-refpaths.json"; EvWalk "/proj";
      EvGetFileList "http://pfe" "p1"]).
Proof.
  split.
  - eexists _, _. split; vm_compute; reflexivity.
  - vm_compute. reflexivity.
Qed.

Ltac decide_In :=
  vm_compute;
  repeat match goal with
         | |- _ \/ _ => (left; reflexivity) || right
         end;
  try reflexivity.

Ltac refute_In H :=
  vm_compute in H;
  repeat match type of H with
         | _ \/ _ => destruct H as [H|H]
         end;
  try discriminate H; try contradiction.

(** C2 on an example: the legacy rule "/a.txt" ignores "a.txt". *)
Lemma ignoreFileOrDirectory_first_match_witness :
  ignoreFileOrDirectory "a.txt" false ["b"; "/a.txt"] = true.
Proof.
  apply (proj2 (ignoreFileOrDirectory_first_match "a.txt" false ["b"; "/a.txt"])).
  exists ["b"], "/a.txt", [].
  split; [reflexivity|]. split; [vm_compute; reflexivity|].
  constructor; [vm_compute; reflexivity | constructor].
Defined.





(** C10 on the same scenario: the reconciliation uploaded "old.txt", and
    the result lists no uploaded file. *)
Lemma reconciliation_outcomes_discarded_witness :
  (exists r, fst (SyncProject (world imported) cli []) = Ok (Some r, None) /\
             UploadedFiles r = []) /\
  In (EvSend (uploadRequest "p1" "http://pfe" "old.txt"
                {| IsDir := false; ModTime := ms 20; Perm := 420 |} "o"))
     (snd (SyncProject (world imported) cli [])).
Proof.
  split; [|decide_In].
  eassert (Hr : SyncProject (world imported) cli [] = (Ok (_, _), _))
    by (vm_compute; reflexivity).
  destruct (reconciliation_outcomes_discarded
              (world imported) cli "local" "http://pfe" (scenario_resolved _)
              eq_refl [] _ _ _ Hr) as (info & t1 & r & Hs & Hresp & Hu).
  exists r. rewrite Hr. cbn [fst]. split.
  - inversion Hresp. reflexivity.
  - rewrite Hu. vm_compute in Hs. inversion Hs. reflexivity.
Defined.



(** C5: the reference to "/tmp/notes.txt" has the target "notes[1].txt",
    which [syncFiles] adds to the ignore rules of the walk of the project.
    As a pattern the rule matches "notes1.txt", not "notes[1].txt": the
    file of that name inside the project is walked, listed and, being
    newer than the cutoff, uploaded from its place in the project; the
    reference walk then lists the same path again. *)
Theorem reference_target_with_class_is_synced_from_the_project :
  refPathsOnDisk (world classTarget) "/proj"
  = [{| From := "/tmp/notes.txt"; To := "notes[1].txt" |}] /\
  ignoreFileOrDirectory "notes[1].txt" false ["notes[1].txt"] = false /\
  exists uploads t1,
    syncFiles (world classTarget) "/proj" "p1" "http://pfe" 50 "local"
              [EvPathExists "/proj"]
    = (Ok (Some {| fileList := [".cw-refpaths.json"; "notes[1].txt";
                                "notes[1].txt"];
                   directoryList := [];
                   modifiedList := ["notes[1].txt"; "notes[1].txt"];
                   UploadedFileList := uploads |}, None), t1) /\
    In (EvReadFile "/proj/notes[1].txt") t1 /\
    In (EvSend (uploadRequest "p1" "http://pfe" "notes[1].txt"
                  {| IsDir := false; ModTime := ms 100; Perm := 420 |}
                  "physical")) t1.
Proof.
  split; [vm_compute; reflexivity|]. split; [vm_compute; reflexivity|].
  eexists _, _. split; [vm_compute; reflexivity|]. split; decide_In.
Qed.

(** C6: the rule file ".cw-refpaths.json" is newer than the cutoff of
    50 ms, so the reference walks run with cutoff 0. A referenced file
    last modified at 20 ms, older than the cutoff of the pass, is marked
    modified and uploaded again; a referenced file last modified at the
    epoch (0 ms) is listed, but neither marked modified nor read nor
    uploaded, since 0 is not greater than the cutoff 0. *)
Theorem rule_file_change_does_not_resync_epoch_reference :
  (exists uploads t1,
      syncFiles (world (touchedRules 20)) "/proj" "p1" "http://pfe" 50 "local"
                [EvPathExists "/proj"]
      = (Ok (Some {| fileList := [".cw-refpaths.json"; "lib/lib.js"];
                     directoryList := [];
                     modifiedList := [".cw-refpaths.json"; "lib/lib.js"];
                     UploadedFileList := uploads |}, None), t1) /\
      In (EvReadFile "/tmp/shared/lib.js") t1) /\
  (exists t1,
      syncFiles (world (touchedRules 0)) "/proj" "p1" "http://pfe" 50 "local"
                [EvPathExists "/proj"]
      = (Ok (Some {| fileList := [".cw-refpaths.json"; "lib/lib.js"];
                     directoryList := [];
                     modifiedList := [".cw-refpaths.json"];
                     UploadedFileList :=
                       [{| FilePath := ".cw-refpaths.json"; Status := "200 OK";
                           StatusCode := 200 |}] |}, None), t1) /\
      os_Stat (world (touchedRules 0)) "/tmp/shared/lib.js"
      = StatOk {| IsDir := false; ModTime := 0; Perm := 420 |} /\
      ~ In (EvReadFile "/tmp/shared/lib.js") t1).
Proof.
  split.
  - eexists _, _. split; [vm_compute; reflexivity | decide_In].
  - eexists. split; [vm_compute; reflexivity|].
    split; [vm_compute; reflexivity|]. intros H. refute_In H.
Qed.



(** C9 as stated fails: two passes over scenario A with the same cutoff of
    50 ms and an unchanged file system; "b.txt", modified at 100 ms, is in
    the modified list of the second manifest as it was in the first. *)
Lemma second_pass_with_same_cutoff_repeats_modified_list :
  let first := SyncProject (world twoFiles) cli [] in
  let second := SyncProject (world twoFiles) cli (snd first) in
  exists m1 m2,
    manifests (snd second) = [m1; m2] /\
    ModifiedList m1 = ["b.txt"] /\
    ModifiedList m2 = ["b.txt"] /\
    ModifiedList m2 <> [].
Proof.
  eexists _, _. split; [vm_compute; reflexivity|].
  split; [reflexivity|]. split; [reflexivity|]. discriminate.
Qed.

(** C9 on scenario A, synchronised before: the remote knows both files
    and the modified list of the manifest is empty. *)
Lemma pass_without_newer_files_modifies_nothing_witness :
  exists creq,
    manifests (snd (SyncProject (world twoFiles) cliAfterFirstPass [])) = [creq] /\
    FileList creq = ["a.txt"; "b.txt"] /\
    ModifiedList creq = [].
Proof.
  eassert (Hr : SyncProject (world twoFiles) cliAfterFirstPass []
                = (Ok (_, _), _)) by (vm_compute; reflexivity).
  destruct (pass_without_newer_files_modifies_nothing
              (world twoFiles) cliAfterFirstPass "local" "http://pfe"
              (conj (ex_intro _ "local" (conj eq_refl eq_refl)) eq_refl)
              eq_refl [] _ _ _
              ltac:(vm_compute; repeat split; discriminate)
              ltac:(intros r fi [])
              Hr)
    as (info & t1 & recon & creq & Hs & _ & _ & Ht & Hfl & Hml).
  vm_compute in Hs. inversion Hs; subst info t1. clear Hs.
  exists creq.
  rewrite afterRequest_built in Ht by (intros e; discriminate).
  rewrite Hr. cbn [snd].
  assert (Hnone : ModifiedList creq = []).
  { destruct (ModifiedList creq) as [|f rest] eqn:E; [reflexivity|].
    destruct (proj1 (Hml f) (or_introl eq_refl)) as (before & Hb & Hin & Hnot).
    inversion Hb; subst before. exfalso. apply Hnot.
    destruct Hin as [<-|[<-|[]]]; decide_In. }
  split; [|split; [exact Hfl | exact Hnone]].
  apply (f_equal (fun l => last l (EvWalk EmptyString))) in Ht.
  unfold record in Ht. rewrite last_last in Ht. vm_compute in Ht.
  inversion Ht; subst creq. reflexivity.
Defined.

(* ===================================================================== *)
(** ** The models at work *)
(* ===================================================================== *)

(** [filepath.Clean] and [filepath.Match] on cases of Go's own tests. *)
Example Clean_trailing_slash : filepath.Clean "abc/def/" = "abc/def".
Proof. reflexivity. Qed.

Example Clean_double_slash : filepath.Clean "abc//def//ghi" = "abc/def/ghi".
Proof. reflexivity. Qed.

Example Clean_dot : filepath.Clean "/./abc/def" = "/abc/def".
Proof. reflexivity. Qed.

Example Clean_dotdot : filepath.Clean "abc/def/../ghi/../jkl" = "abc/jkl".
Proof. reflexivity. Qed.

Example Clean_dotdot_root : filepath.Clean "/abc/def/../../.." = "/".
Proof. reflexivity. Qed.

Example Clean_dotdot_relative :
  filepath.Clean "abc/def/../../../ghi/jkl/../../../mno" = "../../mno".
Proof. reflexivity. Qed.

Example Clean_empty : filepath.Clean EmptyString = ".".
Proof. reflexivity. Qed.

Example Match_literal : filepath.Match "abc" "abc" = Some true.
Proof. reflexivity. Qed.

Example Match_star_stops_at_separator : filepath.Match "a*" "ab/c" = Some false.
Proof. reflexivity. Qed.

Example Match_stars :
  filepath.Match "a*b*c*d*e*/f" "axbxcxdxexxx/f" = Some true.
Proof. vm_compute. reflexivity. Qed.

Example Match_question : filepath.Match "a*b?c*x" "abxbbxdbxebxczzx" = Some true.
Proof. vm_compute. reflexivity. Qed.

Example Match_class : filepath.Match "ab[b-d]" "abc" = Some true.
Proof. reflexivity. Qed.

Example Match_negated_class : filepath.Match "ab[^b-d]" "abc" = Some false.
Proof. reflexivity. Qed.

Example Match_escape : filepath.Match "a\*b" "a*b" = Some true.
Proof. reflexivity. Qed.

Example Match_escaped_bracket : filepath.Match "[\]a]" "]" = Some true.
Proof. reflexivity. Qed.

Example Match_bad_class : filepath.Match "[]a]" "]" = None.
Proof. reflexivity. Qed.

Example Match_bad_range : filepath.Match "[a-b-c]" "a" = None.
Proof. reflexivity. Qed.

Example Match_open_class : filepath.Match "[" "a" = None.
Proof. reflexivity. Qed.

Example Match_open_class_not_reached : filepath.Match "a[" "a" = Some false.
Proof. reflexivity. Qed.

Example Match_whole_path_only : filepath.Match "build" "build/out.bin" = Some false.
Proof. reflexivity. Qed.

(** Scenario A of the specification. *)
Example scenario_A :
  manifests (snd (SyncProject (world twoFiles) cli []))
  = [{| FileList := ["a.txt"; "b.txt"]; DirectoryList := [];
        ModifiedList := ["b.txt"]; TimeStamp := 5000 |}] /\
  fst (SyncProject (world twoFiles) cli [])
  = Ok (Some {| respStatus := "200 OK"; respStatusCode := 200;
                UploadedFiles := [{| FilePath := "b.txt"; Status := "200 OK";
                                     StatusCode := 200 |}] |}, None).
Proof. split; vm_compute; reflexivity. Qed.

(** Scenario B of the specification. *)
Example scenario_B :
  manifests (snd (SyncProject (world ignoredBuild) cli []))
  = [{| FileList := [".cw-settings"; "a.txt"; "z.txt"]; DirectoryList := [];
        ModifiedList := ["z.txt"]; TimeStamp := 5000 |}].
Proof. vm_compute. reflexivity. Qed.

(** Scenario C of the specification: the referenced file is recorded at
    its target; its upload is made from the path of its source. *)
Example scenario_C :
  manifests (snd (SyncProject (world shadowed) cli []))
  = [{| FileList := [".cw-refpaths.json"; ".cw-settings"; "lib/lib.js"];
        DirectoryList := ["lib"];
        ModifiedList := ["lib/lib.js"; ".cw-refpaths.json"; ".cw-settings";
                         "lib/lib.js"];
        TimeStamp := 5000 |}].
Proof. vm_compute. reflexivity. Qed.

(* ===================================================================== *)
(** * Further properties of the sync pass *)
(* ===================================================================== *)

(* ===================================================================== *)
(** ** Rules *)
(* ===================================================================== *)

(** X1: a rule cannot tell a file from a directory: the answer of
    [ignoreFileOrDirectory] does not depend on [isDir], so whatever hides a
    file also prunes the directory of that name. *)
Theorem rules_apply_to_files_and_directories_alike name rules :
  ignoreFileOrDirectory name true rules = ignoreFileOrDirectory name false rules.
Proof. apply ignoreFileOrDirectory_isDir. Qed.

Lemma ignoreFileOrDirectory_app_true name isDir base extra :
  ignoreFileOrDirectory name isDir base = true ->
  ignoreFileOrDirectory name isDir (base ++ extra)%list = true.
Proof.
  induction base as [|r base IH]; cbn [app ignoreFileOrDirectory];
    [discriminate|].
  destruct (filepath.Match (cleanRule r) name) as [[|]|]; auto.
Qed.

(** X2: rules appended to a list never bring back a path the list
    ignores. In particular what .cw-settings ignores stays ignored in the
    primary walk, whose list is that of .cw-settings followed by the
    targets of the references. *)
Theorem appended_rules_never_unignore name isDir base extra :
  ignoreFileOrDirectory name isDir base = true ->
  ignoreFileOrDirectory name isDir (base ++ extra)%list = true.
Proof. apply ignoreFileOrDirectory_app_true. Qed.

(** X2 on the rule "build" followed by the target of a reference. *)
Lemma appended_rules_never_unignore_witness :
  ignoreFileOrDirectory "build" true (["build"] ++ ["lib/lib.js"])%list = true.
Proof.
  apply (appended_rules_never_unignore "build" true ["build"] ["lib/lib.js"]).
  vm_compute. reflexivity.
Defined.

(* ===================================================================== *)
(** ** Rules that are plain names *)
(* ===================================================================== *)

Lemma append_empty_r (s : string) : (s ++ EmptyString)%string = s.
Proof. induction s as [|c s IH]; cbn; congruence. Qed.

Lemma append_snoc (cur : string) (c : ascii) (r : string) :
  ((cur ++ String c EmptyString) ++ r)%string = (cur ++ String c r)%string.
Proof. induction cur as [|d cur IH]; cbn; congruence. Qed.

Lemma plainChar_inv c :
  plainChar c = true ->
  Ascii.eqb c "*" = false /\ Ascii.eqb c "?" = false /\ Ascii.eqb c "[" = false /\
  Ascii.eqb c "\" = false /\ Ascii.eqb c "/" = false.
Proof.
  unfold plainChar. rewrite negb_true_iff, !orb_false_iff. tauto.
Qed.

Lemma plainName_inv p :
  plainName p = true ->
  plainChars p = true /\ GoString.isEmpty p = false /\
  String.eqb p "." = false /\ String.eqb p ".." = false /\
  GoString.hasSlashPrefix p = false /\ String.eqb p EmptyString = false.
Proof.
  unfold plainName. rewrite !andb_true_iff, !negb_true_iff.
  intros [[[Hc He] Hd] Hdd]. repeat split; auto.
  - destruct p as [|c p]; [discriminate|]. cbn in Hc.
    apply andb_prop in Hc. destruct Hc as [Hc _].
    apply plainChar_inv in Hc. cbn. tauto.
  - destruct p; [discriminate | reflexivity].
Qed.

Lemma splitSlash_plain s : forall cur,
  plainChars s = true -> GoString.splitSlash cur s = [(cur ++ s)%string].
Proof.
  induction s as [|c s IH]; intros cur H; cbn in *.
  - now rewrite append_empty_r.
  - apply andb_prop in H. destruct H as [Hc Hs].
    apply plainChar_inv in Hc. destruct Hc as (_ & _ & _ & _ & ->).
    rewrite IH by assumption. now rewrite append_snoc.
Qed.

Lemma splitSlash_plain_slash s r : forall cur,
  plainChars s = true ->
  GoString.splitSlash cur (s ++ String "/" r)
  = (cur ++ s)%string :: GoString.splitSlash EmptyString r.
Proof.
  induction s as [|c s IH]; intros cur H; cbn in *.
  - now rewrite append_empty_r.
  - apply andb_prop in H. destruct H as [Hc Hs].
    apply plainChar_inv in Hc. destruct Hc as (_ & _ & _ & _ & ->).
    rewrite IH by assumption. now rewrite append_snoc.
Qed.

(** A plain name is clean, with or without a slash before or after it. *)
Lemma cleanRule_plain p :
  plainName p = true ->
  cleanRule p = p /\ cleanRule ("/" ++ p) = p /\ cleanRule (p ++ "/") = p.
Proof.
  intros H. apply plainName_inv in H.
  destruct H as (Hc & He & Hd & Hdd & Hs & Hn).
  assert (Hp : p <> EmptyString) by (now apply String.eqb_neq).
  unfold cleanRule, filepath.Clean. repeat split.
  - rewrite He, Hs, splitSlash_plain by assumption.
    cbn [fold_left append]. unfold filepath.cleanElem. rewrite Hn, Hd, Hdd.
    cbn. now rewrite He, Hs.
  - cbn [append GoString.isEmpty GoString.hasSlashPrefix GoString.splitSlash].
    cbn [Ascii.eqb Bool.eqb]. cbn [GoString.splitSlash].
    replace (Ascii.eqb "/" "/") with true by reflexivity.
    rewrite splitSlash_plain by assumption.
    cbn [fold_left append]. unfold filepath.cleanElem. cbn [String.eqb orb].
    rewrite Hn, Hd, Hdd. cbn. reflexivity.
  - assert (E1 : GoString.isEmpty (p ++ "/") = false)
      by (destruct p; [contradiction | reflexivity]).
    assert (E2 : GoString.hasSlashPrefix (p ++ "/") = false)
      by (destruct p; [contradiction | exact Hs]).
    rewrite E1, E2, splitSlash_plain_slash by assumption.
    cbn [GoString.splitSlash fold_left append]. unfold filepath.cleanElem.
    rewrite Hn, Hd, Hdd. cbn. now rewrite He, Hs.
Qed.

Lemma afterPrefix_Some p : forall s t,
  afterPrefix p s = Some t <-> s = (p ++ t)%string.
Proof.
  induction p as [|c p IH]; intros s t; cbn.
  - split; [intros H; now injection H | intros ->; reflexivity].
  - destruct s as [|d s]; [split; discriminate|].
    destruct (Ascii.eqb_spec c d) as [->|Hne].
    + rewrite IH. split; [intros ->; reflexivity | intros H; now injection H].
    + split; [discriminate | intros H; injection H; congruence].
Qed.

Lemma length_of_append (p t : string) :
  String.length (p ++ t) = String.length p + String.length t.
Proof. induction p as [|c p IH]; cbn; congruence. Qed.

Lemma afterPrefix_eqb p s :
  String.eqb p s
  = match afterPrefix p s with
    | Some t => GoString.isEmpty t
    | None => false
    end.
Proof.
  destruct (afterPrefix p s) as [t|] eqn:E.
  - apply afterPrefix_Some in E. subst s. destruct t as [|c t]; cbn.
    + rewrite append_empty_r. apply String.eqb_refl.
    + apply String.eqb_neq. intros H.
      apply (f_equal String.length) in H. rewrite length_of_append in H.
      cbn in H. lia.
  - apply String.eqb_neq. intros <-.
    assert (H : afterPrefix p p = Some EmptyString)
      by (apply afterPrefix_Some; now rewrite append_empty_r).
    congruence.
Qed.

Lemma matchChunkFuel_plain p : forall fuel s,
  plainChars p = true -> String.length p < fuel ->
  filepath.matchChunkFuel fuel p s
  = match afterPrefix p s with
    | Some t => filepath.ChunkOk t
    | None => filepath.ChunkFail
    end.
Proof.
  induction p as [|c p IH]; intros fuel s Hp Hf;
    (destruct fuel as [|fuel]; [cbn in Hf; lia|]).
  - reflexivity.
  - cbn in Hp. apply andb_prop in Hp. destruct Hp as [Hc Hp].
    apply plainChar_inv in Hc. destruct Hc as (_ & Hq & Hb & He & _).
    cbn [filepath.matchChunkFuel afterPrefix].
    destruct s as [|d s]; [reflexivity|].
    rewrite Hb, Hq, He.
    destruct (Ascii.eqb c d); [|reflexivity].
    apply IH; [assumption | cbn in Hf; lia].
Qed.

Lemma scanBody_plain p :
  plainChars p = true -> filepath.scanBody false p = (p, EmptyString).
Proof.
  induction p as [|c p IH]; intros Hp; [reflexivity|].
  cbn in Hp. apply andb_prop in Hp. destruct Hp as [Hc Hp].
  apply plainChar_inv in Hc. destruct Hc as (Hs & _ & Hb & He & _).
  cbn [filepath.scanBody]. rewrite He, Hs, Hb. cbn [andb].
  destruct (Ascii.eqb c "]"); now rewrite IH.
Qed.

(** A plain name, taken as a pattern, matches itself and nothing else. *)
Lemma Match_plain p name :
  plainChars p = true -> GoString.isEmpty p = false ->
  filepath.Match p name = Some (String.eqb p name).
Proof.
  intros Hp He. unfold filepath.Match. cbn [filepath.matchLoop]. rewrite He.
  assert (Hscan : filepath.scanChunk p = (false, p, EmptyString)).
  { unfold filepath.scanChunk. destruct p as [|c p]; [discriminate|].
    cbn in Hp. apply andb_prop in Hp. destruct Hp as [Hc Hp'].
    pose proof (plainChar_inv c Hc) as (Hs & _).
    cbn [filepath.dropStars]. rewrite Hs.
    rewrite scanBody_plain; [reflexivity|]. cbn. now rewrite Hc. }
  rewrite Hscan. cbn [andb]. unfold filepath.matchChunk.
  rewrite matchChunkFuel_plain by (auto; lia).
  rewrite afterPrefix_eqb.
  destruct (afterPrefix p name) as [t|]; [|reflexivity].
  destruct t as [|c t]; cbn [GoString.isEmpty orb negb]; [|reflexivity].
  destruct p; [discriminate|]. reflexivity.
Qed.

(** X3: rules that are plain names ignore exactly the paths that are one
    of these names: such a rule hides the entry of that name at the top of
    the project and no path below a directory. *)
Theorem plain_rules_ignore_exactly_their_names name isDir rules :
  Forall (fun r => plainName r = true) rules ->
  ignoreFileOrDirectory name isDir rules = true <-> In name rules.
Proof.
  induction 1 as [|r rules Hr _ IH]; cbn [ignoreFileOrDirectory In].
  - split; [discriminate | tauto].
  - destruct (cleanRule_plain r Hr) as (-> & _ & _).
    apply plainName_inv in Hr. destruct Hr as (Hc & He & _).
    rewrite (Match_plain r name Hc He).
    destruct (String.eqb_spec r name) as [->|Hne]; [tauto|].
    rewrite IH. split; [auto|]. intros [?|?]; [contradiction | assumption].
Qed.

(** X4: a plain name written with a slash before it, as older settings
    files have it, or with a slash after it, is the same rule as the
    name. *)
Theorem slash_around_a_plain_rule_is_dropped p name isDir rules :
  plainName p = true ->
  ignoreFileOrDirectory name isDir (("/" ++ p) :: rules)
  = ignoreFileOrDirectory name isDir (p :: rules) /\
  ignoreFileOrDirectory name isDir ((p ++ "/") :: rules)
  = ignoreFileOrDirectory name isDir (p :: rules).
Proof.
  intros Hp. destruct (cleanRule_plain p Hp) as (E1 & E2 & E3).
  cbn [ignoreFileOrDirectory]. now rewrite E1, E2, E3.
Qed.

(* ===================================================================== *)
(** ** What the walk phases keep *)
(* ===================================================================== *)
Section PhaseInvariants.

Variable w : World.

Variables (projectPath projectID conURL : string) (synctime : Z)
          (connection : Connection).

Section Kept.

(** [C] holds of the trace before and after any upload. *)
Variable C : trace -> trace -> Prop.

Hypothesis C_syncFile : forall path t,
    C t (snd (syncFile w projectID projectPath path connection conURL t)).

Lemma walker_step path info err s :
  walkerStep C s (snd (walker w projectPath projectID conURL connection path info
                              err s)).
Proof.
  destruct err as [e|]; [constructor|].
  rewrite walker_cases. unfold walkerCases.
  destruct (String.eqb path projectPath); [constructor|].
  destruct (GoString.sliceFrom path (String.length projectPath + 1)) as [rel|];
    [|constructor].
  destruct (fileInfo info) as [fi|]; [|constructor].
  destruct (IsDir fi).
  - destruct (ignoreFileOrDirectory rel true (IgnoredPaths info)); constructor.
  - destruct (ignoreFileOrDirectory rel false (IgnoredPaths info)); [constructor|].
    destruct (Z.gtb (millis (ModTime fi)) (LastSync info)); [|constructor].
    pose proof (C_syncFile (Path info) (wsTrace s)) as H.
    destruct (syncFile w projectID projectPath (Path info) connection conURL
                       (wsTrace s)) as [[u|why] t]; cbn [snd] in *.
    + now constructor.
    + now apply StepPanic.
Qed.

Variable R : walkState -> walkState -> Prop.

Hypothesis R_refl : forall s, R s s.

Hypothesis R_trans : forall a b c, R a b -> R b c -> R a c.

Hypothesis R_step : forall s s', walkerStep C s s' -> R s s'.

Hypothesis R_logWalk : forall s, R s (logWalk projectPath s).

Hypothesis R_logStat : forall s path, R s (logStat s path).

Lemma walkLocal_kept ignored s :
  R s (snd (walkLocal w projectPath projectID conURL synctime connection
                      ignored s)).
Proof.
  rewrite walkLocal_eq. eapply R_trans; [apply R_logWalk|].
  apply (Walk_rel (localWalkFn w projectPath projectID conURL synctime connection
                               ignored) R (fun _ => True)); auto.
  - intros. clear. induction entries; constructor; auto.
  - intros. apply R_step, walker_step.
Qed.

Lemma walkRefs_kept base refs : forall errText s,
  R s (snd (walkRefs w projectPath projectID conURL synctime connection
                     base refs errText s)).
Proof.
  induction refs as [|r rest IH]; intros errText s; [apply R_refl|].
  rewrite walkRefs_cons. cbn zeta.
  pose proof (R_logStat s (resolveFrom projectPath r)) as H1.
  destruct (os_Stat w (resolveFrom projectPath r)) as [fi|e];
    [|eapply R_trans; [exact H1 | apply IH]].
  destruct (IsDir fi); [eapply R_trans; [exact H1 | apply IH]|].
  pose proof (walker_step (filepath.Join projectPath (To r))
                (refInfo projectPath base r fi (refCutoff synctime s)) None
                (logStat s (resolveFrom projectPath r))) as H2.
  apply R_step in H2.
  destruct (walker w projectPath projectID conURL connection
                   (filepath.Join projectPath (To r))
                   (refInfo projectPath base r fi (refCutoff synctime s)) None
                   (logStat s (resolveFrom projectPath r))) as [[x|why] s2];
    cbn [snd] in *.
  - eapply R_trans; [exact H1|]. eapply R_trans; [exact H2 | apply IH].
  - eapply R_trans; [exact H1 | exact H2].
Qed.

(** Whatever every step of the walker keeps, the two phases keep. *)
Lemma syncPhases_kept base refs s :
  R s (snd (syncPhases w projectPath projectID conURL synctime connection
                       base refs s)).
Proof.
  unfold syncPhases.
  apply bind_rel; [exact R_trans | apply walkLocal_kept |].
  intros [e|] s1 _; [apply R_refl|].
  apply bind_rel; [exact R_trans | apply walkRefs_kept |].
  intros; apply R_refl.
Qed.

End Kept.

(** What [syncFiles] returns is what the two phases left in the captured
    variables. *)
Lemma syncFiles_info t info warnings t1 :
  syncFiles w projectPath projectID conURL synctime connection t
  = (Ok (Some info, warnings), t1) ->
  exists t0 errText s,
    syncPhases w projectPath projectID conURL synctime connection
               (ignoredPathsOnDisk w projectPath) (refPathsOnDisk w projectPath)
               (initState t0) = (Ok (inr errText), s) /\
    info = wsInfo s /\ t1 = wsTrace s /\
    warnings = snd (resultOfPhases projectPath (inr errText) (wsInfo s)).
Proof.
  destruct (syncFiles_phases w projectPath projectID conURL synctime connection t)
    as (t0 & _ & ->).
  destruct (syncPhases w projectPath projectID conURL synctime connection
                       (ignoredPathsOnDisk w projectPath)
                       (refPathsOnDisk w projectPath) (initState t0))
    as [[[e|errText]|why] s] eqn:E; cbn [resultOfPhases]; try discriminate.
  intros H. exists t0, errText, s. split; [exact E|].
  destruct errText as [|x l]; injection H as <- <- <-; auto.
Qed.

Lemma tidy_step C s s' :
  walkerStep C s s' -> tidy (wsInfo s) -> tidy (wsInfo s').
Proof.
  unfold tidy. intros H [Hi Hl]. destruct H; cbn; auto.
  - split; [|exact Hl]. intros x Hx. apply in_or_app. left. now apply Hi.
  - split.
    + intros x Hx. apply in_app_or in Hx. apply in_or_app.
      destruct Hx as [Hx|Hx]; [left; now apply Hi | now right].
    + rewrite !length_app. cbn. lia.
  - split; [|exact Hl]. intros x Hx. apply in_or_app. left. now apply Hi.
Qed.

Lemma syncFiles_tidy t info warnings t1 :
  syncFiles w projectPath projectID conURL synctime connection t
  = (Ok (Some info, warnings), t1) ->
  tidy info.
Proof.
  intros H. apply syncFiles_info in H.
  destruct H as (t0 & errText & s & E & -> & _ & _).
  pose proof (syncPhases_kept (fun _ _ => True) (fun _ _ => I)
                (fun a b => tidy (wsInfo a) -> tidy (wsInfo b)))
    as K.
  specialize (K (fun _ H => H) (fun _ _ _ H1 H2 H => H2 (H1 H))
                (tidy_step (fun _ _ => True))
                (fun _ H => H) (fun _ _ H => H)
                (ignoredPathsOnDisk w projectPath) (refPathsOnDisk w projectPath)
                (initState t0)).
  rewrite E in K. apply K. split; [intros x []|reflexivity].
Qed.

(** X5: in what [syncFiles] returns, every path of the modified list is
    in the file list, and the uploaded files hold exactly one outcome for
    each path of the modified list. *)
Theorem every_modified_file_is_listed_with_one_outcome t info warnings t1 :
  syncFiles w projectPath projectID conURL synctime connection t
  = (Ok (Some info, warnings), t1) ->
  incl (modifiedList info) (fileList info) /\
  List.length (UploadedFileList info) = List.length (modifiedList info).
Proof. apply syncFiles_tidy. Qed.

Lemma syncFiles_warning t info warnings t1 :
  syncFiles w projectPath projectID conURL synctime connection t
  = (Ok (Some info, warnings), t1) ->
  forall e, warnings = Some e -> Op e = errOpSyncRef.
Proof.
  intros H. apply syncFiles_info in H.
  destruct H as (t0 & errText & s & _ & _ & _ & ->).
  destruct errText as [|x l]; cbn; intros e He; [discriminate|].
  injection He as <-. reflexivity.
Qed.

Lemma noneIgnored_weaken base extra s :
  noneIgnored (base ++ extra)%list s -> noneIgnored base s.
Proof.
  intros [Hf Hd]. split; [revert Hf | revert Hd]; apply Forall_impl; intros p Hp.
  - destruct (ignoreFileOrDirectory p false base) eqn:E; [|reflexivity].
    now rewrite (ignoreFileOrDirectory_app_true _ _ _ extra E) in Hp.
  - destruct (ignoreFileOrDirectory p true base) eqn:E; [|reflexivity].
    now rewrite (ignoreFileOrDirectory_app_true _ _ _ extra E) in Hp.
Qed.

Lemma walkRefs_noneIgnored base refs : forall errText s,
  noneIgnored base s ->
  noneIgnored base
    (snd (walkRefs w projectPath projectID conURL synctime connection
                   base refs errText s)).
Proof.
  induction refs as [|r rest IH]; intros errText s H; [exact H|].
  rewrite walkRefs_cons. cbn zeta.
  assert (H1 : noneIgnored base (logStat s (resolveFrom projectPath r)))
    by exact H.
  destruct (os_Stat w (resolveFrom projectPath r)) as [fi|e]; [|now apply IH].
  destruct (IsDir fi); [now apply IH|].
  pose proof (walker_noneIgnored w projectPath projectID conURL connection
                (filepath.Join projectPath (To r))
                (refInfo projectPath base r fi (refCutoff synctime s)) None _ H1)
    as H2.
  destruct (walker w projectPath projectID conURL connection
                   (filepath.Join projectPath (To r))
                   (refInfo projectPath base r fi (refCutoff synctime s)) None
                   (logStat s (resolveFrom projectPath r))) as [[x|why] s2];
    cbn [snd] in *; [now apply IH | exact H2].
Qed.

(** X6: no path that the rules of .cw-settings ignore is in the file list
    or in the directory list [syncFiles] returns, be it found in the
    project tree or the target of a reference. *)
Theorem ignored_paths_are_never_listed t info warnings t1 :
  syncFiles w projectPath projectID conURL synctime connection t
  = (Ok (Some info, warnings), t1) ->
  Forall (fun p => ignoreFileOrDirectory p false (ignoredPathsOnDisk w projectPath)
                   = false) (fileList info) /\
  Forall (fun p => ignoreFileOrDirectory p true (ignoredPathsOnDisk w projectPath)
                   = false) (directoryList info).
Proof.
  intros H. apply syncFiles_info in H.
  destruct H as (t0 & errText & s & E & -> & _ & _).
  unfold syncPhases in E. apply bind_inv_Ok in E.
  destruct E as (err & s1 & E1 & E2).
  destruct err as [e|]; [discriminate|].
  apply bind_inv_Ok in E2. destruct E2 as (errText' & s2 & E2 & E3).
  injection E3 as _ <-.
  assert (H0 : noneIgnored (ignoredPathsOnDisk w projectPath ++
                            map To (refPathsOnDisk w projectPath))%list
                           (initState t0)) by (split; constructor).
  pose proof (walkLocal_noneIgnored w projectPath projectID conURL synctime
                connection _ _ H0) as H1.
  rewrite E1 in H1. cbn [snd] in H1. apply noneIgnored_weaken in H1.
  pose proof (walkRefs_noneIgnored (ignoredPathsOnDisk w projectPath)
                (refPathsOnDisk w projectPath) [] s1 H1) as H2.
  rewrite E2 in H2. exact H2.
Qed.

Lemma walkRefs_errText base refs : forall errText s errText' s',
  walkRefs w projectPath projectID conURL synctime connection base refs errText s
  = (Ok errText', s') ->
  errText' = (errText ++ invalidRefs w projectPath refs)%list.
Proof.
  induction refs as [|r rest IH]; intros errText s errText' s' H.
  - injection H as <- _. now rewrite app_nil_r.
  - rewrite walkRefs_cons in H. cbn zeta in H. cbn [invalidRefs].
    destruct (os_Stat w (resolveFrom projectPath r)) as [fi|e].
    + destruct (IsDir fi).
      * apply IH in H. rewrite H, <- app_assoc. reflexivity.
      * destruct (walker w projectPath projectID conURL connection _ _ None _)
          as [[x|why] s2]; [|discriminate].
        now apply IH in H.
    + apply IH in H. rewrite H, <- app_assoc. reflexivity.
Qed.

(** X7: a reference whose [from] cannot be examined or is a directory does
    not end the pass. When [syncFiles] returns its lists, it reports every
    such reference, in the order of the rule file, in one error tagged as
    a reference error, and reports no error when there is none. *)
Theorem invalid_references_are_reported_not_fatal t info warnings t1 :
  syncFiles w projectPath projectID conURL synctime connection t
  = (Ok (Some info, warnings), t1) ->
  warnings
  = match invalidRefs w projectPath (refPathsOnDisk w projectPath) with
    | [] => None
    | invalid =>
        Some {| Op := errOpSyncRef; Err := ErrInvalidRefs invalid;
                Desc := DescOf (ErrInvalidRefs invalid) |}
    end.
Proof.
  intros H. apply syncFiles_info in H.
  destruct H as (t0 & errText & s & E & _ & _ & ->).
  unfold syncPhases in E. apply bind_inv_Ok in E.
  destruct E as (err & s1 & E1 & E2).
  destruct err as [e|]; [discriminate|].
  apply bind_inv_Ok in E2. destruct E2 as (errText' & s2 & E2 & E3).
  injection E3 as <- <-.
  apply walkRefs_errText in E2. cbn [app] in E2. rewrite <- E2.
  destruct errText' as [|x l]; reflexivity.
Qed.

End PhaseInvariants.

(* ===================================================================== *)
(** ** Where the error of a walk comes from *)
(* ===================================================================== *)
Section WalkErrors.

Variable w : World.

Variables (projectPath projectID conURL : string) (synctime : Z)
          (connection : Connection).

Variable ignored : list string.

(** The walker returns an error only when it is given one, and [SkipDir]
    only for a directory. *)
Lemma localWalkFn_error n path s e s' :
  localWalkFn w projectPath projectID conURL synctime connection ignored
              path (lstatInfo n) (walkErr n) s = (Ok (Some e), s') ->
  (e = SkipDir /\ isDirNode n = true) \/ exists oe, e = ErrOS oe.
Proof.
  unfold localWalkFn.
  destruct (walkErr n) as [e0|] eqn:En.
  - rewrite walker_error. intros H. injection H as <- _.
    destruct n; cbn in En; try discriminate; injection En as <-; eauto.
  - rewrite walker_cases. unfold walkerCases.
    cbn [fileInfo IgnoredPaths LastSync Path].
    destruct (String.eqb path projectPath); [discriminate|].
    destruct (GoString.sliceFrom path (String.length projectPath + 1)) as [rel|];
      [|discriminate].
    destruct n as [mt perm|mt perm entries|mt perm oe|oe]; cbn in En;
      try discriminate; cbn [lstatInfo IsDir ModTime].
    + destruct (ignoreFileOrDirectory rel false ignored); [discriminate|].
      destruct (Z.gtb (millis mt) synctime); [|discriminate].
      destruct (syncFile w projectID projectPath path connection conURL
                         (wsTrace s)) as [[u|why] t]; discriminate.
    + destruct (ignoreFileOrDirectory rel true ignored); [|discriminate].
      intros H. injection H as <- _. left. auto.
Qed.

Lemma walk_error n : forall path s e s',
  walk (localWalkFn w projectPath projectID conURL synctime connection ignored)
       path n s = (Ok (Some e), s') ->
  (e = SkipDir /\ isDirNode n = true) \/ exists oe, e = ErrOS oe.
Proof.
  induction n as [mt perm|mt perm entries IH|mt perm oe|oe] using fsnode_tree_ind;
    intros path s e s' H.
  - exact (localWalkFn_error (FsFile mt perm) path s e s' H).
  - rewrite walk_dir in H.
    pose proof (localWalkFn_error (FsDir mt perm entries) path s) as Hw.
    cbn [walkErr] in Hw.
    destruct (localWalkFn w projectPath projectID conURL synctime connection
                          ignored path (lstatInfo (FsDir mt perm entries)) None s)
      as [[[e0|]|why] s1]; [|clear Hw|discriminate].
    { injection H as <- <-. exact (Hw _ _ eq_refl). }
    right. revert s1 H.
    induction entries as [|[name child] rest IHrest]; intros s1 H;
      [discriminate|].
    inversion IH as [|? ? IHc IHr]; subst. cbn [snd] in IHc.
    cbn [walkEntries] in H. unfold bind in H.
    specialize (IHc (filepath.Join path name) s1).
    destruct (walk _ (filepath.Join path name) child s1) as [[[e1|]|why] s2];
      [|now apply (IHrest IHr s2)|discriminate].
    destruct (IHc e1 s2 eq_refl) as [[-> Hdir]|(oe & ->)].
    + destruct child; cbn in Hdir; try discriminate Hdir;
        cbn [isDirNode isSkipDir negb orb] in H; now apply (IHrest IHr s2).
    + destruct child; cbn [isDirNode isSkipDir negb orb] in H;
        injection H as <- _; eauto.
  - exact (localWalkFn_error (FsUnreadableDir mt perm oe) path s e s' H).
  - exact (localWalkFn_error (FsLstatErr oe) path s e s' H).
Qed.

Lemma walkLocal_error s e s' :
  walkLocal w projectPath projectID conURL synctime connection ignored s
  = (Ok (Some e), s') ->
  exists oe, e = ErrOS oe.
Proof.
  rewrite walkLocal_eq. unfold Walk, bind.
  pose proof (walk_error (walkRoot w projectPath) projectPath
                         (logWalk projectPath s)) as Hw.
  destruct (walk _ projectPath (walkRoot w projectPath) (logWalk projectPath s))
    as [[[e0|]|why] s1]; try discriminate.
  destruct (Hw e0 s1 eq_refl) as [[-> _]|(oe & ->)]; [discriminate|].
  intros H. injection H as <- _. eauto.
Qed.

End WalkErrors.

Section WalkErrorsOfSyncFiles.

Variable w : World.

Variables (projectPath projectID conURL : string) (synctime : Z)
          (connection : Connection).

(** X8: [syncFiles] returns without its lists only for an error of the
    walk of the project tree, and the cause of that error is always an
    error of the file system: an entry that could not be examined or a
    directory that could not be read. No rule and no upload makes the walk
    fail. *)
Theorem walk_errors_come_from_the_file_system t err t1 :
  syncFiles w projectPath projectID conURL synctime connection t
  = (Ok (None, err), t1) ->
  exists oe,
    err = Some {| Op := errOpSync; Err := ErrWalking projectPath (ErrOS oe);
                  Desc := DescOf (ErrWalking projectPath (ErrOS oe)) |}.
Proof.
  destruct (syncFiles_phases w projectPath projectID conURL synctime connection t)
    as (t0 & _ & ->).
  destruct (syncPhases w projectPath projectID conURL synctime connection
                       (ignoredPathsOnDisk w projectPath)
                       (refPathsOnDisk w projectPath) (initState t0))
    as [[[e|[|x l]]|why] s] eqn:E; cbn [resultOfPhases]; try discriminate.
  intros H. injection H as <- _.
  unfold syncPhases in E. apply bind_inv_Ok in E.
  destruct E as ([e0|] & s1 & E1 & E2).
  - injection E2 as <- _. apply walkLocal_error in E1.
    destruct E1 as (oe & ->). eauto.
  - apply bind_inv_Ok in E2. destruct E2 as (errText & s2 & _ & E3).
    discriminate E3.
Qed.

End WalkErrorsOfSyncFiles.

(* ===================================================================== *)
(** ** What the lists depend on *)
(* ===================================================================== *)
Section WalkAlike.

Context {S1 S2 : Type}.

Variable f1 : string -> option FileInfo -> option goError -> M S1 (option goError).

Variable f2 : string -> option FileInfo -> option goError -> M S2 (option goError).

Variable Rel : S1 -> S2 -> Prop.

Hypothesis f_agree : forall path info err s1 s2,
    Rel s1 s2 -> agree Rel (f1 path info err s1) (f2 path info err s2).

Lemma agree_panic_r {A : Type} (r1 : outcome A * S1) why (s2 : S2) :
  agree Rel r1 (Panic why, s2).
Proof. destruct r1 as [[a|w1] s1]; exact I. Qed.

Lemma agree_Ok {A : Type} (a : A) s1 s2 :
  Rel s1 s2 -> agree Rel (Ok a, s1) (Ok a, s2).
Proof. intros H. split; [reflexivity | exact H]. Qed.

Lemma walkEntries_agree path entries :
  Forall (fun p => forall path s1 s2,
              Rel s1 s2 ->
              agree Rel (walk f1 path (snd p) s1) (walk f2 path (snd p) s2))
         entries ->
  forall s1 s2,
    Rel s1 s2 ->
    agree Rel (walkEntries f1 path entries s1) (walkEntries f2 path entries s2).
Proof.
  induction 1 as [|[name child] rest IHc _ IHrest]; intros s1 s2 HR.
  - now apply agree_Ok.
  - cbn [snd] in IHc. cbn [walkEntries]. unfold bind.
    specialize (IHc (filepath.Join path name) s1 s2 HR).
    destruct (walk f1 (filepath.Join path name) child s1) as [[r1|why1] t1];
      [|exact I].
    destruct (walk f2 (filepath.Join path name) child s2) as [[r2|why2] t2];
      [|apply agree_panic_r].
    destruct IHc as [<- HRt].
    destruct r1 as [e|]; [|now apply IHrest].
    destruct child; cbn [isDirNode negb orb];
      try (now apply agree_Ok);
      destruct (isSkipDir e); cbn [negb];
      try (now apply agree_Ok); now apply IHrest.
Qed.

(** Two walk functions that agree at every entry give walks that agree. *)
Lemma walk_agree n : forall path s1 s2,
  Rel s1 s2 -> agree Rel (walk f1 path n s1) (walk f2 path n s2).
Proof.
  induction n as [mt perm|mt perm entries IH|mt perm oe|oe] using fsnode_tree_ind;
    intros path s1 s2 HR; try (cbn [walk]; now apply f_agree).
  rewrite !walk_dir.
  pose proof (f_agree path (lstatInfo (FsDir mt perm entries)) None s1 s2 HR) as H.
  destruct (f1 path _ None s1) as [[r1|why1] s1']; [|exact I].
  destruct (f2 path _ None s2) as [[r2|why2] s2'].
  - destruct H as [<- HR']. destruct r1 as [e|]; [now apply agree_Ok|].
    now apply walkEntries_agree.
  - destruct r1 as [e|]; apply agree_panic_r.
Qed.

Lemma Walk_agree root tree s1 s2 :
  Rel s1 s2 -> agree Rel (Walk f1 root tree s1) (Walk f2 root tree s2).
Proof.
  intros HR. unfold Walk, bind. pose proof (walk_agree tree root s1 s2 HR) as H.
  destruct (walk f1 root tree s1) as [[r1|why1] t1]; [|exact I].
  destruct (walk f2 root tree s2) as [[r2|why2] t2].
  - destruct H as [<- HRt]. destruct r1 as [[]|]; now apply agree_Ok.
  - destruct r1 as [[]|]; apply agree_panic_r.
Qed.

End WalkAlike.

Section ListsAlike.

Variable w : World.

Variables (projectPath projectID conURL : string) (connection : Connection).

(** The two cutoffs. *)
Variables (synctime synctime' : Z).

Lemma walker_alike path info1 info2 err s1 s2 :
  fileInfo info1 = fileInfo info2 ->
  IgnoredPaths info1 = IgnoredPaths info2 ->
  sameLists s1 s2 ->
  agree sameLists
        (walker w projectPath projectID conURL connection path info1 err s1)
        (walker w projectPath projectID conURL connection path info2 err s2).
Proof.
  intros Hfi Hign [Hf Hd].
  destruct err as [e|]; [rewrite !walker_error; split; [reflexivity | now split]|].
  rewrite !walker_cases. unfold walkerCases. rewrite <- Hfi, <- Hign.
  destruct (String.eqb path projectPath); [split; [reflexivity | now split]|].
  destruct (GoString.sliceFrom path (String.length projectPath + 1)) as [rel|];
    [|exact I].
  destruct (fileInfo info1) as [fi|]; [|exact I].
  destruct (IsDir fi).
  - destruct (ignoreFileOrDirectory rel true (IgnoredPaths info1)).
    + split; [reflexivity | now split].
    + split; [reflexivity|]. split; cbn; congruence.
  - destruct (ignoreFileOrDirectory rel false (IgnoredPaths info1));
      [split; [reflexivity | now split]|].
    assert (Hs : forall u1 t1 u2 t2,
               sameLists (afterUpload s1 rel u1 t1) (afterUpload s2 rel u2 t2))
      by (intros; split; cbn; congruence).
    assert (Hm : forall u1 t1,
               sameLists (afterUpload s1 rel u1 t1)
                         (setInfo s2 (appendFile rel (wsInfo s2))))
      by (intros; split; cbn; congruence).
    assert (Hm' : forall u2 t2,
               sameLists (setInfo s1 (appendFile rel (wsInfo s1)))
                         (afterUpload s2 rel u2 t2))
      by (intros; split; cbn; congruence).
    assert (Hn : sameLists (setInfo s1 (appendFile rel (wsInfo s1)))
                           (setInfo s2 (appendFile rel (wsInfo s2))))
      by (split; cbn; congruence).
    destruct (Z.gtb (millis (ModTime fi)) (LastSync info1));
      [destruct (syncFile w projectID projectPath (Path info1) connection conURL
                          (wsTrace s1)) as [[u1|why1] t1]; [|exact I]|];
      (destruct (Z.gtb (millis (ModTime fi)) (LastSync info2));
       [destruct (syncFile w projectID projectPath (Path info2) connection conURL
                           (wsTrace s2)) as [[u2|why2] t2];
        [|exact I]|]);
      split; auto.
Qed.

Lemma walkLocal_alike ignored s1 s2 :
  sameLists s1 s2 ->
  agree sameLists
        (walkLocal w projectPath projectID conURL synctime connection ignored s1)
        (walkLocal w projectPath projectID conURL synctime' connection ignored s2).
Proof.
  intros H. rewrite !walkLocal_eq. apply Walk_agree; [|exact H].
  intros path info err a b Hab. unfold localWalkFn.
  now apply walker_alike.
Qed.

Lemma walkRefs_alike base refs : forall errText s1 s2,
  sameLists s1 s2 ->
  agree sameLists
        (walkRefs w projectPath projectID conURL synctime connection base refs
                  errText s1)
        (walkRefs w projectPath projectID conURL synctime' connection base refs
                  errText s2).
Proof.
  induction refs as [|r rest IH]; intros errText s1 s2 H;
    [split; [reflexivity | exact H]|].
  rewrite !walkRefs_cons. cbn zeta.
  assert (H1 : sameLists (logStat s1 (resolveFrom projectPath r))
                         (logStat s2 (resolveFrom projectPath r))) by exact H.
  destruct (os_Stat w (resolveFrom projectPath r)) as [fi|e]; [|now apply IH].
  destruct (IsDir fi); [now apply IH|].
  pose proof (walker_alike (filepath.Join projectPath (To r))
                (refInfo projectPath base r fi (refCutoff synctime s1))
                (refInfo projectPath base r fi (refCutoff synctime' s2)) None
                _ _ eq_refl eq_refl H1) as H2.
  destruct (walker w projectPath projectID conURL connection
                   (filepath.Join projectPath (To r))
                   (refInfo projectPath base r fi (refCutoff synctime s1)) None
                   (logStat s1 (resolveFrom projectPath r))) as [[x1|why1] a];
    [|exact I].
  destruct (walker w projectPath projectID conURL connection
                   (filepath.Join projectPath (To r))
                   (refInfo projectPath base r fi (refCutoff synctime' s2)) None
                   (logStat s2 (resolveFrom projectPath r))) as [[x2|why2] b].
  - destruct H2 as [_ Hab]. now apply IH.
  - match goal with
    | |- agree _ ?x _ => destruct x as [[?|?] ?]; exact I
    end.
Qed.

Lemma syncPhases_alike base refs s1 s2 :
  sameLists s1 s2 ->
  agree sameLists
        (syncPhases w projectPath projectID conURL synctime connection base refs s1)
        (syncPhases w projectPath projectID conURL synctime' connection base refs
                    s2).
Proof.
  intros H. unfold syncPhases, bind.
  pose proof (walkLocal_alike (base ++ map To refs)%list s1 s2 H) as H1.
  destruct (walkLocal w projectPath projectID conURL synctime connection _ s1)
    as [[e1|why1] a]; [|exact I].
  destruct (walkLocal w projectPath projectID conURL synctime' connection _ s2)
    as [[e2|why2] b].
  - destruct H1 as [<- Hab]. destruct e1 as [e|]; [split; auto|].
    pose proof (walkRefs_alike base refs [] a b Hab) as H2.
    destruct (walkRefs w projectPath projectID conURL synctime connection base
                       refs [] a) as [[x1|why1] a']; [|exact I].
    destruct (walkRefs w projectPath projectID conURL synctime' connection base
                       refs [] b) as [[x2|why2] b']; [|exact I].
    destruct H2 as [<- Hab']. split; auto.
  - destruct e1 as [e|]; [exact I|].
    destruct (walkRefs w projectPath projectID conURL synctime connection base
                       refs [] a) as [[x1|why1] a']; exact I.
Qed.

(** X9: the file list and the directory list [syncFiles] returns are
    those of the file system: two passes over the same files return the
    same two lists, whatever their cutoffs and whatever was sent and
    answered before and during each of them. *)
Theorem lists_do_not_depend_on_the_cutoff t info warnings t1
        t' info' warnings' t1' :
  syncFiles w projectPath projectID conURL synctime connection t
  = (Ok (Some info, warnings), t1) ->
  syncFiles w projectPath projectID conURL synctime' connection t'
  = (Ok (Some info', warnings'), t1') ->
  fileList info = fileList info' /\ directoryList info = directoryList info'.
Proof.
  intros H H'. apply syncFiles_info in H. apply syncFiles_info in H'.
  destruct H as (t0 & errText & s & E & -> & _ & _).
  destruct H' as (t0' & errText' & s' & E' & -> & _ & _).
  pose proof (syncPhases_alike (ignoredPathsOnDisk w projectPath)
                (refPathsOnDisk w projectPath) (initState t0) (initState t0'))
    as A.
  rewrite E, E' in A. apply A. split; reflexivity.
Qed.

End ListsAlike.

(* ===================================================================== *)
(** ** Uploads *)
(* ===================================================================== *)
Section UploadFacts.

Variable w : World.

Variables (projectPath projectID conURL : string) (synctime : Z)
          (connection : Connection).

Lemma sliceFrom_None s n :
  GoString.sliceFrom s n = None <-> String.length s < n.
Proof.
  unfold GoString.sliceFrom. destruct (Nat.leb_spec n (String.length s)).
  - split; [discriminate | lia].
  - split; auto.
Qed.

(** X10: [syncFile] cuts the path after the project path and one more
    character. Given a path that is not longer than the project path, it
    panics on the slice before it has made any call; given a longer one,
    the slice is in range and the file is examined first. *)
Theorem syncFile_needs_a_path_longer_than_the_project path t :
  (String.length path <= String.length projectPath ->
   syncFile w projectID projectPath path connection conURL t
   = (Panic SliceBoundsOutOfRange, t)) /\
  (String.length projectPath < String.length path ->
   fst (syncFile w projectID projectPath path connection conURL t)
   <> Panic SliceBoundsOutOfRange /\
   exists evs,
     snd (syncFile w projectID projectPath path connection conURL t)
     = (t ++ EvStat path :: evs)%list).
Proof.
  rewrite syncFile_cases. unfold syncFileCases. split; intros H.
  - assert (E : GoString.sliceFrom path (String.length projectPath + 1) = None)
      by (apply sliceFrom_None; lia).
    now rewrite E.
  - destruct (GoString.sliceFrom path (String.length projectPath + 1))
      as [rel|] eqn:E; [|apply sliceFrom_None in E; lia].
    cbv zeta. unfold record.
    destruct (os_Stat w path) as [fi|e]; cbn [fst snd];
      [|split; [discriminate | now exists []]].
    destruct (ioutil_ReadFile w path) as [content|]; cbn [fst snd];
      [|split; [discriminate | exists [EvReadFile path];
                               now rewrite <- app_assoc]].
    destruct (sechttp_Dispatch w _ _ connection); cbn [fst snd];
      (split; [discriminate|]);
      eexists; rewrite <- !app_assoc; reflexivity.
Qed.

(** X11: [findNewFiles] returns the empty list without a call, whatever
    the state of the files, exactly when the remote's list holds every
    file of the computed list. *)
Theorem findNewFiles_is_silent_when_nothing_is_new before after t :
  incl after before <->
  findNewFiles w projectPath projectID conURL connection before after t
  = (Ok [], t).
Proof.
  split.
  - induction after as [|f rest IH]; intros Hincl; [reflexivity|].
    cbn [findNewFiles].
    assert (Hf : existsIn f before = true).
    { apply existsIn_In. apply Hincl. now left. }
    rewrite Hf. cbn [negb]. apply IH. intros x Hx. apply Hincl. now right.
  - intros H f Hf.
    destruct (findNewFiles_Ok w projectPath projectID conURL connection
                before after t [] t H) as (Hadded & _).
    destruct (existsIn f before) eqn:E; [now apply existsIn_In|].
    assert (Hin : In f (unknownTo before after)).
    { apply unknownTo_In. split; [exact Hf|]. intros Hb.
      apply existsIn_In in Hb. congruence. }
    rewrite <- Hadded in Hin. destruct Hin.
Qed.

(** X12: a reference is recorded under its [to] path and uploaded under
    its [from] path. For a valid reference that is newer than the cutoff,
    the loop over the references appends the path cut from [to] to the
    file list and to the modified list; the file system is asked twice for
    the file at [from], the file is read, and the request that carries it
    names the path cut from [from], as does the outcome it records. *)
Theorem referenced_file_is_uploaded_under_its_from_path
        base r fi relTo relFrom content s :
  recordedRef w projectPath base r fi relTo ->
  (refCutoff synctime s < millis (ModTime fi))%Z ->
  GoString.sliceFrom (resolveFrom projectPath r) (String.length projectPath + 1)
  = Some relFrom ->
  ioutil_ReadFile w (resolveFrom projectPath r) = Some content ->
  (forall e,
      sechttp_Dispatch w
        (wsTrace s ++ [EvStat (resolveFrom projectPath r);
                       EvStat (resolveFrom projectPath r);
                       EvReadFile (resolveFrom projectPath r)])%list
        (uploadRequest projectID conURL relFrom fi content) connection
      <> RequestError e) ->
  exists s' u,
    walkRefs w projectPath projectID conURL synctime connection base [r] [] s
    = (Ok [], s') /\
    fileList (wsInfo s') = (fileList (wsInfo s) ++ [relTo])%list /\
    modifiedList (wsInfo s') = (modifiedList (wsInfo s) ++ [relTo])%list /\
    UploadedFileList (wsInfo s') = (UploadedFileList (wsInfo s) ++ [u])%list /\
    FilePath u = relFrom /\
    wsTrace s'
    = (wsTrace s ++ [EvStat (resolveFrom projectPath r);
                     EvStat (resolveFrom projectPath r);
                     EvReadFile (resolveFrom projectPath r);
                     EvSend (uploadRequest projectID conURL relFrom fi content)])%list.
Proof.
  intros (Hstat & Hdir & Hroot & Hrel & Hign) Hnew Hfrom Hread Hsend.
  rewrite walkRefs_cons. cbn zeta. rewrite Hstat, Hdir.
  rewrite walker_cases. unfold walkerCases.
  cbn [refInfo fileInfo IgnoredPaths LastSync Path].
  rewrite Hroot, Hrel, Hdir, Hign.
  apply Z.gtb_lt in Hnew. rewrite Hnew.
  rewrite syncFile_cases. unfold syncFileCases.
  rewrite Hfrom, Hstat, Hread. cbv zeta.
  cbn [logStat wsTrace]. unfold record. rewrite <- !app_assoc. cbn [app].
  destruct (sechttp_Dispatch w _ (uploadRequest projectID conURL relFrom fi content)
                             connection) as [e|desc|status code] eqn:E.
  - exfalso. exact (Hsend e eq_refl).
  - eexists _, _. cbn [walkRefs ret]. split; [reflexivity|].
    cbn. rewrite <- ?app_assoc. repeat split; reflexivity.
  - eexists _, _. cbn [walkRefs ret]. split; [reflexivity|].
    cbn. rewrite <- ?app_assoc. repeat split; reflexivity.
Qed.

End UploadFacts.

(* ===================================================================== *)
(** ** The pass as a whole *)
(* ===================================================================== *)
Section PassFurther.

Variable w : World.

Variable c : cliContext.

Variables (connection : Connection) (conURL : string).

Let projectPath : string := GoString.TrimSpace (flagPath c).

Let projectID : string := GoString.TrimSpace (flagID c).

Hypothesis Hresolved : resolved w c connection conURL.

(** X13: when the project directory does not exist and the remote's record
    of the project cannot be fetched, [SyncProject] returns the error of
    the fetch as it is; it has asked for the directory and for the record,
    and sends no notification of a missing directory. *)
Theorem missing_directory_without_project_record t e :
  utils_PathExists w projectPath = false ->
  GetProjectFromID w (record t (EvPathExists projectPath)) connection conURL
                   projectID = inl e ->
  SyncProject w c t
  = (Ok (None, Some e),
     (t ++ [EvPathExists projectPath; EvGetProject conURL projectID])%list).
Proof.
  intros Hex Hinfo. destruct Hresolved as [(conID & Hid & Hcon) Hurl].
  unfold SyncProject. unfold bind at 1. unfold now.
  rewrite Hid, Hcon, Hurl. unfold bind at 1. unfold pathExists.
  fold projectPath projectID. rewrite Hex. cbn [negb].
  unfold bind at 1. unfold getProjectFromID. rewrite Hinfo.
  unfold record. rewrite <- !app_assoc. reflexivity.
Qed.

Hypothesis Hpresent : utils_PathExists w projectPath = true.

(** A pass that returns has called [completeUpload] on the manifest of
    what [syncFiles] and the reconciliation found, stamped with the time
    read at the start of the pass, and answers with the status of that
    request. *)
Lemma SyncProject_Ok t resp err t' :
  SyncProject w c t = (Ok (resp, err), t') ->
  exists info t1 added t2,
    syncFiles w projectPath projectID conURL (flagTime c) connection
              (record t (EvPathExists projectPath))
    = (Ok (Some info, err), t1) /\
    reconcile w projectPath projectID conURL connection (fileList info) t1
    = (Ok added, t2) /\
    t' = afterRequest w connection t2
           (completionRequest projectID conURL
                              (manifest info added (stampAt w t))) /\
    resp = Some
      {| respStatus :=
           fst (statusOf (sechttp_Dispatch w t2
                  (completionRequest projectID conURL
                                     (manifest info added (stampAt w t)))
                  connection));
         respStatusCode :=
           snd (statusOf (sechttp_Dispatch w t2
                  (completionRequest projectID conURL
                                     (manifest info added (stampAt w t)))
                  connection));
         UploadedFiles := UploadedFileList info |}.
Proof.
  intros Hrun.
  rewrite (SyncProject_present w c connection conURL Hresolved t Hpresent) in Hrun.
  now apply syncAndComplete_Ok in Hrun.
Qed.

(** The walk phases and the reconciliation of a pass that returns have
    dispatched no manifest. *)
Lemma SyncProject_Ok_completions t info err t1 added t2 :
  syncFiles w projectPath projectID conURL (flagTime c) connection
            (record t (EvPathExists projectPath))
  = (Ok (Some info, err), t1) ->
  reconcile w projectPath projectID conURL connection (fileList info) t1
  = (Ok added, t2) ->
  completions t2 = completions t.
Proof.
  intros Hsync Hrec.
  rewrite (phases_completions _ _ _ _ _ _ _ _ _ _ _ _ Hsync Hrec).
  unfold record. rewrite completions_app. cbn. lia.
Qed.

(** X14: every path of the modified list of the manifest a pass ends
    with is in the file list of that manifest: the walk phases mark only
    files they list, and the reconciliation adds only files of the list.
    The manifest is the only one of the pass and its last request; it is
    dispatched when [http.NewRequest] builds the request. *)
Theorem manifest_modified_files_are_listed t resp err t' :
  SyncProject w c t = (Ok (resp, err), t') ->
  exists t2 creq,
    completions t2 = completions t /\
    t' = afterRequest w connection t2
           (completionRequest projectID conURL creq) /\
    incl (ModifiedList creq) (FileList creq).
Proof.
  intros Hrun. apply SyncProject_Ok in Hrun.
  destruct Hrun as (info & t1 & added & t2 & Hsync & Hrec & -> & _).
  exists t2, (manifest info added (stampAt w t)).
  split; [exact (SyncProject_Ok_completions _ _ _ _ _ _ Hsync Hrec)|].
  split; [reflexivity|].
  cbn [manifest ModifiedList FileList].
  apply syncFiles_tidy in Hsync. destruct Hsync as [Hincl _].
  apply reconcile_shape in Hrec. destruct Hrec as (recon & _ & _ & Hshape).
  intros f Hf. apply in_app_or in Hf. destruct Hf as [Hf|Hf]; [now apply Hincl|].
  destruct (GetProjectFileList w t1 connection conURL projectID) as [e|before].
  - destruct Hshape as [-> _]. destruct Hf.
  - destruct Hshape as [-> _]. now apply unknownTo_In in Hf.
Qed.

(** X15: the time stamp of the manifest is the clock as it was read at the
    start of the pass, before the project was looked at, in milliseconds
    and rounded towards zero. The manifest is the only one of the pass and
    its last request; it is dispatched when [http.NewRequest] builds the
    request. *)
Theorem manifest_time_stamp_is_the_start_of_the_pass t resp err t' :
  SyncProject w c t = (Ok (resp, err), t') ->
  exists t2 creq,
    completions t2 = completions t /\
    t' = afterRequest w connection t2
           (completionRequest projectID conURL creq) /\
    TimeStamp creq = Z.quot (time_Now w t) 1000000.
Proof.
  intros Hrun. apply SyncProject_Ok in Hrun.
  destruct Hrun as (info & t1 & added & t2 & Hsync & Hrec & -> & _).
  exists t2, (manifest info added (stampAt w t)).
  split; [exact (SyncProject_Ok_completions _ _ _ _ _ _ Hsync Hrec)|].
  split; reflexivity.
Qed.

(** X16: the result of a pass carries the answer to the completion request:
    the status line and the code of the remote or, when the request could
    not be made, the description of the failure and the code 0; a request
    that could not be built is not dispatched. Such a failure is no error
    of the pass: the only error a pass returns beside a result is the
    warning about invalid references. *)
Theorem completion_failure_is_not_an_error t resp err t' :
  SyncProject w c t = (Ok (resp, err), t') ->
  exists r t2 creq,
    resp = Some r /\
    completions t2 = completions t /\
    match sechttp_Dispatch w t2 (completionRequest projectID conURL creq)
                           connection with
    | Response status code =>
        t' = record t2 (EvSend (completionRequest projectID conURL creq)) /\
        respStatus r = status /\ respStatusCode r = code
    | TransportError desc =>
        t' = record t2 (EvSend (completionRequest projectID conURL creq)) /\
        respStatus r = desc /\ respStatusCode r = 0%Z
    | RequestError e =>
        t' = t2 /\ respStatus r = e /\ respStatusCode r = 0%Z
    end /\
    forall e, err = Some e -> Op e = errOpSyncRef.
Proof.
  intros Hrun. apply SyncProject_Ok in Hrun.
  destruct Hrun as (info & t1 & added & t2 & Hsync & Hrec & -> & ->).
  eexists _, t2, (manifest info added (stampAt w t)).
  split; [reflexivity|].
  split; [exact (SyncProject_Ok_completions _ _ _ _ _ _ Hsync Hrec)|]. split.
  - cbn [respStatus respStatusCode]. unfold afterRequest.
    destruct (sechttp_Dispatch w t2 _ connection); cbn; auto.
  - exact (syncFiles_warning w _ _ _ _ _ _ _ _ _ Hsync).
Qed.

End PassFurther.

(** X17: when the connection of the project cannot be resolved,
    [SyncProject] returns an error and no result, and has made no call:
    the project is not looked at and nothing is sent. The error is that of
    the lookup of the connection of the project, or is tagged as
    "connection not found". *)
Theorem unresolved_connection_touches_nothing w c t :
  (forall connection conURL, ~ resolved w c connection conURL) ->
  exists e,
    SyncProject w c t = (Ok (None, Some e), t) /\
    (GetConnectionID w (GoString.TrimSpace (flagID c)) = inl e \/
     Op e = errOpConNotFound).
Proof.
  intros Hno. unfold SyncProject. unfold bind at 1. unfold now.
  destruct (GetConnectionID w (GoString.TrimSpace (flagID c)))
    as [projErr|conID] eqn:Hid; [eexists; split; [reflexivity | now left]|].
  destruct (connections_GetConnectionByID w conID) as [ce|connection] eqn:Hcon;
    [eexists; split; [reflexivity | now right]|].
  destruct (config_PFEOriginFromConnection w connection) as [ue|conURL] eqn:Hurl;
    [eexists; split; [reflexivity | now right]|].
  exfalso. apply (Hno connection conURL). split; [exists conID|]; auto.
Qed.

(* ===================================================================== *)
(** ** The calls of a pass *)
(* ===================================================================== *)
Section CallFacts.

Variable w : World.

Variables (projectPath projectID conURL : string) (synctime : Z)
          (connection : Connection).

Lemma onlyProjectCalls_refl t : onlyProjectCalls conURL projectID t t.
Proof. exists []. split; [now rewrite app_nil_r | constructor]. Qed.

Lemma onlyProjectCalls_trans a b c :
  onlyProjectCalls conURL projectID a b ->
  onlyProjectCalls conURL projectID b c ->
  onlyProjectCalls conURL projectID a c.
Proof.
  intros (e1 & -> & H1) (e2 & -> & H2). exists (e1 ++ e2)%list. split.
  - now rewrite app_assoc.
  - apply Forall_app. now split.
Qed.

Lemma onlyProjectCalls_record t e :
  projectCall conURL projectID e ->
  onlyProjectCalls conURL projectID t (record t e).
Proof. intros H. exists [e]. split; [reflexivity | now repeat constructor]. Qed.

Ltac calls_step :=
  eapply onlyProjectCalls_trans;
  [|apply onlyProjectCalls_record; cbn; auto].

Lemma uploadRequest_projectRequest rel fi content :
  projectRequest conURL projectID (uploadRequest projectID conURL rel fi content).
Proof. left. cbn. eauto. Qed.

Lemma syncFile_calls path t :
  onlyProjectCalls conURL projectID t
    (snd (syncFile w projectID projectPath path connection conURL t)).
Proof.
  rewrite syncFile_cases. unfold syncFileCases.
  destruct (GoString.sliceFrom path (String.length projectPath + 1)) as [rel|];
    [|apply onlyProjectCalls_refl].
  cbv zeta. destruct (os_Stat w path) as [fi|e]; cbn [snd];
    [|calls_step; apply onlyProjectCalls_refl].
  destruct (ioutil_ReadFile w path) as [content|]; cbn [snd];
    [|calls_step; calls_step; apply onlyProjectCalls_refl].
  assert (H0 : onlyProjectCalls conURL projectID t
                 (record (record t (EvStat path)) (EvReadFile path))).
  { calls_step; calls_step; apply onlyProjectCalls_refl. }
  assert (H : onlyProjectCalls conURL projectID t
                (record (record (record t (EvStat path)) (EvReadFile path))
                        (EvSend (uploadRequest projectID conURL rel fi content)))).
  { eapply onlyProjectCalls_trans;
      [exact H0
      |apply onlyProjectCalls_record; apply uploadRequest_projectRequest]. }
  destruct (sechttp_Dispatch w _ _ connection); [exact H0 | exact H | exact H].
Qed.

Lemma rules_calls {A : Type} (path : string) (decode : string -> option (list A))
      t :
  onlyProjectCalls conURL projectID t
    (snd ((st <- stat w path ;;
           if negb (isNotExist st) then
             plan <- readFile w path ;;
             match plan with
             | None => ret []
             | Some text =>
                 match decode text with
                 | Some l => ret l
                 | None => ret []
                 end
             end
           else ret []) t)).
Proof.
  unfold bind, stat, readFile, ret.
  destruct (negb (isNotExist (os_Stat w path))).
  - destruct (ioutil_ReadFile w path) as [text|];
      [destruct (decode text)|]; cbn [snd];
      calls_step; calls_step; apply onlyProjectCalls_refl.
  - cbn [snd]. calls_step. apply onlyProjectCalls_refl.
Qed.

Lemma syncPhases_calls base refs s :
  onlyProjectCalls conURL projectID (wsTrace s)
    (wsTrace (snd (syncPhases w projectPath projectID conURL synctime connection
                              base refs s))).
Proof.
  apply (syncPhases_kept w projectPath projectID conURL synctime connection
           (onlyProjectCalls conURL projectID) syncFile_calls
           (fun a b => onlyProjectCalls conURL projectID (wsTrace a) (wsTrace b))).
  - intros. apply onlyProjectCalls_refl.
  - intros a b c. apply onlyProjectCalls_trans.
  - intros a b H. destruct H; cbn; auto using onlyProjectCalls_refl.
  - intros. cbn. calls_step. apply onlyProjectCalls_refl.
  - intros. cbn. calls_step. apply onlyProjectCalls_refl.
Qed.

Lemma syncFiles_calls t :
  onlyProjectCalls conURL projectID t
    (snd (syncFiles w projectPath projectID conURL synctime connection t)).
Proof.
  unfold syncFiles.
  apply bind_rel; [exact onlyProjectCalls_trans | apply rules_calls |].
  intros base t1 _.
  apply bind_rel; [exact onlyProjectCalls_trans | apply rules_calls |].
  intros refs t2 _.
  apply bind_rel; [exact onlyProjectCalls_trans | |].
  - unfold withClosure.
    pose proof (syncPhases_calls base refs (initState t2)) as H.
    destruct (syncPhases w projectPath projectID conURL synctime connection
                         base refs (initState t2)) as [[r|why] s]; exact H.
  - intros [[e|[|x l]] info] t3 _; apply onlyProjectCalls_refl.
Qed.

Lemma findNewFiles_calls before after : forall t,
  onlyProjectCalls conURL projectID t
    (snd (findNewFiles w projectPath projectID conURL connection before after t)).
Proof.
  induction after as [|f rest IH]; intros t; [apply onlyProjectCalls_refl|].
  cbn [findNewFiles]. destruct (negb (existsIn f before)); [|apply IH].
  apply bind_rel; [exact onlyProjectCalls_trans | apply syncFile_calls |].
  intros _ t1 _. apply bind_rel; [exact onlyProjectCalls_trans | apply IH |].
  intros; apply onlyProjectCalls_refl.
Qed.

Lemma deref_calls {A : Type} (i : option SyncInfo) (field : SyncInfo -> A) t :
  onlyProjectCalls conURL projectID t (snd (deref i field t)).
Proof. destruct i; apply onlyProjectCalls_refl. Qed.

Lemma syncAndComplete_calls stamp t :
  onlyProjectCalls conURL projectID t
    (snd (syncAndComplete w projectPath projectID conURL synctime connection
                          stamp t)).
Proof.
  unfold syncAndComplete.
  apply bind_rel; [exact onlyProjectCalls_trans | apply syncFiles_calls |].
  intros [syncInfo syncErr] t1 _.
  apply bind_rel; [exact onlyProjectCalls_trans | |].
  { unfold getProjectFileList. cbn [snd]. calls_step.
    apply onlyProjectCalls_refl. }
  intros before t2 _.
  apply bind_rel; [exact onlyProjectCalls_trans | |].
  { destruct before as [e|before]; [apply onlyProjectCalls_refl|].
    apply bind_rel; [exact onlyProjectCalls_trans | apply deref_calls |].
    intros after t3 _.
    apply bind_rel; [exact onlyProjectCalls_trans | apply findNewFiles_calls |].
    intros; apply onlyProjectCalls_refl. }
  intros syncInfo' t3 _.
  apply bind_rel; [exact onlyProjectCalls_trans | apply deref_calls |].
  intros fl t4 _.
  apply bind_rel; [exact onlyProjectCalls_trans | apply deref_calls |].
  intros dl t5 _.
  apply bind_rel; [exact onlyProjectCalls_trans | apply deref_calls |].
  intros ml t6 _.
  apply bind_rel; [exact onlyProjectCalls_trans | |].
  { rewrite completeUpload_eq. cbn [snd]. unfold afterRequest.
    destruct (sechttp_Dispatch w t6 _ connection);
      [apply onlyProjectCalls_refl | |];
      apply onlyProjectCalls_record; right; left; cbn; eauto. }
  intros [completeStatus completeStatusCode] t7 _.
  apply bind_rel; [exact onlyProjectCalls_trans | apply deref_calls |].
  intros; apply onlyProjectCalls_refl.
Qed.

Lemma handleMissingProjectDir_calls t :
  onlyProjectCalls conURL projectID t
    (snd (handleMissingProjectDir w connection conURL projectID t)).
Proof.
  unfold handleMissingProjectDir. unfold bind at 1. rewrite send_eq.
  unfold afterRequest.
  assert (H : onlyProjectCalls conURL projectID t
                (record t (EvSend {| method := "POST";
                                     url := conURL ++ "/api/v1/projects/"
                                            ++ projectID ++ "/missingLocalDir";
                                     body := NoBody |}))).
  { apply onlyProjectCalls_record. right. right. cbn. auto. }
  destruct (sechttp_Dispatch w t _ connection) as [e|d|st code];
    [apply onlyProjectCalls_refl | exact H |].
  destruct (negb (Z.eqb code StatusOK)); exact H.
Qed.

End CallFacts.

(** X18: whatever the outcome of [SyncProject], a panic included, every
    request it has handed to the HTTP layer is a request for the project
    at the origin of its connection: the upload of a file (PUT .../upload),
    the completion of the pass (POST .../upload/end) or the notification of
    a missing directory (POST .../missingLocalDir); and the record and the
    file list it asks for are those of the project at that origin. *)
Theorem SyncProject_calls_only_the_project w c connection conURL t :
  resolved w c connection conURL ->
  exists evs,
    snd (SyncProject w c t) = (t ++ evs)%list /\
    Forall (projectCall conURL (GoString.TrimSpace (flagID c))) evs.
Proof.
  intros [(conID & Hid & Hcon) Hurl].
  change (onlyProjectCalls conURL (GoString.TrimSpace (flagID c)) t
            (snd (SyncProject w c t))).
  unfold SyncProject. unfold bind at 1. unfold now.
  rewrite Hid, Hcon, Hurl.
  apply bind_rel; [apply onlyProjectCalls_trans | |].
  { unfold pathExists. cbn [snd]. apply onlyProjectCalls_record. exact I. }
  intros exists_ t1 _. destruct (negb exists_).
  - apply bind_rel; [apply onlyProjectCalls_trans | |].
    { unfold getProjectFromID. cbn [snd]. apply onlyProjectCalls_record.
      cbn. auto. }
    intros [err|projectInfo] t2 _; [apply onlyProjectCalls_refl|].
    destruct (negb (String.eqb _ (LocationOnDisk projectInfo)));
      [apply onlyProjectCalls_refl|].
    apply bind_rel;
      [apply onlyProjectCalls_trans | apply handleMissingProjectDir_calls |].
    intros [e|] t3 _; apply onlyProjectCalls_refl.
  - apply syncAndComplete_calls.
Qed.

(* ===================================================================== *)
(** ** Responses and manifests *)
(* ===================================================================== *)

Lemma syncAndComplete_completes w projectPath projectID conURL synctime
      connection stamp t resp err t' :
  syncAndComplete w projectPath projectID conURL synctime connection stamp t
  = (Ok (resp, err), t') ->
  exists r, resp = Some r /\
    (completions t' = S (completions t) \/
     (completions t' = completions t /\ respStatusCode r = 0%Z)).
Proof.
  intros Hrun. apply syncAndComplete_Ok in Hrun.
  destruct Hrun as (info & t1 & added & t2 & Hsync & Hrec & -> & ->).
  eexists. split; [reflexivity|]. cbn [respStatusCode].
  rewrite completions_afterRequest.
  rewrite <- (phases_completions _ _ _ _ _ _ _ _ _ _ _ _ Hsync Hrec).
  destruct (sechttp_Dispatch w t2 _ connection); cbn; auto.
Qed.

(** X19: [SyncProject] never returns neither a response nor an error.
    Without a response, an error is returned and no manifest was
    dispatched. With a response, the pass has dispatched one manifest, or
    none: then [http.NewRequest] built no completion request, and the
    response carries the code 0. *)
Theorem response_comes_with_at_most_one_manifest w c t resp err t' :
  SyncProject w c t = (Ok (resp, err), t') ->
  (resp = None /\ err <> None /\ completions t' = completions t) \/
  (exists r,
      resp = Some r /\
      (completions t' = S (completions t) \/
       (completions t' = completions t /\ respStatusCode r = 0%Z))).
Proof.
  unfold SyncProject. unfold bind at 1. unfold now.
  destruct (GetConnectionID w (GoString.TrimSpace (flagID c))) as [e0|conID].
  { intros H. injection H as <- <- <-. left. repeat split; discriminate. }
  destruct (connections_GetConnectionByID w conID) as [e0|connection].
  { intros H. injection H as <- <- <-. left. repeat split; discriminate. }
  destruct (config_PFEOriginFromConnection w connection) as [e0|conURL].
  { intros H. injection H as <- <- <-. left. repeat split; discriminate. }
  unfold bind at 1. unfold pathExists.
  destruct (utils_PathExists w (GoString.TrimSpace (flagPath c))); cbn [negb].
  - intros H. apply syncAndComplete_completes in H.
    destruct H as (r & -> & Hc). right. exists r. split; [reflexivity|].
    unfold record in Hc. rewrite completions_app in Hc. cbn in Hc.
    destruct Hc as [Hc|[Hc H0]]; [left; lia | right; split; [lia | exact H0]].
  - unfold bind at 1. unfold getProjectFromID.
    destruct (GetProjectFromID w _ connection conURL _) as [e0|projectInfo].
    { intros H. injection H as <- <- <-. left.
      split; [reflexivity|]. split; [discriminate|].
      unfold record. rewrite !completions_app. cbn. lia. }
    destruct (negb (String.eqb _ (LocationOnDisk projectInfo))).
    { intros H. injection H as <- <- <-. left.
      split; [reflexivity|]. split; [discriminate|].
      unfold record. rewrite !completions_app. cbn. lia. }
    unfold bind at 1. unfold handleMissingProjectDir. unfold bind at 1.
    rewrite send_eq. unfold afterRequest.
    intros H. left.
    destruct (sechttp_Dispatch w _ _ connection) as [e0|d|st code];
      try destruct (negb (Z.eqb code StatusOK));
      injection H as <- <- <-;
      (split; [reflexivity|]); (split; [discriminate|]);
      unfold record; rewrite !completions_app; cbn; lia.
Qed.

(* ===================================================================== *)
(** ** The further properties on the scenarios *)
(* ===================================================================== *)

(** X5 on scenario A: "b.txt" is the one modified file, it is listed, and
    there is one outcome. *)
Lemma every_modified_file_is_listed_with_one_outcome_witness :
  exists info,
    fst (syncFiles (world twoFiles) "/proj" "p1" "http://pfe" 50 "local" [])
    = Ok (Some info, None) /\
    modifiedList info = ["b.txt"] /\
    incl (modifiedList info) (fileList info) /\
    List.length (UploadedFileList info) = List.length (modifiedList info).
Proof.
  eassert (H : syncFiles (world twoFiles) "/proj" "p1" "http://pfe" 50 "local" []
               = (Ok (Some _, None), _)) by (vm_compute; reflexivity).
  destruct (every_modified_file_is_listed_with_one_outcome _ _ _ _ _ _ _ _ _ _ H)
    as [Hi Hl].
  eexists. rewrite H. cbn [fst]. split; [reflexivity|].
  split; [reflexivity|]. split; [exact Hi | exact Hl].
Defined.

(** X6 on scenario B: the rule "build" of .cw-settings. *)
Lemma ignored_paths_are_never_listed_witness :
  exists info,
    fst (syncFiles (world ignoredBuild) "/proj" "p1" "http://pfe" 50 "local" [])
    = Ok (Some info, None) /\
    fileList info = [".cw-settings"; "a.txt"; "z.txt"] /\
    directoryList info = [] /\
    Forall (fun p => ignoreFileOrDirectory p false ["build"] = false)
           (fileList info).
Proof.
  eassert (H : syncFiles (world ignoredBuild) "/proj" "p1" "http://pfe" 50
                         "local" [] = (Ok (Some _, None), _))
    by (vm_compute; reflexivity).
  destruct (ignored_paths_are_never_listed _ _ _ _ _ _ _ _ _ _ H) as [Hf _].
  eexists. rewrite H. cbn [fst]. split; [reflexivity|].
  split; [reflexivity|]. split; [reflexivity | exact Hf].
Defined.

(** X7 on a project with two invalid references. *)
Lemma invalid_references_are_reported_not_fatal_witness :
  exists info warnings,
    fst (syncFiles (world brokenReferences) "/proj" "p1" "http://pfe" 50
                   "local" [])
    = Ok (Some info, warnings) /\
    fileList info = [".cw-refpaths.json"; "a.txt"] /\
    warnings
    = Some {| Op := errOpSyncRef;
              Err := ErrInvalidRefs [("/tmp/gone.js", Some noEntry);
                                     ("/tmp/shared", None)];
              Desc := DescOf (ErrInvalidRefs [("/tmp/gone.js", Some noEntry);
                                              ("/tmp/shared", None)]) |}.
Proof.
  eassert (H : syncFiles (world brokenReferences) "/proj" "p1" "http://pfe" 50
                         "local" [] = (Ok (Some _, _), _))
    by (vm_compute; reflexivity).
  pose proof (invalid_references_are_reported_not_fatal _ _ _ _ _ _ _ _ _ _ H)
    as Hw.
  eexists _, _. rewrite H. cbn [fst]. split; [reflexivity|].
  split; [reflexivity|]. rewrite Hw. vm_compute. reflexivity.
Defined.

(** X13 on scenario D when the remote does not know the project. *)
Lemma missing_directory_without_project_record_witness :
  SyncProject (withoutProjectRecord (world (missingDir "/proj"))) cli []
  = (Ok (None, Some unknownProject),
     [EvPathExists "/proj"; EvGetProject "http://pfe" "p1"]).
Proof.
  apply (missing_directory_without_project_record
           (withoutProjectRecord (world (missingDir "/proj"))) cli
           "local" "http://pfe").
  - split; [exists "local"; split; reflexivity | reflexivity].
  - reflexivity.
  - reflexivity.
Defined.

(** X14 on the scenario of the imported file: "old.txt" is added by the
    reconciliation. *)
Lemma manifest_modified_files_are_listed_witness :
  exists t2 creq,
    snd (SyncProject (world imported) cli [])
    = record t2 (EvSend (completionRequest "p1" "http://pfe" creq)) /\
    incl (ModifiedList creq) (FileList creq).
Proof.
  eassert (H : SyncProject (world imported) cli [] = (Ok (_, _), _))
    by (vm_compute; reflexivity).
  destruct (manifest_modified_files_are_listed
              (world imported) cli "local" "http://pfe" (scenario_resolved _)
              eq_refl [] _ _ _ H) as (t2 & creq & _ & Ht & Hi).
  exists t2, creq. rewrite H. cbn [snd]. split; [|exact Hi].
  rewrite afterRequest_built in Ht by (intros e; discriminate). exact Ht.
Defined.

(** X15 on scenario A: the clock reads 5000 ms. *)
Lemma manifest_time_stamp_is_the_start_of_the_pass_witness :
  exists t2 creq,
    snd (SyncProject (world twoFiles) cli [])
    = record t2 (EvSend (completionRequest "p1" "http://pfe" creq)) /\
    TimeStamp creq = 5000%Z.
Proof.
  eassert (H : SyncProject (world twoFiles) cli [] = (Ok (_, _), _))
    by (vm_compute; reflexivity).
  destruct (manifest_time_stamp_is_the_start_of_the_pass
              (world twoFiles) cli "local" "http://pfe" (scenario_resolved _)
              eq_refl [] _ _ _ H) as (t2 & creq & _ & Ht & Hs).
  exists t2, creq. rewrite H. cbn [snd]. split; [|exact Hs].
  rewrite afterRequest_built in Ht by (intros e; discriminate). exact Ht.
Defined.

(** X16 on scenario A when the completion request is refused. *)
Lemma completion_failure_is_not_an_error_witness :
  exists r,
    fst (SyncProject (world completionRefused) cli []) = Ok (Some r, None) /\
    respStatus r = "connection refused" /\ respStatusCode r = 0%Z.
Proof.
  eassert (H : SyncProject (world completionRefused) cli [] = (Ok (_, _), _))
    by (vm_compute; reflexivity).
  destruct (completion_failure_is_not_an_error
              (world completionRefused) cli "local" "http://pfe"
              (scenario_resolved _) eq_refl [] _ _ _ H)
    as (r & t2 & creq & Hr & _ & Hs & _).
  exists r. rewrite H. cbn [fst]. split; [now rewrite Hr|]. exact (proj2 Hs).
Defined.

(** X17 on scenario A without a connection for the project. *)
Lemma unresolved_connection_touches_nothing_witness :
  exists e,
    SyncProject (withoutConnection (world twoFiles)) cli []
    = (Ok (None, Some e), []) /\
    (GetConnectionID (withoutConnection (world twoFiles))
                     (GoString.TrimSpace (flagID cli)) = inl e \/
     Op e = errOpConNotFound).
Proof.
  apply (unresolved_connection_touches_nothing
           (withoutConnection (world twoFiles)) cli []).
  intros connection conURL [(conID & Hid & _) _]. discriminate Hid.
Defined.

(** X10 on the project "/proj": the path "/pro" is too short, the path
    "/proj/a.txt" is not. *)
Lemma syncFile_needs_a_path_longer_than_the_project_witness :
  syncFile (world twoFiles) "p1" "/proj" "/pro" "local" "http://pfe" []
  = (Panic SliceBoundsOutOfRange, []) /\
  fst (syncFile (world twoFiles) "p1" "/proj" "/proj/a.txt" "local"
                "http://pfe" [])
  <> Panic SliceBoundsOutOfRange.
Proof.
  split.
  - apply (proj1 (syncFile_needs_a_path_longer_than_the_project
                    (world twoFiles) "/proj" "p1" "http://pfe" "local"
                    "/pro" [])).
    vm_compute. lia.
  - apply (proj2 (syncFile_needs_a_path_longer_than_the_project
                    (world twoFiles) "/proj" "p1" "http://pfe" "local"
                    "/proj/a.txt" [])).
    vm_compute. lia.
Defined.

(** X11 on scenario A: the remote knows both files. *)
Lemma findNewFiles_is_silent_when_nothing_is_new_witness :
  findNewFiles (world twoFiles) "/proj" "p1" "http://pfe" "local"
               ["a.txt"; "b.txt"] ["b.txt"; "a.txt"] []
  = (Ok [], []).
Proof.
  apply (proj1 (findNewFiles_is_silent_when_nothing_is_new
                  (world twoFiles) "/proj" "p1" "http://pfe" "local"
                  ["a.txt"; "b.txt"] ["b.txt"; "a.txt"] [])).
  intros f Hf. cbn in Hf. cbn. tauto.
Defined.

(** X12 on scenario C: the file referenced from "/tmp/shared/lib.js" is
    listed as "lib/lib.js" and uploaded as "hared/lib.js". *)
Lemma referenced_file_is_uploaded_under_its_from_path_witness :
  exists s' u,
    walkRefs (world shadowed) "/proj" "p1" "http://pfe" 50 "local" []
             [{| From := "/tmp/shared/lib.js"; To := "lib/lib.js" |}] []
             (initState [])
    = (Ok [], s') /\
    fileList (wsInfo s') = ["lib/lib.js"] /\
    modifiedList (wsInfo s') = ["lib/lib.js"] /\
    UploadedFileList (wsInfo s') = [u] /\
    FilePath u = "hared/lib.js".
Proof.
  destruct (referenced_file_is_uploaded_under_its_from_path
              (world shadowed) "/proj" "p1" "http://pfe" 50 "local" []
              {| From := "/tmp/shared/lib.js"; To := "lib/lib.js" |}
              {| IsDir := false; ModTime := ms 100; Perm := 420 |}
              "lib/lib.js" "hared/lib.js" "s" (initState []))
    as (s' & u & Hrun & Hf & Hm & Hu & Hp & _).
  - repeat split; reflexivity.
  - vm_compute. reflexivity.
  - reflexivity.
  - reflexivity.
  - intros e. vm_compute. discriminate.
  - exists s', u. repeat split; assumption.
Defined.

(** X3 on two plain rules. *)
Lemma plain_rules_ignore_exactly_their_names_witness :
  ignoreFileOrDirectory "node_modules" true ["build"; "node_modules"] = true /\
  ignoreFileOrDirectory "src/node_modules" true ["build"; "node_modules"] = false.
Proof.
  assert (H : Forall (fun r => plainName r = true) ["build"; "node_modules"])
    by (repeat constructor).
  split.
  - apply (proj2 (plain_rules_ignore_exactly_their_names
                    "node_modules" true ["build"; "node_modules"] H)).
    decide_In.
  - destruct (ignoreFileOrDirectory "src/node_modules" true
                                    ["build"; "node_modules"]) eqn:E;
      [|reflexivity].
    apply (proj1 (plain_rules_ignore_exactly_their_names
                    "src/node_modules" true ["build"; "node_modules"] H)) in E.
    refute_In E.
Defined.

(** X4 on the rule "build". *)
Lemma slash_around_a_plain_rule_is_dropped_witness :
  ignoreFileOrDirectory "build" true ["/build"]
  = ignoreFileOrDirectory "build" true ["build"] /\
  ignoreFileOrDirectory "build" true ["build/"]
  = ignoreFileOrDirectory "build" true ["build"].
Proof.
  apply (slash_around_a_plain_rule_is_dropped "build" "build" true []).
  reflexivity.
Defined.

(** X18 on the scenario of the failing upload. *)
Lemma SyncProject_calls_only_the_project_witness :
  exists evs,
    snd (SyncProject (world failingUpload) cli []) = ([] ++ evs)%list /\
    Forall (projectCall "http://pfe" (GoString.TrimSpace (flagID cli))) evs.
Proof.
  apply (SyncProject_calls_only_the_project
           (world failingUpload) cli "local" "http://pfe" []).
  apply scenario_resolved.
Defined.

(** X8 on the project with a directory that cannot be read. *)
Lemma walk_errors_come_from_the_file_system_witness :
  exists t1,
    syncFiles (world unreadable) "/proj" "p1" "http://pfe" 50 "local" []
    = (Ok (None,
           Some {| Op := errOpSync; Err := ErrWalking "/proj" (ErrOS denied);
                   Desc := DescOf (ErrWalking "/proj" (ErrOS denied)) |}), t1).
Proof.
  eassert (H : syncFiles (world unreadable) "/proj" "p1" "http://pfe" 50
                         "local" [] = (Ok (None, _), _))
    by (vm_compute; reflexivity).
  destruct (walk_errors_come_from_the_file_system _ _ _ _ _ _ _ _ _ H)
    as (oe & Hoe).
  eexists. rewrite H. reflexivity.
Defined.

(** X19 on scenario A, on scenario D, and on scenario A when no request
    can be built. *)
Lemma response_comes_with_at_most_one_manifest_witness :
  completions (snd (SyncProject (world twoFiles) cli [])) = 1 /\
  completions (snd (SyncProject (world (missingDir "/proj")) cli [])) = 0 /\
  exists r,
    fst (SyncProject (world unbuildable) cliAfterFirstPass [])
    = Ok (Some r, None) /\
    respStatusCode r = 0%Z /\
    completions (snd (SyncProject (world unbuildable) cliAfterFirstPass [])) = 0.
Proof.
  split; [|split].
  - eassert (H : SyncProject (world twoFiles) cli [] = (Ok (Some _, _), _))
      by (vm_compute; reflexivity).
    destruct (response_comes_with_at_most_one_manifest _ _ _ _ _ _ H)
      as [(Hr & _)|(r & Hr & [Hc|[_ H0]])]; [discriminate Hr | |].
    + rewrite H. exact Hc.
    + inversion Hr; subst r. discriminate H0.
  - eassert (H : SyncProject (world (missingDir "/proj")) cli []
                 = (Ok (None, _), _)) by (vm_compute; reflexivity).
    destruct (response_comes_with_at_most_one_manifest _ _ _ _ _ _ H)
      as [(_ & _ & Hc)|(r & Hr & _)]; [|discriminate Hr].
    rewrite H. exact Hc.
  - eassert (H : SyncProject (world unbuildable) cliAfterFirstPass []
                 = (Ok (Some _, _), _)) by (vm_compute; reflexivity).
    destruct (response_comes_with_at_most_one_manifest _ _ _ _ _ _ H)
      as [(Hr & _)|(r & Hr & _)]; [discriminate Hr|].
    exists r. rewrite H. cbn [fst snd]. inversion Hr; subst r.
    split; [reflexivity|]. split; reflexivity.
Defined.

(** X9 on scenario A, walked with the cutoff 50 ms and, after other
    calls, with the cutoff 5000 ms. *)
Lemma lists_do_not_depend_on_the_cutoff_witness :
  exists info info',
    fst (syncFiles (world twoFiles) "/proj" "p1" "http://pfe" 50 "local" [])
    = Ok (Some info, None) /\
    fst (syncFiles (world twoFiles) "/proj" "p1" "http://pfe" 5000 "local"
                   [EvPathExists "/proj"])
    = Ok (Some info', None) /\
    modifiedList info = ["b.txt"] /\ modifiedList info' = [] /\
    fileList info = fileList info' /\ directoryList info = directoryList info'.
Proof.
  eassert (H : syncFiles (world twoFiles) "/proj" "p1" "http://pfe" 50 "local" []
               = (Ok (Some _, None), _)) by (vm_compute; reflexivity).
  eassert (H' : syncFiles (world twoFiles) "/proj" "p1" "http://pfe" 5000 "local"
                          [EvPathExists "/proj"] = (Ok (Some _, None), _))
    by (vm_compute; reflexivity).
  destruct (lists_do_not_depend_on_the_cutoff _ _ _ _ _ _ _ _ _ _ _ _ _ _ _ H H')
    as [Hf Hd].
  eexists _, _. rewrite H, H'. cbn [fst]. split; [reflexivity|].
  split; [reflexivity|]. split; [reflexivity|]. split; [reflexivity|].
  split; [exact Hf | exact Hd].
Defined.

(* ===================================================================== *)
(** * Properties of the removal of a remote installation *)
(* ===================================================================== *)

Lemma app_split_at {A : Type} (l1 l2 pre post : list A) (c : A) :
  (l1 ++ l2 = pre ++ c :: post)%list ->
  (exists post1, l1 = pre ++ c :: post1 /\ post = post1 ++ l2)%list \/
  (exists pre2, pre = l1 ++ pre2 /\ l2 = pre2 ++ c :: post)%list.
Proof.
  revert pre. induction l1 as [|a l1 IH]; intros pre H.
  - right. exists pre. auto.
  - destruct pre as [|b pre]; cbn in H; inversion H; subst.
    + left. exists l1. auto.
    + destruct (IH pre H2) as [(post1 & -> & ->)|(pre2 & -> & ->)].
      * left. exists post1. auto.
      * right. exists pre2. auto.
Qed.

Section RemovalFacts.

Import remote.

Variable K : Kube.

Variables (PFEPrefix PerformancePrefix GatekeeperPrefix : string)
          (errOpNotFound errOpCreateNamespace : string).

Lemma deleteDeployment_removal o clientset labelSelector title t :
  deleteDeployment K (Some o) clientset labelSelector title t
  = (Ok (fst (removal K Deployments o clientset labelSelector t)),
     snd (removal K Deployments o clientset labelSelector t)).
Proof.
  unfold deleteDeployment, removal, bind, field, listResources, deleteNamed, ret.
  destruct (resources_List K clientset t Deployments (Namespace o) labelSelector)
    as [err|[[|name [|name2 l]]|]]; try reflexivity.
  destruct (resources_Delete K clientset _ Deployments (Namespace o) name);
    reflexivity.
Qed.

Lemma deletePod_removal o clientset labelSelector title t :
  deletePod K (Some o) clientset labelSelector title t
  = (Ok (fst (removal K Pods o clientset labelSelector t)),
     snd (removal K Pods o clientset labelSelector t)).
Proof.
  unfold deletePod, removal, bind, field, listResources, deleteNamed, ret.
  destruct (resources_List K clientset t Pods (Namespace o) labelSelector)
    as [err|[[|name [|name2 l]]|]]; try reflexivity.
  destruct (resources_Delete K clientset _ Pods (Namespace o) name); reflexivity.
Qed.

Lemma deleteService_removal o clientset labelSelector title t :
  deleteService K (Some o) clientset labelSelector title t
  = (Ok (fst (removal K Services o clientset labelSelector t)),
     snd (removal K Services o clientset labelSelector t)).
Proof.
  unfold deleteService, removal, bind, field, listResources, deleteNamed, ret.
  destruct (resources_List K clientset t Services (Namespace o) labelSelector)
    as [err|[[|name [|name2 l]]|]]; try reflexivity.
  destruct (resources_Delete K clientset _ Services (Namespace o) name);
    reflexivity.
Qed.

Lemma deleteOf_removal r o clientset labelSelector title t :
  deleteOf K r (Some o) clientset labelSelector title t
  = (Ok (fst (removal K r o clientset labelSelector t)),
     snd (removal K r o clientset labelSelector t)).
Proof.
  destruct r; cbn [deleteOf];
    [apply deleteDeployment_removal | apply deletePod_removal
     | apply deleteService_removal].
Qed.

Lemma deleteOf_nil r clientset labelSelector title t :
  deleteOf K r None clientset labelSelector title t = (Panic NilDereference, t).
Proof. destruct r; reflexivity. Qed.

(** The calls one removal adds: the list call and, when the list holds
    exactly one name, the deletion of that name. *)
Lemma removal_calls r o clientset labelSelector t :
  exists dels,
    snd (removal K r o clientset labelSelector t)
    = (t ++ CallList r (Namespace o) labelSelector :: dels)%list /\
    (dels = [] \/
     exists name,
       dels = [CallDelete r (Namespace o) name] /\
       resources_List K clientset t r (Namespace o) labelSelector
       = inr (Some [name])) /\
    (dels = [] <->
     fst (fst (removal K r o clientset labelSelector t)) = ResourceNotProcessed \/
     fst (fst (removal K r o clientset labelSelector t)) = ResourceNotFound).
Proof.
  unfold removal.
  destruct (resources_List K clientset t r (Namespace o) labelSelector)
    as [err|[[|name [|name2 l]]|]] eqn:E;
    try (exists []; cbn; repeat split; auto; fail).
  exists [CallDelete r (Namespace o) name].
  destruct (resources_Delete K clientset _ r (Namespace o) name); cbn;
    rewrite <- app_assoc; (split; [reflexivity|]);
    (split; [right; eauto|]);
    (split; [discriminate | intros [H|H]; discriminate H]).
Qed.

(** X20: a removal answers with one of four statuses, never with "found"
    or "skipped", and it returns an error exactly when the status is "not
    found" or "remove failed": "not processed" and "removed" come without
    an error. *)
Theorem removal_status_tells_the_error r options clientset labelSelector title
        t status err t' :
  deleteOf K r options clientset labelSelector title t = (Ok (status, err), t') ->
  In status [ResourceNotProcessed; ResourceNotFound; ResourceRemoved;
             ResourceRemoveFailed] /\
  (err = None <-> status = ResourceNotProcessed \/ status = ResourceRemoved).
Proof.
  destruct options as [o|]; [|rewrite deleteOf_nil; discriminate].
  rewrite deleteOf_removal. unfold removal.
  destruct (resources_List K clientset t r (Namespace o) labelSelector)
    as [e|[[|name [|name2 l]]|]];
    try destruct (resources_Delete K clientset _ r (Namespace o) name);
    cbn [fst snd]; intros H; inversion H; subst; cbn [In];
    (split; [tauto|]);
    (split; [auto; discriminate | intros [E|E]; try reflexivity; discriminate E]).
Qed.

(** X21: a removal lists the resources of its kind that carry the label
    in the namespace of the options, once and before anything else. It
    deletes at most one resource, and only when the list holds exactly one
    name: then it deletes that name, in the same namespace. Nothing was
    deleted exactly when the status is "not processed" or "not found". *)
Theorem removal_deletes_only_a_unique_match r o clientset labelSelector title
        t status err t' :
  deleteOf K r (Some o) clientset labelSelector title t = (Ok (status, err), t') ->
  exists dels,
    t' = (t ++ CallList r (Namespace o) labelSelector :: dels)%list /\
    (dels = [] \/
     exists name,
       dels = [CallDelete r (Namespace o) name] /\
       resources_List K clientset t r (Namespace o) labelSelector
       = inr (Some [name])) /\
    (dels = [] <->
     status = ResourceNotProcessed \/ status = ResourceNotFound).
Proof.
  rewrite deleteOf_removal. intros H.
  destruct (removal_calls r o clientset labelSelector t) as (dels & E & Hd & Hs).
  injection H as H1 H2. subst t'. rewrite H1 in Hs. cbn [fst] in Hs.
  exists dels. auto.
Qed.


(** [RemoveRemote] in closed form. *)
Lemma RemoveRemote_cases o t :
  RemoveRemote K PFEPrefix PerformancePrefix GatekeeperPrefix errOpNotFound
               errOpCreateNamespace (Some o) t
  = let kubeConfig := JoinElems [os_Getenv K "HOME"; ".kube"; "config"] in
    let t1 := (t ++ [CallBuildConfigFromFlags EmptyString kubeConfig])%list in
    match clientcmd_BuildConfigFromFlags K EmptyString kubeConfig with
    | inl err =>
        (Ok (None, Some {| Op := errOpNotFound; Err := err; Desc := err |}), t1)
    | inr config =>
        let t2 := (t1 ++ [CallNewForConfig])%list in
        match kubernetes_NewForConfig K config with
        | inl err =>
            (Ok (None, Some {| Op := errOpNotFound; Err := err; Desc := err |}),
             t2)
        | inr clientset =>
            let t3 := (t2 ++ [CallGetNamespace (Namespace o)])%list in
            match Namespaces_Get K clientset t2 (Namespace o) with
            | Some e =>
                (Ok (None, Some {| Op := errOpCreateNamespace; Err := e;
                                   Desc := e |}), t3)
            | None =>
                let '(statuses, t4) :=
                  removals K (removalPlan PFEPrefix PerformancePrefix
                                          GatekeeperPrefix (WorkspaceID o))
                           o clientset t3 in
                (Ok (Some (resultOf statuses), None), t4)
            end
        end
    end.
Proof.
  unfold RemoveRemote. cbn [field]. unfold bind at 1. cbn [ret].
  unfold bind at 1. unfold buildConfigFromFlags. cbn zeta.
  destruct (clientcmd_BuildConfigFromFlags K _ _) as [err|config]; [reflexivity|].
  unfold bind at 1. unfold newForConfig.
  destruct (kubernetes_NewForConfig K config) as [err|clientset]; [reflexivity|].
  unfold bind at 1. unfold getNamespace.
  destruct (Namespaces_Get K clientset _ (Namespace o)) as [e|]; [reflexivity|].
  unfold labelSelectorOf, field. cbn [removalPlan removals].
  unfold selectorOf, bind, ret. cbv zeta.
  repeat (rewrite ?deleteDeployment_removal, ?deleteService_removal;
          match goal with
          | |- context [removal K ?r o clientset ?sel ?t0] =>
              destruct (removal K r o clientset sel t0) as [[? ?] ?];
              cbn [fst snd]
          end).
  reflexivity.
Qed.

Lemma removals_calls plan o clientset : forall t,
  exists evs,
    snd (removals K plan o clientset t) = (t ++ evs)%list /\
    filter isListCall evs
    = map (fun p => CallList (fst p) (Namespace o) (snd p)) plan /\
    forall pre r ns name post,
      evs = (pre ++ CallDelete r ns name :: post)%list ->
      ns = Namespace o /\
      exists pre' labelSelector,
        pre = (pre' ++ [CallList r ns labelSelector])%list /\
        In (r, labelSelector) plan /\
        resources_List K clientset (t ++ pre')%list r ns labelSelector
        = inr (Some [name]).
Proof.
  induction plan as [|[r0 sel] rest IH]; intros t.
  - exists []. cbn. rewrite app_nil_r. split; [reflexivity|]. split; [reflexivity|].
    intros pre r ns name post H. destruct pre; discriminate H.
  - cbn [removals].
    destruct (removal_calls r0 o clientset sel t) as (dels & E1 & Hd & _).
    destruct (removal K r0 o clientset sel t) as [[status err] t1].
    cbn [snd] in E1. subst t1.
    destruct (IH (t ++ CallList r0 (Namespace o) sel :: dels)%list)
      as (evs2 & E2 & Hl & Hj).
    destruct (removals K rest o clientset _) as [statuses t2].
    cbn [snd] in *. subst t2.
    exists ((CallList r0 (Namespace o) sel :: dels) ++ evs2)%list.
    split; [now rewrite app_assoc|]. split.
    + rewrite filter_app, Hl. cbn [map fst snd].
      destruct Hd as [->|(name & -> & _)]; reflexivity.
    + intros pre r ns name post H.
      apply app_split_at in H.
      destruct H as [(post1 & H & _)|(pre2 & -> & H)].
      * destruct Hd as [->|(name0 & -> & Hlist)].
        -- destruct pre as [|c [|c' pre]]; discriminate H.
        -- destruct pre as [|c [|c' pre]]; try discriminate H.
           ++ inversion H; subst. split; [reflexivity|].
              exists [], sel. cbn. rewrite app_nil_r.
              repeat split; auto.
           ++ destruct pre; discriminate H.
      * destruct (Hj _ _ _ _ _ H) as (-> & pre' & sel' & -> & Hin & Hlist).
        split; [reflexivity|].
        exists ((CallList r0 (Namespace o) sel :: dels) ++ pre')%list, sel'.
        split; [now rewrite app_assoc|]. split; [now right|].
        rewrite <- Hlist. f_equal. now rewrite <- app_assoc.
Qed.

Lemma removals_statuses plan o clientset : forall t,
  List.length (fst (removals K plan o clientset t)) = List.length plan /\
  Forall (fun s => In s [ResourceNotProcessed; ResourceNotFound; ResourceRemoved;
                         ResourceRemoveFailed])
         (fst (removals K plan o clientset t)).
Proof.
  induction plan as [|[r0 sel] rest IH]; intros t; cbn [removals].
  - split; [reflexivity | constructor].
  - assert (Hs : In (fst (fst (removal K r0 o clientset sel t)))
                    [ResourceNotProcessed; ResourceNotFound; ResourceRemoved;
                     ResourceRemoveFailed]).
    { unfold removal.
      destruct (resources_List K clientset t r0 (Namespace o) sel)
        as [e|[[|name [|name2 l]]|]];
        try destruct (resources_Delete K clientset _ r0 (Namespace o) name);
        cbn; tauto. }
    destruct (removal K r0 o clientset sel t) as [[status err] t1].
    specialize (IH t1). destruct (removals K rest o clientset t1) as [sts t2].
    cbn [fst length] in *. destruct IH as [IH1 IH2].
    split; [now rewrite IH1 | now constructor].
Qed.


Lemma RemoveRemote_nil t :
  RemoveRemote K PFEPrefix PerformancePrefix GatekeeperPrefix errOpNotFound
               errOpCreateNamespace None t
  = (Panic NilDereference, t).
Proof. reflexivity. Qed.

(** X22: when [RemoveRemote] returns no result, it returns an error whose
    description is the text of the error, tagged as "not found" (the
    configuration or the client could not be built) or as "create
    namespace" (the namespace could not be fetched), and it has neither
    listed nor deleted any resource. *)
Theorem RemoveRemote_failure_touches_no_resource options t e t' :
  RemoveRemote K PFEPrefix PerformancePrefix GatekeeperPrefix errOpNotFound
               errOpCreateNamespace options t = (Ok (None, e), t') ->
  exists err evs,
    e = Some err /\ Desc err = Err err /\
    (Op err = errOpNotFound \/ Op err = errOpCreateNamespace) /\
    t' = (t ++ evs)%list /\
    Forall (fun c => isResourceCall c = false) evs.
Proof.
  destruct options as [o|]; [|rewrite RemoveRemote_nil; discriminate].
  rewrite RemoveRemote_cases. cbv zeta.
  destruct (clientcmd_BuildConfigFromFlags K _ _) as [msg|config].
  - intros H. injection H as <- <-. eexists _, _.
    split; [reflexivity|]. cbn [Desc Err Op]. repeat split; auto.
  - destruct (kubernetes_NewForConfig K config) as [msg|clientset].
    + intros H. injection H as <- <-. eexists _, _.
      split; [reflexivity|]. cbn [Desc Err Op].
      split; [reflexivity|]. split; [now left|].
      split; [now rewrite <- app_assoc|]. repeat constructor.
    + destruct (Namespaces_Get K clientset _ (Namespace o)) as [msg|].
      * intros H. injection H as <- <-. eexists _, _.
        split; [reflexivity|]. cbn [Desc Err Op].
        split; [reflexivity|]. split; [now right|].
        split; [now rewrite <- !app_assoc|]. repeat constructor.
      * destruct (removals K _ o clientset _) as [statuses t4]. discriminate.
Qed.

(** X23: once the namespace has been found, [RemoveRemote] returns a
    result and no error, whatever the six removals met: their errors are
    dropped. It lists, in this order, the deployments of PFE, of the
    performance dashboard and of the gatekeeper, then their services, each
    by the label of the workspace and in the namespace of the options; a
    removal that fails does not keep the later ones from being tried. *)
Theorem RemoveRemote_returns_no_removal_error o clientset t :
  namespaceFound K o clientset t ->
  exists result evs,
    RemoveRemote K PFEPrefix PerformancePrefix GatekeeperPrefix errOpNotFound
                 errOpCreateNamespace (Some o) t
    = (Ok (Some result, None), (t ++ preamble K o ++ evs)%list) /\
    filter isListCall evs
    = map (fun p => CallList (fst p) (Namespace o) (snd p))
          (removalPlan PFEPrefix PerformancePrefix GatekeeperPrefix
                       (WorkspaceID o)).
Proof.
  intros (config & Hconfig & Hclient & Hns).
  rewrite RemoveRemote_cases. cbv zeta. rewrite Hconfig, Hclient.
  rewrite <- app_assoc. cbn [app]. rewrite Hns.
  destruct (removals_calls
              (removalPlan PFEPrefix PerformancePrefix GatekeeperPrefix
                           (WorkspaceID o)) o clientset
              ((t ++ [CallBuildConfigFromFlags EmptyString
                        (JoinElems [os_Getenv K "HOME"; ".kube"; "config"]);
                      CallNewForConfig]) ++ [CallGetNamespace (Namespace o)])%list)
    as (evs & E & Hl & _).
  destruct (removals K _ o clientset _) as [statuses t4]. cbn [snd] in E.
  subst t4. exists (resultOf statuses), evs. split; [|exact Hl].
  unfold preamble. rewrite <- !app_assoc. reflexivity.
Qed.

(** X24: a result of [RemoveRemote] comes without an error. Its statuses
    of the pods, of the secrets, of the service account, of the cluster
    role bindings, of the persistent volume claim and of everything of
    Keycloak are "not processed"; each of the six others is "not
    processed", "not found", "removed" or "remove failed". *)
Theorem RemoveRemote_assigns_six_statuses options t result e t' :
  RemoveRemote K PFEPrefix PerformancePrefix GatekeeperPrefix errOpNotFound
               errOpCreateNamespace options t = (Ok (Some result, e), t') ->
  e = None /\
  Forall (fun s => s = ResourceNotProcessed) (unassigned result) /\
  Forall (fun s => In s [ResourceNotProcessed; ResourceNotFound; ResourceRemoved;
                         ResourceRemoveFailed]) (assigned result).
Proof.
  destruct options as [o|]; [|rewrite RemoveRemote_nil; discriminate].
  rewrite RemoveRemote_cases. cbv zeta.
  destruct (clientcmd_BuildConfigFromFlags K _ _) as [msg|config];
    [discriminate|].
  destruct (kubernetes_NewForConfig K config) as [msg|clientset]; [discriminate|].
  destruct (Namespaces_Get K clientset _ (Namespace o)) as [msg|]; [discriminate|].
  match goal with
  | |- context [removals K ?p o clientset ?t0] =>
      pose proof (removals_statuses p o clientset t0) as [Hlen Hst];
      destruct (removals K p o clientset t0) as [statuses t4]
  end.
  cbn [fst] in *. intros H. injection H as <- <- <-.
  split; [reflexivity|]. split; [repeat constructor|].
  destruct statuses as [|s0 [|s1 [|s2 [|s3 [|s4 [|s5 [|s6 l]]]]]]];
    try discriminate Hlen.
  exact Hst.
Qed.

(** X25: every deletion [RemoveRemote] asks for is in the namespace of the
    options and follows at once the list call of one of its six removals,
    for the same kind of resource and by the label of the workspace, which
    was answered with exactly the deleted name. Whatever the cluster holds,
    nothing else is deleted. *)
Theorem RemoveRemote_deletes_only_what_it_selected o t res t' :
  RemoveRemote K PFEPrefix PerformancePrefix GatekeeperPrefix errOpNotFound
               errOpCreateNamespace (Some o) t = (Ok res, t') ->
  exists evs,
    t' = (t ++ evs)%list /\
    forall pre r ns name post,
      evs = (pre ++ CallDelete r ns name :: post)%list ->
      ns = Namespace o /\
      exists pre' labelSelector clientset,
        pre = (pre' ++ [CallList r ns labelSelector])%list /\
        In (r, labelSelector)
           (removalPlan PFEPrefix PerformancePrefix GatekeeperPrefix
                        (WorkspaceID o)) /\
        resources_List K clientset (t ++ pre')%list r ns labelSelector
        = inr (Some [name]).
Proof.
  rewrite RemoveRemote_cases. cbv zeta.
  destruct (clientcmd_BuildConfigFromFlags K _ _) as [msg|config].
  { intros H. injection H as _ <-. eexists. split; [reflexivity|].
    intros pre r ns name post E. destruct pre as [|? [|? ?]]; discriminate E. }
  destruct (kubernetes_NewForConfig K config) as [msg|clientset].
  { intros H. injection H as _ <-. eexists.
    split; [now rewrite <- app_assoc|].
    intros pre r ns name post E.
    destruct pre as [|? [|? [|? ?]]]; discriminate E. }
  destruct (Namespaces_Get K clientset _ (Namespace o)) as [msg|].
  { intros H. injection H as _ <-. eexists.
    split; [now rewrite <- !app_assoc|].
    intros pre r ns name post E.
    destruct pre as [|? [|? [|? [|? ?]]]]; discriminate E. }
  match goal with
  | |- context [removals K ?p o clientset ?t0] =>
      destruct (removals_calls p o clientset t0) as (evs & E & _ & Hj);
      destruct (removals K p o clientset t0) as [statuses t4]
  end.
  cbn [snd] in E. subst t4. intros H. injection H as _ <-.
  exists (preamble K o ++ evs)%list.
  split; [unfold preamble; now rewrite <- !app_assoc|].
  intros pre r ns name post Hsplit.
  apply app_split_at in Hsplit.
  destruct Hsplit as [(post1 & Hp & _)|(pre2 & -> & Hp)].
  - unfold preamble in Hp.
    destruct pre as [|? [|? [|? [|? ?]]]]; discriminate Hp.
  - destruct (Hj _ _ _ _ _ Hp) as (-> & pre' & sel & -> & Hin & Hlist).
    split; [reflexivity|].
    exists (preamble K o ++ pre')%list, sel, clientset.
    split; [now rewrite app_assoc|]. split; [exact Hin|].
    rewrite <- Hlist. f_equal. unfold preamble. now rewrite <- !app_assoc.
Qed.

(** X26: the configuration of the client is read from the file
    ".kube/config" below the directory the variable HOME names. When HOME
    is empty or not set, that is the relative path ".kube/config", looked
    up from the directory the process runs in. *)
Theorem RemoveRemote_without_HOME_reads_a_relative_kubeconfig o t :
  os_Getenv K "HOME" = EmptyString ->
  exists evs,
    snd (RemoveRemote K PFEPrefix PerformancePrefix GatekeeperPrefix errOpNotFound
                      errOpCreateNamespace (Some o) t)
    = (t ++ CallBuildConfigFromFlags EmptyString ".kube/config" :: evs)%list.
Proof.
  intros Hhome. rewrite RemoveRemote_cases. cbv zeta. rewrite Hhome.
  change (JoinElems [EmptyString; ".kube"; "config"]) with ".kube/config".
  destruct (clientcmd_BuildConfigFromFlags K _ _) as [msg|config];
    [now exists []|].
  destruct (kubernetes_NewForConfig K config) as [msg|clientset].
  { eexists. cbn [snd]. now rewrite <- app_assoc. }
  destruct (Namespaces_Get K clientset _ (Namespace o)) as [msg|].
  { eexists. cbn [snd]. now rewrite <- !app_assoc. }
  match goal with
  | |- context [removals K ?p o clientset ?t0] =>
      destruct (removals_calls p o clientset t0) as (evs & E & _);
      destruct (removals K p o clientset t0) as [statuses t4]
  end.
  cbn [snd] in *. subst t4. eexists. now rewrite <- !app_assoc.
Qed.

End RemovalFacts.

(* ===================================================================== *)
(** ** The removal on an example cluster *)
(* ===================================================================== *)
Section RemovalExamples.

Import remote.

(** X20 on the example: the one deployment of PFE is removed, without an
    error. *)
Lemma removal_status_tells_the_error_witness :
  In ResourceRemoved [ResourceNotProcessed; ResourceNotFound; ResourceRemoved;
                      ResourceRemoveFailed] /\
  (@None string = None <->
   ResourceRemoved = ResourceNotProcessed \/ ResourceRemoved = ResourceRemoved).
Proof.
  apply (removal_status_tells_the_error
           (exampleKube exampleFound (fun _ => None)) Deployments
           (Some exampleOptions) "clientset" "app=pfe,codewindWorkspace=k1"
           "Codewind PFE" [] ResourceRemoved None
           [CallList Deployments "codewind" "app=pfe,codewindWorkspace=k1";
            CallDelete Deployments "codewind" "pfe-k1"]).
  vm_compute. reflexivity.
Defined.

(** X21 on the example: the label of the performance dashboard finds two
    deployments, and none is deleted. *)
Lemma removal_deletes_only_a_unique_match_witness :
  exists dels,
    [CallList Deployments "codewind" "app=perf,codewindWorkspace=k1"]
    = ([] ++ CallList Deployments (Namespace exampleOptions)
                      "app=perf,codewindWorkspace=k1" :: dels)%list /\
    (dels = [] \/
     exists name,
       dels = [CallDelete Deployments (Namespace exampleOptions) name] /\
       exampleFound "app=perf,codewindWorkspace=k1" = inr (Some [name])) /\
    (dels = [] <->
     ResourceNotProcessed = ResourceNotProcessed \/
     ResourceNotProcessed = ResourceNotFound).
Proof.
  apply (removal_deletes_only_a_unique_match
           (exampleKube exampleFound (fun _ => None)) Deployments
           exampleOptions "clientset" "app=perf,codewindWorkspace=k1"
           "Codewind Performance" [] ResourceNotProcessed None).
  vm_compute. reflexivity.
Defined.

(** X22 on the example: the options name a namespace the cluster does not
    hold. *)
Lemma RemoveRemote_failure_touches_no_resource_witness :
  exists err evs,
    Some {| Op := "rem_create_namespace"; Err := "namespace not found";
            Desc := "namespace not found" |} = Some err /\
    Desc err = Err err /\
    (Op err = "rem_not_found" \/ Op err = "rem_create_namespace") /\
    [CallBuildConfigFromFlags EmptyString "/home/dev/.kube/config";
     CallNewForConfig; CallGetNamespace "elsewhere"] = ([] ++ evs)%list /\
    Forall (fun c => isResourceCall c = false) evs.
Proof.
  apply (RemoveRemote_failure_touches_no_resource
           (exampleKube exampleFound (fun _ => None)) "pfe" "perf" "gate"
           "rem_not_found" "rem_create_namespace"
           (Some {| Namespace := "elsewhere"; WorkspaceID := "k1" |}) []).
  vm_compute. reflexivity.
Defined.

Lemma example_namespaceFound found deletion :
  namespaceFound (exampleKube found deletion) exampleOptions "clientset" [].
Proof. exists "config". repeat split. Qed.

(** X23 on the example, with every deletion refused. *)
Lemma RemoveRemote_returns_no_removal_error_witness :
  exists result evs,
    RemoveRemote (exampleKube exampleFound (fun _ => Some "forbidden"))
                 "pfe" "perf" "gate" "rem_not_found" "rem_create_namespace"
                 (Some exampleOptions) []
    = (Ok (Some result, None),
       ([] ++ preamble (exampleKube exampleFound (fun _ => Some "forbidden"))
                       exampleOptions ++ evs)%list) /\
    filter isListCall evs
    = map (fun p => CallList (fst p) (Namespace exampleOptions) (snd p))
          (removalPlan "pfe" "perf" "gate" (WorkspaceID exampleOptions)).
Proof.
  apply (RemoveRemote_returns_no_removal_error
           (exampleKube exampleFound (fun _ => Some "forbidden"))
           "pfe" "perf" "gate" "rem_not_found" "rem_create_namespace"
           exampleOptions "clientset" []).
  apply example_namespaceFound.
Defined.

(** X24 on the example: PFE is removed, the two deployments of the
    performance dashboard are left alone. *)
Lemma RemoveRemote_assigns_six_statuses_witness :
  exists result,
    fst (RemoveRemote (exampleKube exampleFound (fun _ => None))
                      "pfe" "perf" "gate" "rem_not_found" "rem_create_namespace"
                      (Some exampleOptions) [])
    = Ok (Some result, None) /\
    assigned result
    = [ResourceRemoved; ResourceNotProcessed; ResourceNotProcessed;
       ResourceRemoved; ResourceNotProcessed; ResourceNotProcessed] /\
    Forall (fun s => s = ResourceNotProcessed) (unassigned result).
Proof.
  eassert (H : RemoveRemote (exampleKube exampleFound (fun _ => None))
                 "pfe" "perf" "gate" "rem_not_found" "rem_create_namespace"
                 (Some exampleOptions) [] = (Ok (Some _, _), _))
    by (vm_compute; reflexivity).
  destruct (RemoveRemote_assigns_six_statuses _ _ _ _ _ _ _ _ _ _ _ H)
    as (_ & Hu & _).
  eexists. rewrite H. cbn [fst]. split; [reflexivity|].
  split; [reflexivity | exact Hu].
Defined.

(** X25 on the example: the deployment and the service of PFE are the
    only resources deleted. *)
Lemma RemoveRemote_deletes_only_what_it_selected_witness :
  exists evs,
    snd (RemoveRemote (exampleKube exampleFound (fun _ => None))
                      "pfe" "perf" "gate" "rem_not_found" "rem_create_namespace"
                      (Some exampleOptions) [])
    = ([] ++ evs)%list /\
    forall pre r ns name post,
      evs = (pre ++ CallDelete r ns name :: post)%list ->
      ns = "codewind" /\
      exists pre' labelSelector,
        pre = (pre' ++ [CallList r ns labelSelector])%list /\
        In (r, labelSelector) (removalPlan "pfe" "perf" "gate" "k1") /\
        exampleFound labelSelector = inr (Some [name]).
Proof.
  eassert (H : RemoveRemote (exampleKube exampleFound (fun _ => None))
                 "pfe" "perf" "gate" "rem_not_found" "rem_create_namespace"
                 (Some exampleOptions) [] = (Ok _, _))
    by (vm_compute; reflexivity).
  destruct (RemoveRemote_deletes_only_what_it_selected _ _ _ _ _ _ _ _ _ _ H)
    as (evs & E & Hj).
  exists evs. rewrite H. cbn [snd]. split; [exact E|].
  intros pre r ns name post Hsplit.
  destruct (Hj _ _ _ _ _ Hsplit) as (Hns & pre' & sel & cs & Hpre & Hin & Hl).
  split; [exact Hns|]. exists pre', sel. auto.
Defined.

(** X26 on a cluster of a user without HOME. *)
Lemma RemoveRemote_without_HOME_reads_a_relative_kubeconfig_witness :
  exists evs,
    snd (RemoveRemote
           {| os_Getenv := fun _ => EmptyString;
              clientcmd_BuildConfigFromFlags := fun _ _ => inl "no configuration";
              kubernetes_NewForConfig := fun _ => inr "clientset";
              Namespaces_Get := fun _ _ _ => None;
              resources_List := fun _ _ _ _ _ => inr None;
              resources_Delete := fun _ _ _ _ _ => None |}
           "pfe" "perf" "gate" "rem_not_found" "rem_create_namespace"
           (Some exampleOptions) [])
    = ([] ++ CallBuildConfigFromFlags EmptyString ".kube/config" :: evs)%list.
Proof.
  apply (RemoveRemote_without_HOME_reads_a_relative_kubeconfig
           {| os_Getenv := fun _ => EmptyString;
              clientcmd_BuildConfigFromFlags := fun _ _ => inl "no configuration";
              kubernetes_NewForConfig := fun _ => inr "clientset";
              Namespaces_Get := fun _ _ _ => None;
              resources_List := fun _ _ _ _ _ => inr None;
              resources_Delete := fun _ _ _ _ _ => None |}
           "pfe" "perf" "gate" "rem_not_found" "rem_create_namespace"
           exampleOptions []).
  reflexivity.
Defined.

End RemovalExamples.
